(** * Connection lifecycle and agent provisioning: a shallow embedding

    The development follows the TypeScript sources module by module:
    - [Js]: the handful of JavaScript primitives the code relies on
      (string case mapping, trimming, truthiness, thrown values);
    - [Exc]: a state-and-exception monad for the effectful code;
    - [Composio]: [src/composio/client.ts], [src/composio/connected-accounts.ts]
      and [src/agents/tools/composio-tool.ts];
    - [Recipes]: the recipe catalogue (onboarding/recipes);
    - [Onboard]: [src/gateway/server-methods/onboard-simple.ts], its
      [onboard.recipes] and [onboard.simple] handlers;
    - [Sample]: concrete collaborators and machines to run the code on.

    Definitions come first, the theorems about them afterwards
    ([ClientFacts], [RecipeFacts], [ToolFacts], [OnboardFacts]). *)

From Stdlib Require Import ZArith Ascii String List Lia.
From stdpp Require Import base decidable option list strings pretty gmap.

Set Warnings "-register-all,-clear-no-such-hyp".

Local Open Scope string_scope.
Local Open Scope Z_scope.
Local Open Scope list_scope.

(* ===================================================================== *)
(** * JavaScript primitives *)
(* ===================================================================== *)

Module Js.

(** Strings are modelled on the ASCII range: a [string] stands for a
    JavaScript string whose code units are all below 128, one [ascii] for
    each.  On that range [String.prototype.toUpperCase],
    [String.prototype.trim] and the regular-expression class [\s] are
    exactly as below.  Beyond it the host's Unicode tables decide (further
    white space such as U+00A0, U+2028 or U+FEFF, case mappings that change
    the length of a string); they are not modelled, and a character above
    127 is left as it is. *)

Definition is_lower (c : ascii) : bool :=
  let n := nat_of_ascii c in (97 <=? n)%nat && (n <=? 122)%nat.

Definition upper_char (c : ascii) : ascii :=
  if is_lower c then ascii_of_nat (nat_of_ascii c - 32) else c.

Fixpoint toUpperCase (s : string) : string :=
  match s with
  | EmptyString => EmptyString
  | String c r => String (upper_char c) (toUpperCase r)
  end.

(** TAB, LF, VT, FF, CR and SPACE. *)
Definition is_space (c : ascii) : bool :=
  let n := nat_of_ascii c in
  ((9 <=? n)%nat && (n <=? 13)%nat) || (n =? 32)%nat.

Fixpoint trimStart (s : string) : string :=
  match s with
  | EmptyString => EmptyString
  | String c r => if is_space c then trimStart r else s
  end.

Fixpoint trimEnd (s : string) : string :=
  match s with
  | EmptyString => EmptyString
  | String c r =>
      match trimEnd r with
      | EmptyString => if is_space c then EmptyString else String c EmptyString
      | r' => String c r'
      end
  end.

Definition trim (s : string) : string := trimEnd (trimStart s).

(** [s.replace(/\s+/g, " ")]: every maximal run of white space becomes one
    space.  [in_run] tells that the previous character was white space. *)
Fixpoint collapse_ws (in_run : bool) (s : string) : string :=
  match s with
  | EmptyString => EmptyString
  | String c r =>
      if is_space c
      then (if in_run then collapse_ws true r else String " " (collapse_ws true r))
      else String c (collapse_ws false r)
  end.

(** Truthiness of a [string] and of a [string | undefined]. *)
Definition truthy (s : string) : bool :=
  match s with EmptyString => false | _ => true end.

Definition truthy_opt (o : option string) : bool :=
  match o with Some s => truthy s | None => false end.

(** [a || b] on [string | undefined] operands. *)
Definition or_else (a b : option string) : option string :=
  if truthy_opt a then a else b.

(** [a || undefined]. *)
Definition or_undefined (a : option string) : option string :=
  if truthy_opt a then a else None.

(** The double quote, spelled by its code. *)
Definition dq : string := String (ascii_of_nat 34) EmptyString.

(** The line feed, for template literals that span lines and for
    [join("\n")]. *)
Definition nl : string := String (ascii_of_nat 10) EmptyString.

(** JavaScript values as far as this code inspects them.  A number is
    carried as its [Number::toString] rendering, which is all the code
    observes of it. *)
Inductive Value : Type :=
| VUndefined
| VNull
| VBool (b : bool)
| VNumber (rendering : string)
| VString (s : string)
| VArray (items : list Value)
| VObject (props : list (string * Value)).

(** A [Record<string, unknown>]. *)
Abbreviation Rec := (gmap string Value).

(** Property read: an absent property reads as [undefined].  The code
    reads these records under fixed names ([status], [id], [botName], ...),
    none of which [Object.prototype] has. *)
Definition prop (r : Rec) (k : string) : Value := default VUndefined (r !! k).

(** Values that are thrown: an [Error] object with its message, or any
    other value, carried as its [String(...)] rendering. *)
Inductive Thrown : Type :=
| ErrorObj (message : string)
| ThrownValue (rendering : string).

(** [String(err)]. *)
Definition String_of_thrown (e : Thrown) : string :=
  match e with
  | ErrorObj m => "Error: " +:+ m
  | ThrownValue r => r
  end.

(** [err instanceof Error ? err.message : String(err)]. *)
Definition message_of_thrown (e : Thrown) : string :=
  match e with
  | ErrorObj m => m
  | ThrownValue r => r
  end.

End Js.

(* ===================================================================== *)
(** * State and exceptions *)
(* ===================================================================== *)

Module Exc.

Import Js.

(** The result of running a computation: a value, or a thrown value (a
    rejected promise). *)
Inductive Outcome (A : Type) : Type :=
| Ok (a : A)
| Throw (e : Thrown).
Arguments Ok {A} a.
Arguments Throw {A} e.

(** A computation over a world of type [W]. *)
Definition M (W A : Type) : Type := W -> Outcome A * W.

Definition ret {W A} (a : A) : M W A := fun w => (Ok a, w).

Definition throw {W A} (e : Thrown) : M W A := fun w => (Throw e, w).

Definition bind {W A B} (c : M W A) (k : A -> M W B) : M W B :=
  fun w =>
    match c w with
    | (Ok a, w') => k a w'
    | (Throw e, w') => (Throw e, w')
    end.

(** [try { c } catch (err) { h err }]. *)
Definition try_catch {W A} (c : M W A) (h : Thrown -> M W A) : M W A :=
  fun w =>
    match c w with
    | (Ok a, w') => (Ok a, w')
    | (Throw e, w') => h e w'
    end.

(** A step that cannot throw. *)
Definition total {W A} (f : W -> A * W) : M W A :=
  fun w => let (a, w') := f w in (Ok a, w').

Definition gets {W A} (f : W -> A) : M W A := fun w => (Ok (f w), w).

Definition modify {W} (f : W -> W) : M W unit := fun w => (Ok tt, f w).

(** [Promise.all] over tasks that have all been started, in the order of
    the array: every task runs, the results are collected by index, and
    the whole rejects when some task rejects. *)
Fixpoint promise_all {W A} (tasks : list (M W A)) : M W (list A) :=
  fun w =>
    match tasks with
    | [] => (Ok [], w)
    | t :: rest =>
        let (o, w1) := t w in
        let (os, w2) := promise_all rest w1 in
        (match o, os with
         | Ok a, Ok l => Ok (a :: l)
         | Throw e, _ => Throw e
         | Ok _, Throw e => Throw e
         end, w2)
    end.

Definition is_ok {A} (o : Outcome A) : bool :=
  match o with Ok _ => true | Throw _ => false end.

End Exc.

Notation "'let*' x ':=' c 'in' k" :=
  (Exc.bind c (fun x => k))
    (at level 10, x name, c at level 100, k at level 200).
Notation "c ';;' k" :=
  (Exc.bind c (fun _ => k))
    (at level 100, k at level 200, right associativity).

(* ===================================================================== *)
(** * The connection broker: client, connected accounts, agent tool *)
(* ===================================================================== *)

Module Composio.

Import Js Exc.

(** ** Types ([config/types.composio], [composio/types]) *)

Record ComposioConfig : Type := {
  enabled : option bool;
  apiKey : option string;
  baseUrl : option string;
  defaultToolkits : option (list string);
  (** A [number]; the model covers integer values. *)
  maxAccountsPerUser : option Z
}.

Record ComposioConnectedAccount : Type := {
  id : string;
  appName : string;
  (** Typed as the four-literal union, but produced by a cast of a
      string: any string can appear. *)
  status : string;
  createdAt : string;
  updatedAt : string
}.

Record ComposioInitiateConnectionResult : Type := {
  connectedAccountId : string;
  redirectUrl : string
}.

(** ** The SDK client and the broker behind it *)

(** A [Composio] object.  [serial] is its identity: [new Composio(...)]
    gives every object a serial of its own. *)
Record Client : Type := {
  serial : nat;
  clientApiKey : string;
  clientBaseUrl : option string
}.

#[export] Instance Client_eq_dec : EqDecision Client.
Proof. solve_decision. Defined.

Record InitiateRequest : Type := {
  reqEntityId : string;
  reqAppName : string;
  reqRedirectUri : option string
}.

(** What [client.connectedAccounts.initiate] resolves to. *)
Record ConnectionRequest : Type := {
  crConnectedAccountId : string;
  crRedirectUrl : option string
}.

Record ExecuteRequest : Type := {
  exActionName : string;
  exParams : Value;
  exConnectedAccountId : option string
}.

(** The calls that reach the broker. *)
Inductive BrokerCall : Type :=
| CallInitiate (req : InitiateRequest)
| CallGet (accountId : string)
| CallDelete (accountId : string)
| CallGetConnections (entityId : string)
| CallExecute (entityId : string) (req : ExecuteRequest).

(** The broker is an external service.  Its answer to a call may depend on
    the client used and on every call issued before ([history], oldest
    first); [inl] is a rejection. *)
Record Broker : Type := {
  initiate : Client -> list BrokerCall -> InitiateRequest -> Thrown + ConnectionRequest;
  get : Client -> list BrokerCall -> string -> Thrown + Rec;
  delete : Client -> list BrokerCall -> string -> Thrown + unit;
  getConnections : Client -> list BrokerCall -> string -> Thrown + list Rec;
  entityExecute : Client -> list BrokerCall -> string -> ExecuteRequest -> Thrown + Value
}.

(** The process: the environment variables read, the three module-level
    variables of [client.ts], the number of clients constructed so far,
    the broker and the log of calls made to it.  Log output
    ([log.warn], [log.info], [log.error]) is not modelled. *)
Record World : Type := {
  env_COMPOSIO_API_KEY : option string;
  env_COMPOSIO_BASE_URL : option string;
  cachedClient : option Client;
  cachedApiKey : option string;
  cachedBaseUrl : option string;
  constructed : nat;
  remote : Broker;
  brokerLog : list BrokerCall
}.

Definition set_cache (c : option Client) (k u : option string) (n : nat)
    (w : World) : World :=
  {| env_COMPOSIO_API_KEY := env_COMPOSIO_API_KEY w;
     env_COMPOSIO_BASE_URL := env_COMPOSIO_BASE_URL w;
     cachedClient := c; cachedApiKey := k; cachedBaseUrl := u;
     constructed := n;
     remote := remote w; brokerLog := brokerLog w |}.

Definition log_call (c : BrokerCall) (w : World) : World :=
  {| env_COMPOSIO_API_KEY := env_COMPOSIO_API_KEY w;
     env_COMPOSIO_BASE_URL := env_COMPOSIO_BASE_URL w;
     cachedClient := cachedClient w; cachedApiKey := cachedApiKey w;
     cachedBaseUrl := cachedBaseUrl w; constructed := constructed w;
     remote := remote w; brokerLog := brokerLog w ++ [c] |}.

(** Logging a run of calls. *)
Definition log_calls (cs : list BrokerCall) (w : World) : World :=
  fold_left (fun w c => log_call c w) cs w.

(** One call to the broker: logged, then answered. *)
Definition call {A} (c : BrokerCall)
    (answer : Broker -> list BrokerCall -> Thrown + A) : M World A :=
  fun w =>
    (match answer (remote w) (brokerLog w) with
     | inl e => Throw e
     | inr a => Ok a
     end, log_call c w).

(** ** [composio/client.ts] *)

Definition resolveApiKey (config : option ComposioConfig) (w : World)
    : option string :=
  or_undefined
    (or_else (trim <$> (config ≫= apiKey)) (trim <$> env_COMPOSIO_API_KEY w)).

Definition resolveBaseUrl (config : option ComposioConfig) (w : World)
    : option string :=
  or_undefined
    (or_else (trim <$> (config ≫= baseUrl)) (trim <$> env_COMPOSIO_BASE_URL w)).

(** [new Composio({ apiKey, baseUrl })] followed by the three
    assignments. *)
Definition construct (key : string) (url : option string) (w : World)
    : Client * World :=
  let client :=
    {| serial := constructed w; clientApiKey := key; clientBaseUrl := url |} in
  (client, set_cache (Some client) (Some key) url (S (constructed w)) w).

Definition getComposioClient (config : option ComposioConfig) (w : World)
    : option Client * World :=
  match resolveApiKey config w with
  | None => (None, w)
  | Some key =>
      if negb (truthy key) then (None, w)
      else
        let url := resolveBaseUrl config w in
        match cachedClient w with
        | Some c =>
            if bool_decide (cachedApiKey w = Some key)
               && bool_decide (cachedBaseUrl w = url)
            then (Some c, w)
            else let (c', w') := construct key url w in (Some c', w')
        | None => let (c', w') := construct key url w in (Some c', w')
        end
  end.

Definition clearComposioClient (w : World) : World :=
  set_cache None None None (constructed w) w.

(** The clients handed out so far all have serials below the counter. *)
Definition serials_below (w : World) : Prop :=
  forall c, cachedClient w = Some c -> (serial c < constructed w)%nat.

(** ** [composio/connected-accounts.ts] *)

Definition toStr (value : Value) (fallback : string) : string :=
  match value with
  | VString s => s
  | VNumber r => r
  | VBool true => "true"
  | VBool false => "false"
  | _ => fallback
  end.

(** [toStr(rec.appName) || toStr(rec.app)]. *)
Definition appName_of (r : Rec) : string :=
  let a := toStr (prop r "appName") EmptyString in
  if truthy a then a else toStr (prop r "app") EmptyString.

Definition listConnectedAccounts (client : Client) (entityId : string)
    : M World (list ComposioConnectedAccount) :=
  try_catch
    (let* connections :=
       call (CallGetConnections entityId)
            (fun b h => getConnections b client h entityId) in
     ret (map (fun r : Rec =>
                 {| id := toStr (prop r "id") EmptyString;
                    appName := appName_of r;
                    status := toStr (prop r "status") "ACTIVE";
                    createdAt := toStr (prop r "createdAt") EmptyString;
                    updatedAt := toStr (prop r "updatedAt") EmptyString |})
              connections))
    (fun err => throw err).

Definition initiateConnection (client : Client) (params : InitiateRequest)
    : M World ComposioInitiateConnectionResult :=
  try_catch
    (let req :=
       {| reqEntityId := reqEntityId params;
          reqAppName := toUpperCase (reqAppName params);
          reqRedirectUri := reqRedirectUri params |} in
     let* connectionRequest :=
       call (CallInitiate req) (fun b h => initiate b client h req) in
     ret {| connectedAccountId := crConnectedAccountId connectionRequest;
            redirectUrl := default EmptyString (crRedirectUrl connectionRequest) |})
    (fun err => throw err).

Definition getConnectionStatus (client : Client) (accountId : string)
    : M World ComposioConnectedAccount :=
  try_catch
    (let* raw :=
       call (CallGet accountId) (fun b h => get b client h accountId) in
     ret {| id := toStr (prop raw "id") accountId;
            appName := appName_of raw;
            status := toStr (prop raw "status") "INITIATED";
            createdAt := toStr (prop raw "createdAt") EmptyString;
            updatedAt := toStr (prop raw "updatedAt") EmptyString |})
    (fun err => throw err).

Definition deleteConnection (client : Client) (accountId : string)
    : M World unit :=
  try_catch
    (call (CallDelete accountId) (fun b h => delete b client h accountId))
    (fun err => throw err).

Definition executeAction (client : Client) (entityId : string)
    (req : ExecuteRequest) : M World Value :=
  try_catch
    (let* result :=
       call (CallExecute entityId req)
            (fun b h => entityExecute b client h entityId req) in
     ret (match result with
          | VUndefined | VNull => VObject []
          | v => v
          end))
    (fun err => throw err).

(** ** [agents/tools/composio-tool.ts] *)

(** The parameter readers of [agents/tools/common] are not part of the
    sources at hand, so the tool is stated over any readers of the declared
    shapes: [readStringParam] is the overload returning
    [string | undefined], [readStringParam_required] the overload taking
    [{ required: true }], which returns a [string] or throws, and
    [readStringArrayParam] is the call with [{ required: false }]. *)
Class ParamReaders : Type := {
  readStringParam : Rec -> string -> option string;
  readStringParam_required : Rec -> string -> Thrown + string;
  readStringArrayParam : Rec -> string -> option (list string)
}.

(** Modelled from the spec: the readers of [agents/tools/common], which are
    missing.  A string parameter is the string property of that name,
    an array parameter the string items of the array property of that name,
    and a required parameter that is absent is an error. *)
Definition plainString (params : Rec) (key : string) : option string :=
  match prop params key with VString s => Some s | _ => None end.

Definition plainStrings (params : Rec) (key : string) : option (list string) :=
  match prop params key with
  | VArray items =>
      Some (omap (fun v => match v with VString s => Some s | _ => None end) items)
  | _ => None
  end.

Definition plainReaders : ParamReaders := {|
  readStringParam := plainString;
  readStringParam_required := fun params key =>
    match plainString params key with
    | Some s => inr s
    | None => inl (ErrorObj (key +:+ " required"))
    end;
  readStringArrayParam := plainStrings
|}.

Record ComposioToolOptions : Type := {
  composioConfig : option ComposioConfig;
  (** The resolver is called at most once per execution; it is carried as
      the value it returns. *)
  resolveEntityId : option (option string);
  agentSessionKey : option string
}.

(** One entry of the [connections] array of [connect_multiple]; [None] is
    [null]. *)
Record ConnectItem : Type := {
  itemAppName : string;
  itemConnectedAccountId : option string;
  itemRedirectUrl : option string;
  itemAuthUrl : option string;
  itemError : option string
}.

(** The object handed to [jsonResult], one constructor per object literal
    of [execute]. *)
Inductive Payload : Type :=
| PNoConnections (message : string)
| PConnections (connections : list ComposioConnectedAccount) (entityId : string)
| PConnect (result : ComposioInitiateConnectionResult)
           (message authUrl appName : string)
| PConnectMultiple (connections : list ConnectItem) (message : string)
| PStatus (account : ComposioConnectedAccount)
| PDisconnect (connectedAccountId : string) (message : string)
| PExecute (result : Value).

Definition lift {W A} (r : Thrown + A) : M W A :=
  match r with inl e => throw e | inr a => ret a end.

Definition itemSuccess (name : string) (result : ComposioInitiateConnectionResult)
    : ConnectItem :=
  {| itemAppName := toUpperCase name;
     itemConnectedAccountId := Some (connectedAccountId result);
     itemRedirectUrl := Some (redirectUrl result);
     itemAuthUrl := Some (redirectUrl result);
     itemError := None |}.

Definition itemFailure (name : string) (err : Thrown) : ConnectItem :=
  {| itemAppName := toUpperCase name;
     itemConnectedAccountId := None;
     itemRedirectUrl := None;
     itemAuthUrl := None;
     itemError := Some (String_of_thrown err) |}.

(** The cap of the batch: [config?.maxAccountsPerUser ?? 20]. *)
Definition capOf (config : option ComposioConfig) : Z :=
  default 20 (config ≫= maxAccountsPerUser).

Definition batchMessage : string :=
  "Send the following auth links to the user. They should click each one to authorize the service:".

(** The [appNames] constant of the [connect_multiple] case. *)
Definition resolveAppNames `{ParamReaders} (params : Rec) : option (list string) :=
  match readStringArrayParam params "appNames" with
  | Some names => Some names
  | None =>
      if truthy_opt (readStringParam params "appName")
      then (fun name => [name]) <$> readStringParam params "appName"
      else None
  end.

(** The callback mapped over [appNames]. *)
Definition connectOne `{ParamReaders} (client : Client) (entityId : string)
    (params : Rec) (name : string) : M World ConnectItem :=
  try_catch
    (let* result :=
       initiateConnection client
         {| reqEntityId := entityId;
            reqAppName := name;
            reqRedirectUri := readStringParam params "redirectUri" |} in
     ret (itemSuccess name result))
    (fun err => ret (itemFailure name err)).

Definition connectMultiple `{ParamReaders} (config : option ComposioConfig)
    (client : Client) (entityId : string) (params : Rec) : M World Payload :=
  match resolveAppNames params with
  | None | Some [] => throw (ErrorObj "appNames required for connect_multiple")
  | Some appNames =>
      let maxAccounts := capOf config in
      if Z.of_nat (length appNames) >? maxAccounts
      then throw (ErrorObj ("Cannot connect more than " +:+ pretty maxAccounts
                            +:+ " services at once"))
      else
        let* results :=
          promise_all (map (connectOne client entityId params) appNames) in
        ret (PConnectMultiple results batchMessage)
  end.

(** [readStringParam(params, "entityId") ?? opts?.resolveEntityId?.() ?? "default"]. *)
Definition entityIdOf `{ParamReaders} (opts : option ComposioToolOptions)
    (params : Rec) : string :=
  match readStringParam params "entityId" with
  | Some e => e
  | None => default "default" (mjoin (opts ≫= resolveEntityId))
  end.

Definition execute `{ParamReaders} (opts : option ComposioToolOptions)
    (params : Rec) : M World Payload :=
  let config := opts ≫= composioConfig in
  let* action := lift (readStringParam_required params "action") in
  let* client := total (getComposioClient config) in
  match client with
  | None =>
      throw (ErrorObj
        "Composio is not configured. Set COMPOSIO_API_KEY or configure composio.apiKey.")
  | Some client =>
      let entityId := entityIdOf opts params in
      if String.eqb action "list_connections" then
        let* connections := listConnectedAccounts client entityId in
        match connections with
        | [] =>
            ret (PNoConnections
              "No services connected yet. Use the connect action to link services like Gmail, Outlook, Google Calendar, etc.")
        | _ => ret (PConnections connections entityId)
        end
      else if String.eqb action "connect" then
        let* appName := lift (readStringParam_required params "appName") in
        let redirectUri := readStringParam params "redirectUri" in
        let* result :=
          initiateConnection client
            {| reqEntityId := entityId;
               reqAppName := appName;
               reqRedirectUri := redirectUri |} in
        ret (PConnect result
               ("Send the following link to the user to authorize " +:+ appName +:+ ":")
               (redirectUrl result)
               appName)
      else if String.eqb action "connect_multiple" then
        connectMultiple config client entityId params
      else if String.eqb action "status" then
        let* accountId := lift (readStringParam_required params "connectedAccountId") in
        let* status := getConnectionStatus client accountId in
        ret (PStatus status)
      else if String.eqb action "disconnect" then
        let* accountId := lift (readStringParam_required params "connectedAccountId") in
        deleteConnection client accountId ;;
        ret (PDisconnect accountId "Service disconnected successfully.")
      else if String.eqb action "execute" then
        let* actionName := lift (readStringParam_required params "actionName") in
        let actionParams :=
          match prop params "params" with
          | VUndefined | VNull => VObject []
          | v => v
          end in
        let accountId := readStringParam params "connectedAccountId" in
        let* result :=
          executeAction client entityId
            {| exActionName := toUpperCase actionName;
               exParams := actionParams;
               exConnectedAccountId := accountId |} in
        ret (PExecute result)
      else throw (ErrorObj ("Unknown composio action: " +:+ action))
  end.

(** ** The batch, item by item *)

(** The request the callback submits for [name]. *)
Definition requestFor `{ParamReaders} (entityId : string) (params : Rec)
    (name : string) : InitiateRequest :=
  {| reqEntityId := entityId;
     reqAppName := toUpperCase name;
     reqRedirectUri := readStringParam params "redirectUri" |}.

(** The broker's answers to requests issued one after the other, starting
    from the log [history]. *)
Fixpoint replies (b : Broker) (client : Client) (history : list BrokerCall)
    (reqs : list InitiateRequest) : list (Thrown + ConnectionRequest) :=
  match reqs with
  | [] => []
  | r :: rest =>
      initiate b client history r
      :: replies b client (history ++ [CallInitiate r]) rest
  end.

(** The entry an answer is mapped to. *)
Definition itemOf (name : string) (reply : Thrown + ConnectionRequest) : ConnectItem :=
  match reply with
  | inr cr =>
      itemSuccess name
        {| connectedAccountId := crConnectedAccountId cr;
           redirectUrl := default EmptyString (crRedirectUrl cr) |}
  | inl e => itemFailure name e
  end.

Definition rejected {A} (reply : Thrown + A) : Prop :=
  match reply with inl _ => True | inr _ => False end.

(** The two shapes of an entry. *)
Definition successShape (item : ConnectItem) : Prop :=
  is_Some (itemConnectedAccountId item) /\ is_Some (itemRedirectUrl item)
  /\ itemError item = None.

Definition failureShape (item : ConnectItem) : Prop :=
  itemConnectedAccountId item = None /\ itemRedirectUrl item = None
  /\ is_Some (itemError item).


(** The tool object; its static [description] and [parameters] fields play
    no part in execution and are left out. *)
Record AgentTool : Type := {
  label : string;
  name : string;
  run : Rec -> M World Payload
}.

Definition createComposioTool `{ParamReaders} (opts : option ComposioToolOptions)
    (w : World) : option AgentTool :=
  let config := opts ≫= composioConfig in
  if negb (default false (config ≫= enabled))
     && negb (truthy_opt (env_COMPOSIO_API_KEY w))
  then None
  else Some {| label := "Composio"; name := "composio"; run := execute opts |}.

End Composio.

(* ===================================================================== *)
(** * The recipe catalogue *)
(* ===================================================================== *)

Module Recipes.

Import Js.

Record Recipe : Type := {
  id : string;
  label : string;
  description : string;
  emoji : string;
  soul : string;
  agents : string;
  tools : option string
}.

Definition daily_assistant : Recipe := {|
  id := "daily-assistant";
  label := "Daily Assistant";
  description := "A helpful everyday companion for tasks, reminders, and Q&A.";
  emoji := "🌟";
  soul := "# SOUL.md - Daily Assistant

You're a dependable personal assistant.  Be concise, proactive, and genuinely helpful.
Skip filler phrases — just help.  If you can figure something out on your own, do it
before asking.  Prioritise clarity and action over verbosity.

## Personality
- Warm but efficient
- Opinionated when it helps (suggest, don't just list)
- Respects the user's time above all
";
  agents := "# AGENTS.md - Daily Assistant

## Every Session
1. Read SOUL.md — your personality
2. Read USER.md — who you're helping
3. Check memory files for recent context

## What You Do
- Answer questions clearly and concisely
- Help with everyday tasks, planning, and organisation
- Set reminders and follow up proactively
- Summarise long content when asked

## Guidelines
- Be direct. No preamble.
- If unsure, say so — don't make things up.
- Write things down so future-you remembers.
";
  tools := None
|}.

Definition creative_partner : Recipe := {|
  id := "creative-partner";
  label := "Creative Partner";
  description := "Brainstorm ideas, write content, and explore creative projects.";
  emoji := "🎨";
  soul := "# SOUL.md - Creative Partner

You're a creative collaborator — part muse, part editor, part hype-person.
You help the user think bigger, write better, and explore ideas fearlessly.
Push back when something could be stronger.  Celebrate when it clicks.

## Personality
- Playful and imaginative
- Honest about what works and what doesn't
- Loves riffing on half-formed ideas
";
  agents := "# AGENTS.md - Creative Partner

## Every Session
1. Read SOUL.md — your creative voice
2. Read USER.md — who you're collaborating with
3. Check memory for ongoing projects

## What You Do
- Brainstorm and develop ideas
- Write, edit, and refine content (copy, stories, scripts, posts)
- Provide honest creative feedback
- Help overcome blocks — suggest angles, prompts, constraints

## Guidelines
- First drafts are for exploration, not perfection.
- When giving feedback, be specific — " +:+ dq +:+ "this part drags" +:+ dq +:+ " beats " +:+ dq +:+ "needs work." +:+ dq +:+ "
- Keep a running list of ideas in memory files.
";
  tools := None
|}.

Definition research_analyst : Recipe := {|
  id := "research-analyst";
  label := "Research Analyst";
  description := "Deep-dive into topics, summarise findings, and track information.";
  emoji := "🔍";
  soul := "# SOUL.md - Research Analyst

You're a thorough, detail-oriented researcher.  You dig deep, cross-reference,
and present findings clearly.  You distinguish fact from speculation and always
cite your reasoning.  Accuracy matters more than speed.

## Personality
- Methodical and precise
- Comfortable saying " +:+ dq +:+ "I don't know yet — let me look" +:+ dq +:+ "
- Presents balanced perspectives, then gives a recommendation
";
  agents := "# AGENTS.md - Research Analyst

## Every Session
1. Read SOUL.md — your analytical lens
2. Read USER.md — their interests and context
3. Check memory for ongoing research threads

## What You Do
- Research topics in depth
- Summarise findings with key takeaways
- Track evolving information across sessions
- Compare options and make recommendations

## Guidelines
- Separate facts from opinions explicitly.
- When you find conflicting information, present both sides.
- Keep research notes in memory files for continuity.
";
  tools := None
|}.

Definition learning_coach : Recipe := {|
  id := "learning-coach";
  label := "Learning Coach";
  description := "Help learn new skills, explain concepts, and track progress.";
  emoji := "📚";
  soul := "# SOUL.md - Learning Coach

You're a patient, encouraging teacher who adapts to the user's level.
You explain things simply without being condescending.  You use analogies,
examples, and Socratic questioning to help concepts stick.
You celebrate progress and normalise struggle.

## Personality
- Patient and encouraging
- Explains simply, but doesn't dumb down
- Asks questions to check understanding
- Makes learning feel like a conversation, not a lecture
";
  agents := "# AGENTS.md - Learning Coach

## Every Session
1. Read SOUL.md — your teaching style
2. Read USER.md — their goals and current level
3. Check memory for learning progress

## What You Do
- Explain concepts at the right level
- Create practice exercises and challenges
- Track what the user has learned across sessions
- Recommend next steps and resources

## Guidelines
- Start from what they know, build to what they don't.
- Use concrete examples before abstract explanations.
- When they're stuck, guide — don't just give the answer.
- Log progress in memory so you can build on it next time.
";
  tools := None
|}.

Definition RECIPES : list Recipe :=
  [daily_assistant; creative_partner; research_analyst; learning_coach].

(** [new Map(RECIPES.map((r) => [r.id, r]))]: the entries are set one after
    the other, a later entry replacing an earlier one of the same key. *)
Definition recipeById : gmap string Recipe :=
  fold_left (fun (m : gmap string Recipe) (r : Recipe) => <[id r := r]> m)
            RECIPES ∅.

Definition listRecipes : list Recipe := RECIPES.

(** [recipeById.get(id)]; [None] is [undefined]. *)
Definition getRecipe (key : string) : option Recipe := recipeById !! key.

Definition listRecipeIds : list string := map id RECIPES.

End Recipes.

(* ===================================================================== *)
(** * Provisioning: the onboarding request handlers *)
(* ===================================================================== *)

Module Onboard.

Import Js Exc.

(** ** The configuration document *)

(** One entry of [agents.list]. *)
Record AgentEntry : Type := {
  entryId : string;
  entryName : option string;
  entryWorkspace : option string;
  entryAgentDir : option string
}.

(** The parts of the configuration document the handler reads or writes
    itself ([agents.defaults.workspace], [composio]) and those its
    collaborators maintain ([agents.list], the default model). *)
Record OpenClawConfig : Type := {
  agentsDefaultsWorkspace : option string;
  agentsDefaultsModel : option string;
  agentsList : option (list AgentEntry);
  composio : option Composio.ComposioConfig
}.

(** The second argument of [applyAgentConfig]. *)
Record AgentConfigParams : Type := {
  agentId : string;
  name : option string;
  workspace : option string;
  agentDir : option string
}.

(** [{ ...nextConfig, composio: { ...nextConfig.composio, enabled: true } }]. *)
Definition enableComposio (cfg : OpenClawConfig) : OpenClawConfig :=
  {| agentsDefaultsWorkspace := agentsDefaultsWorkspace cfg;
     agentsDefaultsModel := agentsDefaultsModel cfg;
     agentsList := agentsList cfg;
     composio :=
       Some {| Composio.enabled := Some true;
               Composio.apiKey := composio cfg ≫= Composio.apiKey;
               Composio.baseUrl := composio cfg ≫= Composio.baseUrl;
               Composio.defaultToolkits := composio cfg ≫= Composio.defaultToolkits;
               Composio.maxAccountsPerUser :=
                 composio cfg ≫= Composio.maxAccountsPerUser |} |}.

(** ** The collaborators outside these sources *)

(** The handler imports these from modules that are not part of the sources
    at hand ([routing/session-key], [commands/agents.config],
    [commands/onboard-auth.config-minimax], [agents/agent-scope],
    [agents/workspace], [config/sessions/paths], [utils], [node:path],
    [gateway/protocol]).  The handler is stated over any of them. *)
Class Platform : Type := {
  DEFAULT_AGENT_ID : string;
  normalizeAgentId : string -> string;
  formatValidationErrors : Rec -> string;
  listAgentEntries : OpenClawConfig -> list AgentEntry;
  findAgentEntryIndex : list AgentEntry -> string -> Z;
  applyAgentConfig : OpenClawConfig -> AgentConfigParams -> OpenClawConfig;
  applyMinimaxApiConfig : OpenClawConfig -> OpenClawConfig;
  resolveAgentDir : OpenClawConfig -> string -> string;
  resolveUserPath : string -> string;
  resolveSessionTranscriptsDirForAgent : string -> string;
  path_join : string -> string -> string;
  DEFAULT_AGENTS_FILENAME : string;
  DEFAULT_IDENTITY_FILENAME : string;
  DEFAULT_SOUL_FILENAME : string;
  DEFAULT_TOOLS_FILENAME : string;
  DEFAULT_USER_FILENAME : string
}.

(** What the handler relies on from the registry helpers: an agent that
    [applyAgentConfig] was applied for is found afterwards, the model
    configuration does not touch the registry, and the registry is read from
    [agents.list] alone. *)
Class PlatformLaws (P : Platform) : Prop := {
  applied_is_found : forall cfg p,
    0 <= findAgentEntryIndex (listAgentEntries (applyAgentConfig cfg p)) (agentId p);
  minimax_keeps_entries : forall cfg,
    listAgentEntries (applyMinimaxApiConfig cfg) = listAgentEntries cfg;
  entries_from_list : forall cfg cfg',
    agentsList cfg = agentsList cfg' -> listAgentEntries cfg = listAgentEntries cfg'
}.

(** ** The file system and the persisted configuration *)

Inductive FsOp : Type :=
| OpMkdir (path : string)
| OpWriteFile (path : string)
| OpWriteConfig.

(** The operations performed, as they are performed. *)
Inductive Effect : Type :=
| Mkdir (path : string)
| WriteConfig (cfg : OpenClawConfig)
| WriteFile (path content : string).

(** The machine: directories, files, the persisted configuration, the
    operations performed so far (oldest first) and, for every operation, the
    error it fails with on this machine, if any (permissions, a full disk,
    a file in the place of a directory). *)
Record World : Type := {
  dirs : gset string;
  files : gmap string string;
  configFile : OpenClawConfig;
  effects : list Effect;
  faults : FsOp -> option Thrown
}.

Definition perform (e : Effect) (d : gset string) (f : gmap string string)
    (c : OpenClawConfig) (w : World) : World :=
  {| dirs := d; files := f; configFile := c;
     effects := effects w ++ [e]; faults := faults w |}.

(** The directories above [path], outermost first: the prefixes of [path]
    that end before a ["/"].  The empty prefix (the root of an absolute
    path, the working directory of a relative one) is left out: it always
    exists.  Paths are taken as the code writes them; two spellings of one
    directory are not identified. *)
Fixpoint ancestors_from (prefix path : string) : list string :=
  match path with
  | EmptyString => []
  | String c rest =>
      (if Ascii.eqb c "/"%char && truthy prefix then [prefix] else [])
      ++ ancestors_from (prefix +:+ String c EmptyString) rest
  end.

Definition ancestors (path : string) : list string :=
  ancestors_from EmptyString path.

(** The directory right above [path] is there (or [path] has none above). *)
Definition parent_exists (path : string) (d : gset string) : bool :=
  match last (ancestors path) with
  | Some parent => bool_decide (parent ∈ d)
  | None => true
  end.

(** A set of directories as a file system holds it: with a directory, the
    directories above it. *)
Definition upward_closed (d : gset string) : Prop :=
  set_Forall (fun p => Forall (fun a => a ∈ d) (ancestors p)) d.

(** [fs.mkdir(path, { recursive })].  With [recursive] the directories
    above [path] that are missing are created with it, and an existing
    directory is not an error; without it an existing directory is
    [EEXIST] and a missing parent [ENOENT]. *)
Definition mkdir (path : string) (recursive : bool) : M World unit :=
  fun w =>
    match faults w (OpMkdir path) with
    | Some e => (Throw e, w)
    | None =>
        if recursive
        then (Ok tt, perform (Mkdir path)
                             ({[path]} ∪ list_to_set (ancestors path) ∪ dirs w)
                             (files w) (configFile w) w)
        else if bool_decide (path ∈ dirs w)
        then (Throw (ErrorObj ("EEXIST: file already exists, mkdir '" +:+ path +:+ "'")), w)
        else if parent_exists path (dirs w)
        then (Ok tt, perform (Mkdir path) ({[path]} ∪ dirs w) (files w) (configFile w) w)
        else (Throw (ErrorObj ("ENOENT: no such file or directory, mkdir '"
                               +:+ path +:+ "'")), w)
    end.

(** [fs.writeFile(path, content, "utf-8")]. *)
Definition writeFile (path content : string) : M World unit :=
  fun w =>
    match faults w (OpWriteFile path) with
    | Some e => (Throw e, w)
    | None =>
        (Ok tt, perform (WriteFile path content) (dirs w)
                        (<[path := content]> (files w)) (configFile w) w)
    end.

(** Modelled from the spec: [ensureAgentWorkspace] of [agents/workspace],
    which is missing.  Called with [ensureBootstrapFiles: false] it creates
    the workspace directory, with idempotent semantics. *)
Definition ensureAgentWorkspace (dir : string) : M World unit := mkdir dir true.

(** Modelled from the spec: [loadConfig] and [writeConfigFile] of
    [config/config], which are missing: the current persisted configuration
    is loaded, and the configuration document is persisted to durable
    storage. *)
Definition loadConfig : M World OpenClawConfig := gets configFile.

Definition writeConfigFile (cfg : OpenClawConfig) : M World unit :=
  fun w =>
    match faults w OpWriteConfig with
    | Some e => (Throw e, w)
    | None => (Ok tt, perform (WriteConfig cfg) (dirs w) (files w) cfg w)
    end.

(** ** Requests and responses *)

(** [String(v)]. *)
Fixpoint String_ (v : Value) : string :=
  match v with
  | VUndefined => "undefined"
  | VNull => "null"
  | VBool true => "true"
  | VBool false => "false"
  | VNumber r => r
  | VString s => s
  | VArray items =>
      (fix join (l : list Value) : string :=
         match l with
         | [] => EmptyString
         | x :: rest =>
             let sx := match x with
                       | VUndefined | VNull => EmptyString
                       | _ => String_ x
                       end in
             match rest with
             | [] => sx
             | _ => sx +:+ "," +:+ join rest
             end
         end) items
  | VObject _ => "[object Object]"
  end.

(** Modelled from the spec: [NonEmptyString] of [protocol/schema/primitives],
    which is missing: a string that is not empty. *)
Definition NonEmptyString (v : Value) : bool :=
  match v with VString s => truthy s | _ => false end.

(** [Type.Optional(Type.String())]: the property may be missing, and the
    compiled check looks at its value only when that is not [undefined]. *)
Definition OptionalString (v : option Value) : bool :=
  match v with None | Some VUndefined | Some (VString _) => true | _ => false end.

(** [OnboardSimpleParamsSchema], as a check of the request object; the
    compiled validator [validateOnboardSimpleParams] accepts what the schema
    accepts. *)
Definition validateOnboardSimpleParams (params : Rec) : bool :=
  NonEmptyString (prop params "userName")
  && NonEmptyString (prop params "botName")
  && NonEmptyString (prop params "recipeId")
  && OptionalString (params !! "entityId")
  && bool_decide (dom params ⊆
       ({["userName"; "botName"; "recipeId"; "entityId"]} : gset string)).

(** [OnboardRecipesParamsSchema]: an object without properties. *)
Definition validateOnboardRecipesParams (params : Rec) : bool :=
  bool_decide (dom params ⊆ (∅ : gset string)).

Inductive ErrorCode : Type := INVALID_REQUEST | UNAVAILABLE.

Record RecipeSummary : Type := {
  sumId : string;
  sumLabel : string;
  sumDescription : string;
  sumEmoji : string
}.

Record SimpleResult : Type := {
  resAgentId : string;
  resWorkspace : string;
  resRecipeId : string;
  resModel : string
}.

(** What [respond] is called with: [respond(true, payload, undefined)] or
    [respond(false, undefined, errorShape(code, message))]. *)
Inductive Response : Type :=
| RecipesOk (recipes : list RecipeSummary)
| SimpleOk (result : SimpleResult)
| Failure (code : ErrorCode) (message : string).

(** ** [gateway/server-methods/onboard-simple.ts] *)

Definition SIMPLE_ONBOARD_MODEL : string := "minimax/MiniMax-M2.5".

Definition sanitizeLine (value : string) : string :=
  trim (collapse_ws false value).

(** [lines.join("\n")]. *)
Fixpoint join_nl (lines : list string) : string :=
  match lines with
  | [] => EmptyString
  | [l] => l
  | l :: rest => l +:+ nl +:+ join_nl rest
  end.

Definition onboard_recipes `{Platform} (params : Rec) : M World Response :=
  if negb (validateOnboardRecipesParams params)
  then ret (Failure INVALID_REQUEST
              ("invalid onboard.recipes params: " +:+ formatValidationErrors params))
  else
    ret (RecipesOk
           (map (fun r => {| sumId := Recipes.id r;
                             sumLabel := Recipes.label r;
                             sumDescription := Recipes.description r;
                             sumEmoji := Recipes.emoji r |})
                Recipes.listRecipes)).

Definition identityFile (botName : string) (recipe : Recipes.Recipe) : string :=
  join_nl [ "# " +:+ botName;
            EmptyString;
            "- Name: " +:+ botName;
            "- Emoji: " +:+ Recipes.emoji recipe;
            "- Creature: AI assistant";
            EmptyString ].

Definition userFile (userName : string) : string :=
  join_nl [ "# USER.md - Who You're Helping";
            EmptyString;
            "- Name: " +:+ userName;
            EmptyString;
            "_Update this file as you learn more about your user._";
            EmptyString ].

(** The configuration the handler computes from the loaded one. *)
Definition buildConfig `{Platform} (cfg : OpenClawConfig)
    (agent botName workspaceDir : string) (entityId : option string)
    : OpenClawConfig :=
  let nextConfig :=
    applyAgentConfig cfg
      {| agentId := agent; name := Some botName;
         workspace := Some workspaceDir; agentDir := None |} in
  let dir := resolveAgentDir nextConfig agent in
  let nextConfig :=
    applyAgentConfig nextConfig
      {| agentId := agent; name := None; workspace := None;
         agentDir := Some dir |} in
  let nextConfig := applyMinimaxApiConfig nextConfig in
  if truthy_opt entityId then enableComposio nextConfig else nextConfig.

(** The workspace files, in the order they are written. *)
Definition writeWorkspaceFiles `{Platform} (workspaceDir botName userName : string)
    (recipe : Recipes.Recipe) : M World unit :=
  let write (file content : string) := writeFile (path_join workspaceDir file) content in
  write DEFAULT_IDENTITY_FILENAME (identityFile botName recipe) ;;
  write DEFAULT_USER_FILENAME (userFile userName) ;;
  write DEFAULT_SOUL_FILENAME (Recipes.soul recipe) ;;
  write DEFAULT_AGENTS_FILENAME (Recipes.agents recipe) ;;
  match Recipes.tools recipe with
  | Some t => if truthy t then write DEFAULT_TOOLS_FILENAME t else ret tt
  | None => ret tt
  end.

Definition workspaceDirOf `{Platform} (cfg : OpenClawConfig) (agent : string) : string :=
  resolveUserPath
    (path_join (default "~/.openclaw/workspace" (agentsDefaultsWorkspace cfg)) agent).

Definition onboard_simple `{Platform} (params : Rec) : M World Response :=
  if negb (validateOnboardSimpleParams params)
  then ret (Failure INVALID_REQUEST
              ("invalid onboard.simple params: " +:+ formatValidationErrors params))
  else
    let botName := sanitizeLine (String_ (prop params "botName")) in
    let userName := sanitizeLine (String_ (prop params "userName")) in
    let recipeId := trim (String_ (prop params "recipeId")) in
    let entityId :=
      match prop params "entityId" with
      | VString s => Some (trim s)
      | _ => None
      end in
    match Recipes.getRecipe recipeId with
    | None =>
        ret (Failure INVALID_REQUEST ("unknown recipe: " +:+ dq +:+ recipeId +:+ dq))
    | Some recipe =>
        let agent := normalizeAgentId botName in
        if String.eqb agent DEFAULT_AGENT_ID
        then ret (Failure INVALID_REQUEST (dq +:+ DEFAULT_AGENT_ID +:+ dq +:+ " is reserved"))
        else
          let* cfg := loadConfig in
          if 0 <=? findAgentEntryIndex (listAgentEntries cfg) agent
          then ret (Failure INVALID_REQUEST
                      ("agent " +:+ dq +:+ agent +:+ dq +:+ " already exists"))
          else
            let workspaceDir := workspaceDirOf cfg agent in
            let nextConfig := buildConfig cfg agent botName workspaceDir entityId in
            ensureAgentWorkspace workspaceDir ;;
            mkdir (resolveSessionTranscriptsDirForAgent agent) true ;;
            writeConfigFile nextConfig ;;
            writeWorkspaceFiles workspaceDir botName userName recipe ;;
            ret (SimpleOk {| resAgentId := agent;
                             resWorkspace := workspaceDir;
                             resRecipeId := Recipes.id recipe;
                             resModel := SIMPLE_ONBOARD_MODEL |})
    end.

(** ** The constants of one [onboard.simple] execution *)

Definition botNameOf (params : Rec) : string :=
  sanitizeLine (String_ (prop params "botName")).

Definition userNameOf (params : Rec) : string :=
  sanitizeLine (String_ (prop params "userName")).

Definition recipeIdOf (params : Rec) : string :=
  trim (String_ (prop params "recipeId")).

Definition entityIdOf (params : Rec) : option string :=
  match prop params "entityId" with
  | VString s => Some (trim s)
  | _ => None
  end.

Definition agentOf `{Platform} (params : Rec) : string :=
  normalizeAgentId (botNameOf params).

(** The files of a workspace, in the order they are written. *)
Definition workspaceFileList `{Platform} (botName userName : string)
    (recipe : Recipes.Recipe) : list (string * string) :=
  [ (DEFAULT_IDENTITY_FILENAME, identityFile botName recipe);
    (DEFAULT_USER_FILENAME, userFile userName);
    (DEFAULT_SOUL_FILENAME, Recipes.soul recipe);
    (DEFAULT_AGENTS_FILENAME, Recipes.agents recipe) ]
  ++ (if truthy_opt (Recipes.tools recipe)
      then [ (DEFAULT_TOOLS_FILENAME, default EmptyString (Recipes.tools recipe)) ]
      else []).

(** The operations of one successful execution. *)
Definition provisioningEffects `{Platform} (cfg : OpenClawConfig) (params : Rec)
    (recipe : Recipes.Recipe) : list Effect :=
  let agent := agentOf params in
  let workspaceDir := workspaceDirOf cfg agent in
  [ Mkdir workspaceDir;
    Mkdir (resolveSessionTranscriptsDirForAgent agent);
    WriteConfig (buildConfig cfg agent (botNameOf params) workspaceDir (entityIdOf params)) ]
  ++ map (fun f => WriteFile (path_join workspaceDir f.1) f.2)
         (workspaceFileList (botNameOf params) (userNameOf params) recipe).

(** The rest of the handler once the four checks have passed: the
    operations on the machine, then the response. *)
Definition provision `{Platform} (cfg : OpenClawConfig) (params : Rec) (recipe : Recipes.Recipe)
    : M World Response :=
  let agent := agentOf params in
  let workspaceDir := workspaceDirOf cfg agent in
  ensureAgentWorkspace workspaceDir ;;
  mkdir (resolveSessionTranscriptsDirForAgent agent) true ;;
  writeConfigFile
    (buildConfig cfg agent (botNameOf params) workspaceDir (entityIdOf params)) ;;
  writeWorkspaceFiles workspaceDir (botNameOf params) (userNameOf params) recipe ;;
  ret (SimpleOk {| resAgentId := agent;
                   resWorkspace := workspaceDir;
                   resRecipeId := Recipes.id recipe;
                   resModel := SIMPLE_ONBOARD_MODEL |}).

Definition isMkdir (e : Effect) : Prop :=
  match e with Mkdir _ => True | _ => False end.

Definition isWriteConfig (e : Effect) : Prop :=
  match e with WriteConfig _ => True | _ => False end.

Definition isWriteFile (e : Effect) : Prop :=
  match e with WriteFile _ _ => True | _ => False end.

(** Every [P] operation of the trace comes strictly before every [Q]
    operation. *)
Definition strictly_before (P Q : Effect -> Prop) (trace : list Effect) : Prop :=
  forall i j a b,
    trace !! i = Some a -> trace !! j = Some b -> P a -> Q b -> (i < j)%nat.

End Onboard.

(* ===================================================================== *)
(** * Sample collaborators and machines *)
(* ===================================================================== *)

Module Sample.

Import Js Exc.

(** A broker that refuses SLACK and grants every other application, reports
    every account as expired, and has nothing else to offer. *)
Definition broker : Composio.Broker := {|
  Composio.initiate := fun _ _ req =>
    if String.eqb (Composio.reqAppName req) "SLACK"
    then inl (ErrorObj "app not enabled")
    else inr {| Composio.crConnectedAccountId := "acc-" +:+ Composio.reqAppName req;
                Composio.crRedirectUrl := Some ("https://auth.example/" +:+ Composio.reqAppName req) |};
  Composio.get := fun _ _ accountId =>
    inr (<["id" := VString accountId]> (<["status" := VString "EXPIRED"]> ∅));
  Composio.delete := fun _ _ _ => inr tt;
  Composio.getConnections := fun _ _ _ => inr [];
  Composio.entityExecute := fun _ _ _ _ => inr VUndefined
|}.

(** A fresh process with [COMPOSIO_API_KEY] set. *)
Definition process : Composio.World := {|
  Composio.env_COMPOSIO_API_KEY := Some "key-1";
  Composio.env_COMPOSIO_BASE_URL := None;
  Composio.cachedClient := None;
  Composio.cachedApiKey := None;
  Composio.cachedBaseUrl := None;
  Composio.constructed := 0;
  Composio.remote := broker;
  Composio.brokerLog := []
|}.

(** A broker under which an account is active at first and expired from
    the second call on. *)
Definition agingBroker : Composio.Broker := {|
  Composio.initiate := Composio.initiate broker;
  Composio.get := fun _ history accountId =>
    inr (<["id" := VString accountId]>
           (<["status" := VString (match history with
                                   | [] => "ACTIVE"
                                   | _ => "EXPIRED"
                                   end)]> (∅ : Rec)));
  Composio.delete := Composio.delete broker;
  Composio.getConnections := Composio.getConnections broker;
  Composio.entityExecute := Composio.entityExecute broker
|}.

Definition agingProcess : Composio.World := {|
  Composio.env_COMPOSIO_API_KEY := Some "key-1";
  Composio.env_COMPOSIO_BASE_URL := None;
  Composio.cachedClient := None;
  Composio.cachedApiKey := None;
  Composio.cachedBaseUrl := None;
  Composio.constructed := 0;
  Composio.remote := agingBroker;
  Composio.brokerLog := []
|}.

(** A broker whose answer to [get] names the account and reports no
    status. *)
Definition silentBroker : Composio.Broker := {|
  Composio.initiate := Composio.initiate broker;
  Composio.get := fun _ _ accountId => inr (<["id" := VString accountId]> (∅ : Rec));
  Composio.delete := Composio.delete broker;
  Composio.getConnections := Composio.getConnections broker;
  Composio.entityExecute := Composio.entityExecute broker
|}.

Definition silentProcess : Composio.World := {|
  Composio.env_COMPOSIO_API_KEY := Some "key-1";
  Composio.env_COMPOSIO_BASE_URL := None;
  Composio.cachedClient := None;
  Composio.cachedApiKey := None;
  Composio.cachedBaseUrl := None;
  Composio.constructed := 0;
  Composio.remote := silentBroker;
  Composio.brokerLog := []
|}.

(** A process without credentials. *)
Definition bare : Composio.World := {|
  Composio.env_COMPOSIO_API_KEY := None;
  Composio.env_COMPOSIO_BASE_URL := None;
  Composio.cachedClient := None;
  Composio.cachedApiKey := None;
  Composio.cachedBaseUrl := None;
  Composio.constructed := 0;
  Composio.remote := broker;
  Composio.brokerLog := []
|}.

Definition configWithKey (key : string) : Composio.ComposioConfig := {|
  Composio.enabled := Some true;
  Composio.apiKey := Some key;
  Composio.baseUrl := None;
  Composio.defaultToolkits := None;
  Composio.maxAccountsPerUser := None
|}.

Definition configWithCap (cap : Z) : Composio.ComposioConfig := {|
  Composio.enabled := Some true;
  Composio.apiKey := None;
  Composio.baseUrl := None;
  Composio.defaultToolkits := None;
  Composio.maxAccountsPerUser := Some cap
|}.

Definition optionsWith (config : Composio.ComposioConfig)
    : Composio.ComposioToolOptions := {|
  Composio.composioConfig := Some config;
  Composio.resolveEntityId := None;
  Composio.agentSessionKey := None
|}.

(** Tool arguments. *)
Definition args (action : string) (more : list (string * Value)) : Rec :=
  <["action" := VString action]> (list_to_map more).

Definition batchArgs : Rec :=
  args "connect_multiple"
    [("appNames", VArray [VString "gmail"; VString "slack"; VString "github"])].

Definition singleArgs : Rec := args "connect_multiple" [("appName", VString "gmail")].

Definition connectArgs : Rec := args "connect" [("appName", VString "gmail")].

Definition statusArgs : Rec := args "status" [("connectedAccountId", VString "acc-1")].

(** The client the first lookup of these processes constructs. *)
Definition firstClient : Composio.Client :=
  {| Composio.serial := 0; Composio.clientApiKey := "key-1";
     Composio.clientBaseUrl := None |}.

Definition accountRecord (accountId status : string) : Rec :=
  <["id" := VString accountId]> (<["status" := VString status]> ∅).

(** ** A platform for the provisioning handler *)

Definition is_id_char (c : ascii) : bool :=
  let n := nat_of_ascii c in
  ((97 <=? n)%nat && (n <=? 122)%nat) || ((48 <=? n)%nat && (n <=? 57)%nat)
  || (n =? 45)%nat || (n =? 95)%nat.

Definition lower_char (c : ascii) : ascii :=
  let n := nat_of_ascii c in
  if (65 <=? n)%nat && (n <=? 90)%nat then ascii_of_nat (n + 32) else c.

Fixpoint slug (s : string) : string :=
  match s with
  | EmptyString => EmptyString
  | String c r =>
      let c' := lower_char c in
      String (if is_id_char c' then c' else "-"%char) (slug r)
  end.

Fixpoint indexOf (l : list Onboard.AgentEntry) (key : string) : Z :=
  match l with
  | [] => -1
  | e :: r =>
      if String.eqb (Onboard.entryId e) key then 0
      else let i := indexOf r key in if i <? 0 then -1 else i + 1
  end.

Definition merge (e : Onboard.AgentEntry) (p : Onboard.AgentConfigParams)
    : Onboard.AgentEntry :=
  {| Onboard.entryId := Onboard.entryId e;
     Onboard.entryName :=
       match Onboard.name p with Some n => Some n | None => Onboard.entryName e end;
     Onboard.entryWorkspace :=
       match Onboard.workspace p with Some n => Some n | None => Onboard.entryWorkspace e end;
     Onboard.entryAgentDir :=
       match Onboard.agentDir p with Some n => Some n | None => Onboard.entryAgentDir e end |}.

Fixpoint upsert (l : list Onboard.AgentEntry) (p : Onboard.AgentConfigParams)
    : list Onboard.AgentEntry :=
  match l with
  | [] =>
      [ merge {| Onboard.entryId := Onboard.agentId p; Onboard.entryName := None;
                 Onboard.entryWorkspace := None; Onboard.entryAgentDir := None |} p ]
  | e :: r =>
      if String.eqb (Onboard.entryId e) (Onboard.agentId p)
      then merge e p :: r
      else e :: upsert r p
  end.

(** Modelled from the spec: the collaborators of the provisioning pipeline,
    which are missing.  The spec asks for a deterministic slug of the bot
    name with a reserved default id, a registry keyed by agent id to which
    the entry (name, workspace), then the agent directory, are added, and a
    fixed default-model configuration; it fixes neither the reserved id nor
    the paths, for which this sample takes "main" and paths under
    [~/.openclaw]. *)
Definition platform : Onboard.Platform := {|
  Onboard.DEFAULT_AGENT_ID := "main";
  Onboard.normalizeAgentId := fun s =>
    match trim s with EmptyString => "main" | t => slug t end;
  Onboard.formatValidationErrors := fun _ => "must match the schema";
  Onboard.listAgentEntries := fun cfg => default [] (Onboard.agentsList cfg);
  Onboard.findAgentEntryIndex := indexOf;
  Onboard.applyAgentConfig := fun cfg p =>
    {| Onboard.agentsDefaultsWorkspace := Onboard.agentsDefaultsWorkspace cfg;
       Onboard.agentsDefaultsModel := Onboard.agentsDefaultsModel cfg;
       Onboard.agentsList := Some (upsert (default [] (Onboard.agentsList cfg)) p);
       Onboard.composio := Onboard.composio cfg |};
  Onboard.applyMinimaxApiConfig := fun cfg =>
    {| Onboard.agentsDefaultsWorkspace := Onboard.agentsDefaultsWorkspace cfg;
       Onboard.agentsDefaultsModel := Some Onboard.SIMPLE_ONBOARD_MODEL;
       Onboard.agentsList := Onboard.agentsList cfg;
       Onboard.composio := Onboard.composio cfg |};
  Onboard.resolveAgentDir := fun _ agent => "~/.openclaw/agents/" +:+ agent +:+ "/agent";
  Onboard.resolveUserPath := fun p => p;
  Onboard.resolveSessionTranscriptsDirForAgent := fun agent =>
    "~/.openclaw/agents/" +:+ agent +:+ "/sessions";
  Onboard.path_join := fun a b => a +:+ "/" +:+ b;
  Onboard.DEFAULT_AGENTS_FILENAME := "AGENTS.md";
  Onboard.DEFAULT_IDENTITY_FILENAME := "IDENTITY.md";
  Onboard.DEFAULT_SOUL_FILENAME := "SOUL.md";
  Onboard.DEFAULT_TOOLS_FILENAME := "TOOLS.md";
  Onboard.DEFAULT_USER_FILENAME := "USER.md"
|}.

(** An empty machine on which no operation fails. *)
Definition machine : Onboard.World := {|
  Onboard.dirs := ∅;
  Onboard.files := ∅;
  Onboard.configFile :=
    {| Onboard.agentsDefaultsWorkspace := None;
       Onboard.agentsDefaultsModel := None;
       Onboard.agentsList := None;
       Onboard.composio := None |};
  Onboard.effects := [];
  Onboard.faults := fun _ => None
|}.

(** A machine that already holds the directories of the agent "helper"
    and nothing about it in the configuration, as a run that failed before
    the configuration was persisted leaves it. *)
Definition usedMachine : Onboard.World := {|
  Onboard.dirs :=
    list_to_set [ "~"; "~/.openclaw"; "~/.openclaw/workspace";
                  "~/.openclaw/workspace/helper"; "~/.openclaw/agents";
                  "~/.openclaw/agents/helper"; "~/.openclaw/agents/helper/sessions" ];
  Onboard.files := ∅;
  Onboard.configFile := Onboard.configFile machine;
  Onboard.effects := [];
  Onboard.faults := fun _ => None
|}.

Definition request (userName botName recipeId : string) : Rec :=
  <["userName" := VString userName]>
    (<["botName" := VString botName]>
       (<["recipeId" := VString recipeId]> ∅)).

End Sample.

(* ===================================================================== *)
(** * The authorization handlers of the onboarding gateway *)
(* ===================================================================== *)

Module Auth.

Import Js Exc Composio.

(** [OnboardAuthInitiateParamsSchema]. *)
Definition validateOnboardAuthInitiateParams (params : Rec) : bool :=
  Onboard.NonEmptyString (prop params "appName")
  && Onboard.NonEmptyString (prop params "entityId")
  && Onboard.OptionalString (params !! "redirectUri")
  && bool_decide (dom params ⊆
       ({["appName"; "entityId"; "redirectUri"]} : gset string)).

(** [OnboardAuthStatusParamsSchema]. *)
Definition validateOnboardAuthStatusParams (params : Rec) : bool :=
  Onboard.NonEmptyString (prop params "connectedAccountId")
  && bool_decide (dom params ⊆ ({["connectedAccountId"]} : gset string)).

(** What [respond] is called with by the two handlers. *)
Inductive Response : Type :=
| InitiateOk (redirectUrl connectedAccountId : string)
| StatusOk (connectedAccountId status : string)
| Failure (code : Onboard.ErrorCode) (message : string).

Definition notConfiguredInitiate : string :=
  "Composio is not configured. Set composio.apiKey in openclaw.json or COMPOSIO_API_KEY env var.".

(** The request [onboard.auth.initiate] submits. *)
Definition initiateRequestOf (params : Rec) : InitiateRequest :=
  {| reqEntityId := trim (Onboard.String_ (prop params "entityId"));
     reqAppName := trim (Onboard.String_ (prop params "appName"));
     reqRedirectUri :=
       match prop params "redirectUri" with
       | VString s => Some (trim s)
       | _ => None
       end |}.

Definition onboard_auth_initiate `{Onboard.Platform} (params : Rec) : M World Response :=
  if negb (validateOnboardAuthInitiateParams params)
  then ret (Failure Onboard.INVALID_REQUEST
              ("invalid onboard.auth.initiate params: "
               +:+ Onboard.formatValidationErrors params))
  else
    let* client := total (getComposioClient None) in
    match client with
    | None => ret (Failure Onboard.UNAVAILABLE notConfiguredInitiate)
    | Some client =>
        try_catch
          (let* result := initiateConnection client (initiateRequestOf params) in
           ret (InitiateOk (redirectUrl result) (connectedAccountId result)))
          (fun err =>
             ret (Failure Onboard.UNAVAILABLE
                    ("Composio connection failed: " +:+ message_of_thrown err)))
    end.

Definition onboard_auth_status `{Onboard.Platform} (params : Rec) : M World Response :=
  if negb (validateOnboardAuthStatusParams params)
  then ret (Failure Onboard.INVALID_REQUEST
              ("invalid onboard.auth.status params: "
               +:+ Onboard.formatValidationErrors params))
  else
    let* client := total (getComposioClient None) in
    match client with
    | None => ret (Failure Onboard.UNAVAILABLE "Composio is not configured.")
    | Some client =>
        try_catch
          (let* account :=
             getConnectionStatus client
               (trim (Onboard.String_ (prop params "connectedAccountId"))) in
           ret (StatusOk (id account) (status account)))
          (fun err =>
             ret (Failure Onboard.UNAVAILABLE
                    ("Composio status check failed: " +:+ message_of_thrown err)))
    end.

End Auth.

(* ===================================================================== *)
(** * The dashboard view: the figures it computes *)
(* ===================================================================== *)

Module Dashboard.

Import Js.

(** The fields of the snapshot and of the session rows that the view
    reads ([ui/types] is not part of the sources at hand).  The markup
    produced by the [html] templates is not modelled; the values placed in
    it are. *)
Record ChannelAccount : Type := {
  (** [running] is compared with [=== true]: absent is [None]. *)
  running : option bool
}.

Record ChannelsStatusSnapshot : Type := {
  channelOrder : list string;
  channelLabels : gmap string string;
  channelAccounts : gmap string (list ChannelAccount)
}.

Record GatewaySessionRow : Type := {
  key : string;
  surface : option string;
  label : option string;
  displayName : option string;
  subject : option string
}.

Definition isRunning (acc : ChannelAccount) : bool :=
  match running acc with Some true => true | _ => false end.

(** [Object.values(snapshot.channelAccounts)]; the two counters below do
    not depend on the order of the values. *)
Definition accountLists (snapshot : ChannelsStatusSnapshot)
    : list (list ChannelAccount) :=
  (map_to_list (channelAccounts snapshot)).*2.

Definition countActiveChannels (snapshot : option ChannelsStatusSnapshot) : nat :=
  match snapshot with
  | None => 0
  | Some snapshot =>
      fold_left (fun count accounts =>
                   if existsb isRunning accounts then S count else count)
                (accountLists snapshot) 0%nat
  end.

Definition countTotalChannelAccounts (snapshot : option ChannelsStatusSnapshot) : nat :=
  match snapshot with
  | None => 0
  | Some snapshot =>
      fold_left (fun count accounts => (count + length accounts)%nat)
                (accountLists snapshot) 0%nat
  end.

(** What a plain object (an object literal, an object read from JSON, as
    the snapshot's maps are) inherits from [Object.prototype]: functions,
    each with its [length], and under [__proto__] the prototype object
    itself. *)
Inductive Inherited : Type :=
| InheritedFunction (arity : nat)
| InheritedObject.

Definition Object_prototype (name : string) : option Inherited :=
  if String.eqb name "constructor" then Some (InheritedFunction 1)
  else if String.eqb name "hasOwnProperty" then Some (InheritedFunction 1)
  else if String.eqb name "isPrototypeOf" then Some (InheritedFunction 1)
  else if String.eqb name "propertyIsEnumerable" then Some (InheritedFunction 1)
  else if String.eqb name "toLocaleString" then Some (InheritedFunction 0)
  else if String.eqb name "toString" then Some (InheritedFunction 0)
  else if String.eqb name "valueOf" then Some (InheritedFunction 0)
  else if String.eqb name "__defineGetter__" then Some (InheritedFunction 2)
  else if String.eqb name "__defineSetter__" then Some (InheritedFunction 2)
  else if String.eqb name "__lookupGetter__" then Some (InheritedFunction 1)
  else if String.eqb name "__lookupSetter__" then Some (InheritedFunction 1)
  else if String.eqb name "__proto__" then Some InheritedObject
  else None.

(** [obj[name]] on a plain object: its own property, else the inherited
    member of that name, else [undefined]. *)
Inductive Member (A : Type) : Type :=
| Own (a : A)
| FromPrototype (m : Inherited)
| Absent.

Arguments Own {A} a.
Arguments FromPrototype {A} m.
Arguments Absent {A}.

Definition member {A : Type} (obj : gmap string A) (name : string) : Member A :=
  match obj !! name with
  | Some a => Own a
  | None =>
      match Object_prototype name with
      | Some m => FromPrototype m
      | None => Absent
      end
  end.

(** [snapshot.channelLabels[channelId] ?? channelId]: a text, or an
    inherited member placed in the markup as it is. *)
Inductive Label : Type :=
| LabelText (text : string)
| LabelMember (m : Inherited).

(** The rows of [renderChannelStatus]. *)
Record ChannelEntry : Type := {
  entryChannel : string;
  entryLabel : Label;
  entryRunning : nat;
  entryTotal : nat
}.

(** What a rendering function comes to: its value, or the [TypeError] of
    calling [accounts.filter] where [accounts] has no such method. *)
Inductive Rendered (A : Type) : Type :=
| Shown (a : A)
| ThrowsTypeError.

Arguments Shown {A} a.
Arguments ThrowsTypeError {A}.

(** The loop of [renderChannelStatus] over [channelOrder].  For
    [snapshot.channelAccounts[channelId] ?? []] that is not an own list:
    an inherited function of [length] 0 passes for an empty list, and any
    other inherited member gets past [accounts.length === 0] and has no
    [filter]. *)
Fixpoint channelEntries (snapshot : ChannelsStatusSnapshot) (order : list string)
    : Rendered (list ChannelEntry) :=
  match order with
  | [] => Shown []
  | channelId :: rest =>
      match member (channelAccounts snapshot) channelId with
      | Absent | Own [] | FromPrototype (InheritedFunction 0) =>
          channelEntries snapshot rest
      | FromPrototype _ => ThrowsTypeError
      | Own accounts =>
          let entry :=
            {| entryChannel := channelId;
               entryLabel :=
                 match member (channelLabels snapshot) channelId with
                 | Own text => LabelText text
                 | FromPrototype m => LabelMember m
                 | Absent => LabelText channelId
                 end;
               entryRunning := length (filter (fun a => isRunning a = true) accounts);
               entryTotal := length accounts |} in
          match channelEntries snapshot rest with
          | Shown entries => Shown (entry :: entries)
          | ThrowsTypeError => ThrowsTypeError
          end
      end
  end.

(** The three outcomes of [renderChannelStatus]. *)
Inductive ChannelPanel : Type :=
| ChannelsNotLoaded
| NoChannelsConfigured
| ChannelRows (rows : list ChannelEntry).

Definition renderChannelStatus (snapshot : option ChannelsStatusSnapshot)
    : Rendered ChannelPanel :=
  match snapshot with
  | None => Shown ChannelsNotLoaded
  | Some snapshot =>
      match channelEntries snapshot (channelOrder snapshot) with
      | ThrowsTypeError => ThrowsTypeError
      | Shown [] => Shown NoChannelsConfigured
      | Shown entries => Shown (ChannelRows entries)
      end
  end.

(** [s.split(":")]: the segments between colons, at least one. *)
Fixpoint split_colon (s : string) : list string :=
  match s with
  | EmptyString => [EmptyString]
  | String c r =>
      if Ascii.eqb c ":"%char then EmptyString :: split_colon r
      else match split_colon r with
           | h :: t => String c h :: t
           | [] => [String c EmptyString]
           end
  end.

(** The em dash, U+2014. *)
Definition emDash : string := "—".

Definition sessionChannelLabel (row : GatewaySessionRow) : string :=
  if truthy_opt (surface row) then default EmptyString (surface row)
  else
    let parts := split_colon (key row) in
    match parts !! 2%nat with
    | Some p => p
    | None => match parts !! 0%nat with Some p => p | None => emDash end
    end.

Definition sessionDisplayName (row : GatewaySessionRow) : string :=
  if truthy_opt (label row) then default EmptyString (label row)
  else if truthy_opt (displayName row) then default EmptyString (displayName row)
  else if truthy_opt (subject row) then default EmptyString (subject row)
  else
    let parts := split_colon (key row) in
    match parts !! (length parts - 1)%nat with
    | Some p => p
    | None => key row
    end.

(** The rows shown by [renderRecentSessions]: [sessions.slice(0, 8)]. *)
Definition recentSessions (sessions : option (list GatewaySessionRow))
    : list GatewaySessionRow :=
  take 8 (default [] sessions).

End Dashboard.

(* ===================================================================== *)
(** * Notions used to state the further properties *)
(* ===================================================================== *)

Module Notions.

Import Js Exc.

(** The characters of a string. *)
Definition chars (s : string) : list ascii := list_ascii_of_string s.

Definition first_char (s : string) : option ascii :=
  match s with EmptyString => None | String c _ => Some c end.

Fixpoint last_char (s : string) : option ascii :=
  match s with
  | EmptyString => None
  | String c EmptyString => Some c
  | String _ r => last_char r
  end.

(** No two white-space characters in a row. *)
Fixpoint no_ws_run (s : string) : Prop :=
  match s with
  | EmptyString => True
  | String a r =>
      match r with
      | EmptyString => True
      | String b _ => ~ (is_space a = true /\ is_space b = true)
      end /\ no_ws_run r
  end.

(** A string as [sanitizeLine] leaves it: white space occurs only as single
    spaces between other characters. *)
Definition single_spaced (s : string) : Prop :=
  (forall c, In c (chars s) -> is_space c = true -> c = " "%char)
  /\ no_ws_run s
  /\ (forall c, first_char s = Some c -> is_space c = false)
  /\ (forall c, last_char s = Some c -> is_space c = false).

(** The cache of [client.ts] holds a client under its own credentials. *)
Definition cache_consistent (w : Composio.World) : Prop :=
  match Composio.cachedClient w with
  | Some c =>
      Composio.cachedApiKey w = Some (Composio.clientApiKey c)
      /\ Composio.cachedBaseUrl w = Composio.clientBaseUrl c
  | None => True
  end.

(** The six actions of the tool. *)
Definition COMPOSIO_ACTIONS : list string :=
  ["list_connections"; "connect"; "connect_multiple"; "status"; "disconnect";
   "execute"].

Definition notConfigured : string :=
  "Composio is not configured. Set COMPOSIO_API_KEY or configure composio.apiKey.".

(** The account [listConnectedAccounts] and [getConnectionStatus] read off
    a record of the broker. *)
Definition listedAccount (r : Rec) : Composio.ComposioConnectedAccount :=
  {| Composio.id := Composio.toStr (prop r "id") EmptyString;
     Composio.appName := Composio.appName_of r;
     Composio.status := Composio.toStr (prop r "status") "ACTIVE";
     Composio.createdAt := Composio.toStr (prop r "createdAt") EmptyString;
     Composio.updatedAt := Composio.toStr (prop r "updatedAt") EmptyString |}.

Definition statusAccount (accountId : string) (r : Rec)
    : Composio.ComposioConnectedAccount :=
  {| Composio.id := Composio.toStr (prop r "id") accountId;
     Composio.appName := Composio.appName_of r;
     Composio.status := Composio.toStr (prop r "status") "INITIATED";
     Composio.createdAt := Composio.toStr (prop r "createdAt") EmptyString;
     Composio.updatedAt := Composio.toStr (prop r "updatedAt") EmptyString |}.

Definition noConnectionsYet : string :=
  "No services connected yet. Use the connect action to link services like Gmail, Outlook, Google Calendar, etc.".

Definition disconnected : string := "Service disconnected successfully.".

Definition connectMessage (appName : string) : string :=
  "Send the following link to the user to authorize " +:+ appName +:+ ":".

(** [value ?? {}]. *)
Definition orEmptyObject (v : Value) : Value :=
  match v with VUndefined | VNull => VObject [] | _ => v end.

(** [(params.params as Record<string, unknown>) ?? {}]. *)
Definition paramsOf (params : Rec) : Value :=
  match prop params "params" with
  | VUndefined | VNull => VObject []
  | v => v
  end.

(** A broker whose records carry an application and nothing else. *)
Definition terseBroker : Composio.Broker := {|
  Composio.initiate := Composio.initiate Sample.broker;
  Composio.get := fun _ _ _ => inr (<["app" := VString "gmail"]> (∅ : Rec));
  Composio.delete := fun _ _ _ => inl (ErrorObj "account not found");
  Composio.getConnections := fun _ _ _ => inr [<["app" := VString "gmail"]> (∅ : Rec)];
  Composio.entityExecute := Composio.entityExecute Sample.broker
|}.

Definition terseProcess : Composio.World := {|
  Composio.env_COMPOSIO_API_KEY := Some "key-1";
  Composio.env_COMPOSIO_BASE_URL := None;
  Composio.cachedClient := None;
  Composio.cachedApiKey := None;
  Composio.cachedBaseUrl := None;
  Composio.constructed := 0;
  Composio.remote := terseBroker;
  Composio.brokerLog := []
|}.

(** A value [toStr] has a rendering for. *)
Definition renderable (v : Value) : Prop :=
  match v with VString _ | VNumber _ | VBool _ => True | _ => False end.

(** A session row known by its key alone. *)
Definition bareRow (sessionKey : string) : Dashboard.GatewaySessionRow :=
  {| Dashboard.key := sessionKey;
     Dashboard.surface := None;
     Dashboard.label := None;
     Dashboard.displayName := Some EmptyString;
     Dashboard.subject := None |}.

(** The machine with every fault removed. *)
Definition heal (w : Onboard.World) : Onboard.World :=
  {| Onboard.dirs := Onboard.dirs w;
     Onboard.files := Onboard.files w;
     Onboard.configFile := Onboard.configFile w;
     Onboard.effects := Onboard.effects w;
     Onboard.faults := fun _ => None |}.

(** The files map after the workspace files have been written. *)
Definition writtenFiles `{Onboard.Platform} (workspaceDir : string)
    (written : list (string * string)) (before : gmap string string)
    : gmap string string :=
  fold_left (fun (m : gmap string string) (f : string * string) =>
               <[Onboard.path_join workspaceDir f.1 := f.2]> m)
            written before.

(** The sample machine on which writing a given file fails. *)
Definition machineFailingFile (path : string) : Onboard.World :=
  {| Onboard.dirs := ∅;
     Onboard.files := ∅;
     Onboard.configFile := Onboard.configFile Sample.machine;
     Onboard.effects := [];
     Onboard.faults := fun op =>
       match op with
       | Onboard.OpWriteFile p =>
           if String.eqb p path then Some (ErrorObj "ENOSPC: no space left on device")
           else None
       | _ => None
       end |}.

(** The sample machine on which persisting the configuration fails. *)
Definition machineFailingConfig : Onboard.World :=
  {| Onboard.dirs := ∅;
     Onboard.files := ∅;
     Onboard.configFile := Onboard.configFile Sample.machine;
     Onboard.effects := [];
     Onboard.faults := fun op =>
       match op with
       | Onboard.OpWriteConfig => Some (ErrorObj "EACCES: permission denied")
       | _ => None
       end |}.

End Notions.

(* ===================================================================== *)
(** * Theorems: the broker client cache *)
(* ===================================================================== *)

Module ClientFacts.

Import Js Exc Composio.

Lemma or_undefined_truthy (a : option string) (s : string) :
  or_undefined a = Some s -> truthy s = true.
Proof.
  unfold or_undefined. destruct a as [x|]; simpl; [|discriminate].
  destruct (truthy x) eqn:E; [|discriminate]. intros [= <-]. exact E.
Qed.

Lemma resolveApiKey_truthy config w key :
  resolveApiKey config w = Some key -> truthy key = true.
Proof. apply or_undefined_truthy. Qed.

(** No resolvable key: [null], and nothing changes. *)
Lemma getComposioClient_disabled config w :
  resolveApiKey config w = None -> getComposioClient config w = (None, w).
Proof. intros H. unfold getComposioClient. now rewrite H. Qed.

(** A cache hit. *)
Lemma getComposioClient_hit config w key c :
  resolveApiKey config w = Some key ->
  cachedClient w = Some c ->
  cachedApiKey w = Some key ->
  cachedBaseUrl w = resolveBaseUrl config w ->
  getComposioClient config w = (Some c, w).
Proof.
  intros Hk Hc Ha Hu. unfold getComposioClient.
  rewrite Hk, (resolveApiKey_truthy _ _ _ Hk), Hc. simpl.
  rewrite !bool_decide_eq_true_2 by assumption. reflexivity.
Qed.

(** A cache miss. *)
Lemma getComposioClient_miss config w key :
  resolveApiKey config w = Some key ->
  cachedClient w = None \/ cachedApiKey w <> Some key
    \/ cachedBaseUrl w <> resolveBaseUrl config w ->
  getComposioClient config w
  = (Some (fst (construct key (resolveBaseUrl config w) w)),
     snd (construct key (resolveBaseUrl config w) w)).
Proof.
  intros Hk Hmiss. unfold getComposioClient.
  rewrite Hk, (resolveApiKey_truthy _ _ _ Hk). simpl.
  destruct (cachedClient w) as [c|] eqn:Hc; [|reflexivity].
  destruct Hmiss as [H|[H|H]]; [discriminate| |].
  - rewrite (bool_decide_eq_false_2 _ H). reflexivity.
  - rewrite (bool_decide_eq_false_2 _ H), andb_false_r. reflexivity.
Qed.

(** Every call with a resolvable key leaves the cache holding the client it
    returns, under the pair it resolved. *)
Lemma getComposioClient_caches config w key :
  resolveApiKey config w = Some key ->
  exists c w',
    getComposioClient config w = (Some c, w')
    /\ cachedClient w' = Some c
    /\ cachedApiKey w' = Some key
    /\ cachedBaseUrl w' = resolveBaseUrl config w
    /\ env_COMPOSIO_API_KEY w' = env_COMPOSIO_API_KEY w
    /\ env_COMPOSIO_BASE_URL w' = env_COMPOSIO_BASE_URL w
    /\ brokerLog w' = brokerLog w
    /\ remote w' = remote w.
Proof.
  intros Hk.
  destruct (cachedClient w) as [c|] eqn:Hc.
  - destruct (decide (cachedApiKey w = Some key)) as [Ha|Ha];
      [destruct (decide (cachedBaseUrl w = resolveBaseUrl config w)) as [Hu|Hu]|].
    + exists c, w. rewrite (getComposioClient_hit _ _ _ _ Hk Hc Ha Hu). tauto.
    + rewrite (getComposioClient_miss _ _ _ Hk) by tauto.
      eexists _, _. split; [reflexivity|]. simpl. tauto.
    + rewrite (getComposioClient_miss _ _ _ Hk) by tauto.
      eexists _, _. split; [reflexivity|]. simpl. tauto.
  - rewrite (getComposioClient_miss _ _ _ Hk) by tauto.
    eexists _, _. split; [reflexivity|]. simpl. tauto.
Qed.

(** C8. [getComposioClient] returns [null], changing nothing, when no API
    key resolves from the configuration or the environment.  When a key
    resolves: (same pair) a second call that resolves the same key and base
    URL returns the very client the first call returned, and leaves the
    process as it is; (other pair) a call that resolves a pair other than
    the cached one constructs a client, with a serial no earlier client has,
    and caches it under the new pair; (reset) after [clearComposioClient]
    the next call constructs a client again. *)
Theorem getComposioClient_cache_contract :
  (forall config w,
      resolveApiKey config w = None ->
      getComposioClient config w = (None, w))
  /\ (forall config1 config2 w key,
      resolveApiKey config1 w = Some key ->
      resolveApiKey config2 w = Some key ->
      resolveBaseUrl config2 w = resolveBaseUrl config1 w ->
      exists c w1,
        getComposioClient config1 w = (Some c, w1)
        /\ getComposioClient config2 w1 = (Some c, w1))
  /\ (forall config w key,
      resolveApiKey config w = Some key ->
      (cachedApiKey w, cachedBaseUrl w) <> (Some key, resolveBaseUrl config w) ->
      exists c w',
        getComposioClient config w = (Some c, w')
        /\ serial c = constructed w
        /\ constructed w' = S (constructed w)
        /\ clientApiKey c = key
        /\ clientBaseUrl c = resolveBaseUrl config w
        /\ cachedClient w' = Some c
        /\ cachedApiKey w' = Some key
        /\ cachedBaseUrl w' = resolveBaseUrl config w
        /\ (forall old, cachedClient w = Some old ->
                        (serial old < constructed w)%nat -> c <> old))
  /\ (forall config w key,
      resolveApiKey config w = Some key ->
      exists c w',
        getComposioClient config (clearComposioClient w) = (Some c, w')
        /\ serial c = constructed w
        /\ constructed w' = S (constructed w)
        /\ cachedClient w' = Some c).
Proof.
  repeat split.
  - apply getComposioClient_disabled.
  - intros config1 config2 w key H1 H2 Hu.
    destruct (getComposioClient_caches _ _ _ H1)
      as (c & w1 & Hget & Hc & Ha & Hb & He1 & He2 & _ & _).
    exists c, w1. split; [exact Hget|].
    assert (Hk2 : resolveApiKey config2 w1 = Some key).
    { unfold resolveApiKey in *. now rewrite He1. }
    assert (Hu2 : resolveBaseUrl config2 w1 = resolveBaseUrl config1 w).
    { unfold resolveBaseUrl in *. now rewrite He2. }
    apply (getComposioClient_hit _ _ key); try assumption. congruence.
  - intros config w key Hk Hne.
    rewrite (getComposioClient_miss _ _ _ Hk).
    + eexists _, _. split; [reflexivity|]. simpl. repeat split.
      intros old _ Hlt E. rewrite <- E in Hlt. simpl in Hlt. lia.
    + destruct (decide (cachedApiKey w = Some key)) as [Ha|Ha]; [|tauto].
      right; right. intros Hu. apply Hne. congruence.
  - intros config w key Hk.
    rewrite (getComposioClient_miss _ _ key).
    + eexists _, _. split; [reflexivity|]. simpl. tauto.
    + exact Hk.
    + left. reflexivity.
Qed.

Lemma getComposioClient_serials config w :
  serials_below w -> serials_below (snd (getComposioClient config w)).
Proof.
  intros Hw. destruct (resolveApiKey config w) as [key|] eqn:Hk.
  - destruct (cachedClient w) as [c|] eqn:Hc.
    + destruct (decide (cachedApiKey w = Some key)) as [Ha|Ha];
        [destruct (decide (cachedBaseUrl w = resolveBaseUrl config w)) as [Hu|Hu]|].
      * now rewrite (getComposioClient_hit _ _ _ _ Hk Hc Ha Hu).
      * rewrite (getComposioClient_miss _ _ _ Hk) by tauto.
        intros c' [= <-]. simpl. lia.
      * rewrite (getComposioClient_miss _ _ _ Hk) by tauto.
        intros c' [= <-]. simpl. lia.
    + rewrite (getComposioClient_miss _ _ _ Hk) by tauto.
      intros c' [= <-]. simpl. lia.
  - now rewrite (getComposioClient_disabled _ _ Hk).
Qed.

(** The client lookup never talks to the broker and never touches the
    environment. *)
Lemma getComposioClient_frame config w :
  brokerLog (snd (getComposioClient config w)) = brokerLog w
  /\ remote (snd (getComposioClient config w)) = remote w
  /\ env_COMPOSIO_API_KEY (snd (getComposioClient config w)) = env_COMPOSIO_API_KEY w
  /\ env_COMPOSIO_BASE_URL (snd (getComposioClient config w)) = env_COMPOSIO_BASE_URL w.
Proof.
  destruct (resolveApiKey config w) as [key|] eqn:Hk.
  - destruct (getComposioClient_caches _ _ _ Hk)
      as (c & w' & -> & _ & _ & _ & ? & ? & ? & ?). simpl. tauto.
  - rewrite (getComposioClient_disabled _ _ Hk). simpl. tauto.
Qed.

(** Once a client has been returned, the same configuration keeps returning
    it, whatever is sent to the broker in between. *)
Lemma getComposioClient_again config w c w1 w2 :
  getComposioClient config w = (Some c, w1) ->
  env_COMPOSIO_API_KEY w2 = env_COMPOSIO_API_KEY w1 ->
  env_COMPOSIO_BASE_URL w2 = env_COMPOSIO_BASE_URL w1 ->
  cachedClient w2 = cachedClient w1 ->
  cachedApiKey w2 = cachedApiKey w1 ->
  cachedBaseUrl w2 = cachedBaseUrl w1 ->
  getComposioClient config w2 = (Some c, w2).
Proof.
  intros Hget He1 He2 Hc Ha Hu.
  destruct (resolveApiKey config w) as [key|] eqn:Hk.
  - destruct (getComposioClient_caches _ _ _ Hk)
      as (c' & w' & Hget' & Hc' & Ha' & Hu' & He1' & He2' & _ & _).
    rewrite Hget in Hget'. injection Hget' as <- <-.
    apply (getComposioClient_hit _ _ key).
    + unfold resolveApiKey in *. now rewrite He1, He1'.
    + congruence.
    + congruence.
    + rewrite Hu, Hu'. unfold resolveBaseUrl. now rewrite He2, He2'.
  - rewrite (getComposioClient_disabled _ _ Hk) in Hget. discriminate.
Qed.

Lemma clearComposioClient_serials w : serials_below (clearComposioClient w).
Proof. intros c. discriminate. Qed.

Lemma getComposioClient_cache_contract_witness :
  getComposioClient None Sample.bare = (None, Sample.bare)
  /\ (exists c w1,
        getComposioClient None Sample.process = (Some c, w1)
        /\ getComposioClient (Some (Sample.configWithKey " key-1 ")) w1 = (Some c, w1))
  /\ (exists c w',
        getComposioClient (Some (Sample.configWithKey "key-2")) Sample.process
        = (Some c, w')
        /\ serial c = 0%nat /\ cachedApiKey w' = Some "key-2")
  /\ (exists c w',
        getComposioClient None (clearComposioClient Sample.process) = (Some c, w')
        /\ cachedClient w' = Some c).
Proof.
  destruct getComposioClient_cache_contract as (Hnull & Hsame & Hother & Hclear).
  split; [apply Hnull; reflexivity|].
  split; [apply (Hsame None (Some (Sample.configWithKey " key-1 ")) Sample.process "key-1");
          reflexivity|].
  split.
  - destruct (Hother (Some (Sample.configWithKey "key-2")) Sample.process "key-2")
      as (c & w' & H & Hs & _ & _ & _ & _ & Hk & _); [reflexivity|discriminate|].
    exists c, w'. auto.
  - destruct (Hclear None Sample.process "key-1") as (c & w' & H & _ & _ & Hc);
      [reflexivity|].
    exists c, w'. auto.
Defined.

End ClientFacts.

(* ===================================================================== *)
(** * Theorems: the recipe catalogue *)
(* ===================================================================== *)

Module RecipeFacts.

Import Js Recipes.

(** What a map built by successive [set] calls holds. *)
Lemma fold_set_lookup (l : list Recipe) (m : gmap string Recipe) k r :
  fold_left (fun (m : gmap string Recipe) (r : Recipe) => <[id r := r]> m) l m !! k
  = Some r ->
  (r ∈ l /\ id r = k) \/ m !! k = Some r.
Proof.
  revert m. induction l as [|x l IH]; intros m H; simpl in H.
  - now right.
  - destruct (IH _ H) as [[Hin Hid]|Hm].
    + left. split; [apply elem_of_cons; now right|exact Hid].
    + destruct (decide (id x = k)) as [E|E].
      * rewrite <- E, lookup_insert_eq in Hm. injection Hm as <-.
        left. split; [apply elem_of_cons; now left|exact E].
      * rewrite lookup_insert_ne in Hm by exact E. now right.
Qed.

Lemma getRecipe_sound k r : getRecipe k = Some r -> r ∈ RECIPES /\ id r = k.
Proof.
  intros H. destruct (fold_set_lookup _ _ _ _ H) as [?|Hm]; [assumption|].
  now rewrite lookup_empty in Hm.
Qed.

Lemma getRecipe_complete r : r ∈ RECIPES -> getRecipe (id r) = Some r.
Proof.
  unfold RECIPES. rewrite !elem_of_cons, elem_of_nil.
  intros [->|[->|[->|[->|[]]]]]; vm_compute; reflexivity.
Qed.

(** C9. [getRecipe] is a function of the id alone, over a catalogue that
    nothing changes: it answers with the catalogue's own recipe of that id
    exactly when there is one, the same for the same id, and with
    [undefined], never an exception, for every id outside [listRecipeIds]. *)
Theorem getRecipe_pure_lookup :
  (forall k r, getRecipe k = Some r <-> r ∈ listRecipes /\ id r = k)
  /\ (forall k, k ∉ listRecipeIds <-> getRecipe k = None)
  /\ (forall k1 k2, k1 = k2 -> getRecipe k1 = getRecipe k2)
  /\ listRecipes = RECIPES
  /\ listRecipeIds
     = ["daily-assistant"; "creative-partner"; "research-analyst"; "learning-coach"].
Proof.
  assert (Hiff : forall k r, getRecipe k = Some r <-> r ∈ listRecipes /\ id r = k).
  { intros k r. split; [apply getRecipe_sound|].
    intros [Hin <-]. now apply getRecipe_complete. }
  split; [exact Hiff|]. split; [|split; [|split]].
  - intros k. unfold listRecipeIds. rewrite list_elem_of_In, in_map_iff. split.
    + intros Hnot. destruct (getRecipe k) as [r|] eqn:E; [|reflexivity].
      exfalso. apply Hnot. apply Hiff in E as [Hin Hid].
      exists r. split; [exact Hid|now apply (proj1 (list_elem_of_In _ _))].
    + intros Hnone (r & <- & Hin).
      apply (proj2 (list_elem_of_In _ _)), getRecipe_complete in Hin. congruence.
  - now intros k1 k2 ->.
  - reflexivity.
  - reflexivity.
Qed.

Lemma getRecipe_pure_lookup_witness :
  getRecipe "daily-assistant" = Some daily_assistant
  /\ getRecipe "does-not-exist" = None.
Proof.
  destruct getRecipe_pure_lookup as (Hiff & Hnone & _).
  split.
  - apply Hiff. split; [apply elem_of_cons; now left|reflexivity].
  - apply Hnone. intros H. apply (proj1 (list_elem_of_In _ _)) in H.
    vm_compute in H. intuition discriminate.
Defined.

End RecipeFacts.

(* ===================================================================== *)
(** * Theorems: the agent tool *)
(* ===================================================================== *)

Module ToolFacts.

Import Js Exc Composio.

Section Tool.

Context `{readers : ParamReaders}.

Lemma log_calls_fields cs w :
  remote (log_calls cs w) = remote w
  /\ brokerLog (log_calls cs w) = brokerLog w ++ cs
  /\ cachedClient (log_calls cs w) = cachedClient w
  /\ cachedApiKey (log_calls cs w) = cachedApiKey w
  /\ cachedBaseUrl (log_calls cs w) = cachedBaseUrl w
  /\ constructed (log_calls cs w) = constructed w.
Proof.
  revert w. induction cs as [|c cs IH]; intros w; simpl.
  - rewrite app_nil_r. repeat split.
  - destruct (IH (log_call c w)) as (H1 & H2 & H3 & H4 & H5 & H6).
    unfold log_calls in *. rewrite H1, H2, H3, H4, H5, H6. simpl.
    rewrite <- app_assoc. repeat split.
Qed.

(** [execute] up to the dispatch on the action. *)
Lemma execute_unconfigured opts params w action w1 :
  readStringParam_required params "action" = inr action ->
  getComposioClient (opts ≫= composioConfig) w = (None, w1) ->
  execute opts params w
  = (Throw (ErrorObj
       "Composio is not configured. Set COMPOSIO_API_KEY or configure composio.apiKey."),
     w1).
Proof.
  intros Ha Hc. unfold execute, bind, total, lift, ret. rewrite Ha.
  cbv beta iota. rewrite Hc. reflexivity.
Qed.

Lemma execute_connect_multiple opts params w client w1 :
  readStringParam_required params "action" = inr "connect_multiple" ->
  getComposioClient (opts ≫= composioConfig) w = (Some client, w1) ->
  execute opts params w
  = connectMultiple (opts ≫= composioConfig) client (entityIdOf opts params) params w1.
Proof.
  intros Ha Hc. unfold execute, bind, total, lift, ret. rewrite Ha.
  cbv beta iota. rewrite Hc. reflexivity.
Qed.

Lemma execute_connect opts params w client w1 :
  readStringParam_required params "action" = inr "connect" ->
  getComposioClient (opts ≫= composioConfig) w = (Some client, w1) ->
  execute opts params w
  = (let* appName := lift (readStringParam_required params "appName") in
     let* result :=
       initiateConnection client
         {| reqEntityId := entityIdOf opts params;
            reqAppName := appName;
            reqRedirectUri := readStringParam params "redirectUri" |} in
     ret (PConnect result
            ("Send the following link to the user to authorize " +:+ appName +:+ ":")
            (redirectUrl result) appName)) w1.
Proof.
  intros Ha Hc. unfold execute, bind, total, lift, ret. rewrite Ha.
  cbv beta iota. rewrite Hc. reflexivity.
Qed.

Lemma execute_status opts params w client w1 :
  readStringParam_required params "action" = inr "status" ->
  getComposioClient (opts ≫= composioConfig) w = (Some client, w1) ->
  execute opts params w
  = (let* accountId := lift (readStringParam_required params "connectedAccountId") in
     let* status := getConnectionStatus client accountId in
     ret (PStatus status)) w1.
Proof.
  intros Ha Hc. unfold execute, bind, total, lift, ret. rewrite Ha.
  cbv beta iota. rewrite Hc. reflexivity.
Qed.

(** One item of the batch: the request is logged, and the answer is mapped
    to an entry; nothing is thrown. *)
Lemma connectOne_run client entityId params name w :
  connectOne client entityId params name w
  = (Ok (itemOf name (initiate (remote w) client (brokerLog w)
                               (requestFor entityId params name))),
     log_call (CallInitiate (requestFor entityId params name)) w).
Proof.
  unfold connectOne, initiateConnection, try_catch, bind, call, ret, throw,
    requestFor, itemOf. simpl.
  destruct (initiate _ _ _ _) as [e|cr]; reflexivity.
Qed.

(** The whole batch: one entry per name, in the order of the names, and one
    logged request per name, in the same order. *)
Lemma promise_all_connect client entityId params names w :
  promise_all (map (connectOne client entityId params) names) w
  = (Ok (zip_with itemOf names
           (replies (remote w) client (brokerLog w)
                    (map (requestFor entityId params) names))),
     log_calls (map (fun n => CallInitiate (requestFor entityId params n)) names) w).
Proof.
  revert w. induction names as [|n names IH]; intros w; [reflexivity|].
  simpl. rewrite connectOne_run, IH. reflexivity.
Qed.

Lemma replies_length b client h reqs : length (replies b client h reqs) = length reqs.
Proof. revert h. induction reqs; intros h; simpl; [|rewrite IHreqs]; reflexivity. Qed.

Lemma itemOf_shape name reply :
  itemAppName (itemOf name reply) = toUpperCase name
  /\ (rejected reply <-> failureShape (itemOf name reply))
  /\ (~ rejected reply <-> successShape (itemOf name reply)).
Proof.
  unfold failureShape, successShape.
  destruct reply as [e|cr]; simpl; (split; [reflexivity|]); split; split;
    try tauto; intros H; try (split; [|split]); eauto;
    try (destruct H as (H1 & H2 & H3)); try discriminate;
    try (destruct H1; discriminate); try (destruct H3; discriminate).
Qed.

(** An accepted batch. *)
Lemma connectMultiple_run config client entityId params names w :
  resolveAppNames params = Some names ->
  names <> [] ->
  Z.of_nat (length names) <= capOf config ->
  connectMultiple config client entityId params w
  = (Ok (PConnectMultiple
           (zip_with itemOf names
              (replies (remote w) client (brokerLog w)
                       (map (requestFor entityId params) names)))
           batchMessage),
     log_calls (map (fun n => CallInitiate (requestFor entityId params n)) names) w).
Proof.
  intros Hn Hne Hcap. unfold connectMultiple. rewrite Hn.
  destruct names as [|n names]; [congruence|].
  destruct (Z.gtb_spec (Z.of_nat (length (n :: names))) (capOf config)) as [Hgt|_];
    [lia|].
  unfold bind. rewrite promise_all_connect. reflexivity.
Qed.

(** C1. For a non-empty list of names within the cap, [connect_multiple]
    answers with one entry per name, in the order of the names: entry [i]
    is the mapping of the broker's answer to the request for name [i], it
    carries that name (upper-cased), and it has the failure shape exactly
    when that request was rejected and the success shape otherwise.  In
    particular, when request [k] alone is rejected, entry [k] alone has the
    failure shape (an error, no account id) and all others have the success
    shape; all requests are issued, in order. *)
Theorem connect_multiple_isolates_failures
    opts params w client w1 names :
  readStringParam_required params "action" = inr "connect_multiple" ->
  getComposioClient (opts ≫= composioConfig) w = (Some client, w1) ->
  resolveAppNames params = Some names ->
  names <> [] ->
  Z.of_nat (length names) <= capOf (opts ≫= composioConfig) ->
  let reqs := map (requestFor (entityIdOf opts params) params) names in
  let answers := replies (remote w1) client (brokerLog w1) reqs in
  exists results w2,
    execute opts params w = (Ok (PConnectMultiple results batchMessage), w2)
    /\ length results = length names
    /\ (forall i name, names !! i = Some name ->
          exists reply,
            answers !! i = Some reply
            /\ results !! i = Some (itemOf name reply)
            /\ itemAppName (itemOf name reply) = toUpperCase name
            /\ (rejected reply <-> failureShape (itemOf name reply))
            /\ (~ rejected reply <-> successShape (itemOf name reply)))
    /\ (forall k,
          (forall i reply, answers !! i = Some reply -> (rejected reply <-> i = k)) ->
          forall i item, results !! i = Some item ->
            (failureShape item <-> i = k) /\ (successShape item <-> i <> k))
    /\ brokerLog w2 = brokerLog w1 ++ map CallInitiate reqs.
Proof.
  intros Ha Hc Hn Hne Hcap reqs answers.
  rewrite (execute_connect_multiple _ _ _ _ _ Ha Hc).
  rewrite (connectMultiple_run _ _ _ _ _ _ Hn Hne Hcap).
  fold reqs. fold answers.
  assert (Hlen : length answers = length names).
  { unfold answers, reqs. now rewrite replies_length, length_map. }
  assert (Hitems : forall i name, names !! i = Some name ->
            exists reply, answers !! i = Some reply
              /\ zip_with itemOf names answers !! i = Some (itemOf name reply)).
  { intros i name Hi.
    destruct (lookup_lt_is_Some_2 answers i) as [reply Hr].
    { rewrite Hlen. eapply lookup_lt_Some, Hi. }
    exists reply. split; [exact Hr|].
    rewrite lookup_zip_with, Hi. simpl. now rewrite Hr. }
  eexists _, _. split; [reflexivity|].
  split; [rewrite length_zip_with; lia|].
  split; [|split].
  - intros i name Hi. destruct (Hitems i name Hi) as (reply & Hr & Hz).
    exists reply. destruct (itemOf_shape name reply) as (Hn1 & Hn2 & Hn3). tauto.
  - intros k Hk i item Hi.
    destruct (lookup_lt_is_Some_2 names i) as [name Hname].
    { apply lookup_lt_Some in Hi. rewrite length_zip_with in Hi. lia. }
    destruct (Hitems i name Hname) as (reply & Hr & Hz).
    rewrite Hz in Hi. injection Hi as <-.
    destruct (itemOf_shape name reply) as (_ & Hf & Hs).
    specialize (Hk i reply Hr). tauto.
  - destruct (log_calls_fields
                (map (fun n => CallInitiate (requestFor (entityIdOf opts params) params n))
                     names) w1) as (_ & Hlog & _).
    rewrite Hlog. unfold reqs. now rewrite map_map.
Qed.

(** C3. When the [appNames] of the request is missing, empty or longer
    than the cap ([maxAccountsPerUser], 20 by default), [connect_multiple]
    throws and the broker has received nothing; with a client at hand the
    error is the one of the batch check. *)
Theorem connect_multiple_rejects_whole_batch opts params w :
  readStringParam_required params "action" = inr "connect_multiple" ->
  (resolveAppNames params = None \/ resolveAppNames params = Some []
   \/ exists names, resolveAppNames params = Some names
                    /\ Z.of_nat (length names) > capOf (opts ≫= composioConfig)) ->
  exists e w',
    execute opts params w = (Throw e, w')
    /\ brokerLog w' = brokerLog w
    /\ (forall client w1,
          getComposioClient (opts ≫= composioConfig) w = (Some client, w1) ->
          e = ErrorObj
                match resolveAppNames params with
                | None | Some [] => "appNames required for connect_multiple"
                | Some _ =>
                    "Cannot connect more than "
                    +:+ pretty (capOf (opts ≫= composioConfig))
                    +:+ " services at once"
                end).
Proof.
  intros Ha Hbad.
  pose proof (ClientFacts.getComposioClient_frame (opts ≫= composioConfig) w)
    as (Hlog & _).
  destruct (getComposioClient (opts ≫= composioConfig) w) as [[client|] w1] eqn:Hc.
  - rewrite (execute_connect_multiple _ _ _ _ _ Ha Hc). simpl in Hlog.
    unfold connectMultiple.
    destruct Hbad as [H|[H|(names & H & Hgt)]]; rewrite H.
    + eexists _, _. split; [reflexivity|]. split; [exact Hlog|]. reflexivity.
    + eexists _, _. split; [reflexivity|]. split; [exact Hlog|]. reflexivity.
    + destruct names as [|n names];
        [eexists _, _; split; [reflexivity|]; split; [exact Hlog|]; reflexivity|].
      destruct (Z.gtb_spec (Z.of_nat (length (n :: names)))
                           (capOf (opts ≫= composioConfig))) as [_|Hle]; [|lia].
      eexists _, _. split; [reflexivity|]. split; [exact Hlog|]. reflexivity.
  - rewrite (execute_unconfigured _ _ _ _ _ Ha Hc). simpl in Hlog.
    eexists _, _. split; [reflexivity|]. split; [exact Hlog|].
    intros client w1' [=].
Qed.

Lemma resolveAppNames_cases params :
  match resolveAppNames params with
  | None =>
      readStringArrayParam params "appNames" = None
      /\ truthy_opt (readStringParam params "appName") = false
  | Some [] => readStringArrayParam params "appNames" = Some []
  | Some (n :: l) =>
      readStringArrayParam params "appNames" = Some (n :: l)
      \/ (readStringArrayParam params "appNames" = None
          /\ readStringParam params "appName" = Some n /\ truthy n = true /\ l = [])
  end.
Proof.
  unfold resolveAppNames.
  destruct (readStringArrayParam params "appNames") as [[|n l]|]; [reflexivity|now left|].
  destruct (readStringParam params "appName") as [n|]; simpl; [|tauto].
  destruct (truthy n) eqn:E; simpl; tauto.
Qed.

(** C10. With a client at hand: when [appNames] reads as [undefined] and
    [appName] reads as a non-empty string, [connect_multiple] runs the batch
    of that one name (within a cap of at least one); and it fails with the
    [appNames required] error exactly when [appNames] reads as [undefined]
    and [appName] as [undefined] or empty, or [appNames] reads as the empty
    list. *)
Theorem connect_multiple_falls_back_to_appName opts params w client w1 :
  readStringParam_required params "action" = inr "connect_multiple" ->
  getComposioClient (opts ≫= composioConfig) w = (Some client, w1) ->
  (forall name,
      readStringArrayParam params "appNames" = None ->
      readStringParam params "appName" = Some name ->
      truthy name = true ->
      1 <= capOf (opts ≫= composioConfig) ->
      let req := requestFor (entityIdOf opts params) params name in
      execute opts params w
      = (Ok (PConnectMultiple
               [itemOf name (initiate (remote w1) client (brokerLog w1) req)]
               batchMessage),
         log_call (CallInitiate req) w1))
  /\ ((exists w', execute opts params w
                 = (Throw (ErrorObj "appNames required for connect_multiple"), w'))
      <-> (readStringArrayParam params "appNames" = None
           /\ truthy_opt (readStringParam params "appName") = false)
          \/ readStringArrayParam params "appNames" = Some []).
Proof.
  intros Ha Hc. split.
  - intros name Harr Hname Htruthy Hcap req.
    assert (Hn : resolveAppNames params = Some [name]).
    { unfold resolveAppNames. now rewrite Harr, Hname; simpl; rewrite Htruthy. }
    rewrite (execute_connect_multiple _ _ _ _ _ Ha Hc).
    rewrite (connectMultiple_run _ _ _ _ [name] _ Hn); [reflexivity|discriminate|].
    simpl length. lia.
  - rewrite (execute_connect_multiple _ _ _ _ _ Ha Hc).
    pose proof (resolveAppNames_cases params) as Hcases.
    unfold connectMultiple.
    destruct (resolveAppNames params) as [[|n l]|] eqn:Hn.
    + split; [intros _; now right|intros _; eexists; reflexivity].
    + split.
      * intros [w' H]. exfalso.
        destruct (Z.of_nat (length (n :: l)) >? capOf (opts ≫= composioConfig)).
        -- unfold throw in H. simpl in H. discriminate H.
        -- unfold bind in H. rewrite promise_all_connect in H. discriminate H.
      * intros [[Harr Hfalsy]|Harr]; exfalso.
        -- destruct Hcases as [H|(_ & Hname & Ht & _)]; [congruence|].
           rewrite Hname in Hfalsy. simpl in Hfalsy. congruence.
        -- destruct Hcases as [H|(H & _)]; congruence.
    + split; [intros _; now left|intros _; eexists; reflexivity].
Qed.

(** [getConnectionStatus]: one [get] at the broker, and the account read
    off its answer. *)
Lemma getConnectionStatus_run client accountId w :
  getConnectionStatus client accountId w
  = (match get (remote w) client (brokerLog w) accountId with
     | inl e => Throw e
     | inr raw =>
         Ok {| id := toStr (prop raw "id") accountId;
               appName := appName_of raw;
               status := toStr (prop raw "status") "INITIATED";
               createdAt := toStr (prop raw "createdAt") EmptyString;
               updatedAt := toStr (prop raw "updatedAt") EmptyString |}
     end, log_call (CallGet accountId) w).
Proof.
  unfold getConnectionStatus, try_catch, bind, call, ret, throw.
  destruct (get _ _ _ _); reflexivity.
Qed.

(** An answer without a [status] property is reported as [INITIATED]. *)
Lemma getConnectionStatus_default client accountId w raw :
  get (remote w) client (brokerLog w) accountId = inr raw ->
  raw !! "status" = None ->
  exists account,
    getConnectionStatus client accountId w
    = (Ok account, log_call (CallGet accountId) w)
    /\ status account = "INITIATED".
Proof.
  intros Hg Hs. rewrite getConnectionStatus_run, Hg.
  eexists. split; [reflexivity|]. simpl. unfold prop. now rewrite Hs.
Qed.

(** C6, as amended. Every [status] call asks the broker, and nothing is
    kept from one call to the next: when the broker answers [raw1] and
    then, asked again, [raw2], the first result is read off [raw1] and the
    second off [raw2].  The status of a result is the status of the answer
    it is read off, verbatim, when that is a string, and its text when it is
    a number or a boolean; for any other answer (no status, [null], a list,
    an object) it is ["INITIATED"], which the code supplies itself. *)
Theorem status_is_reported_or_INITIATED opts params w client w1 accountId raw1 raw2 :
  readStringParam_required params "action" = inr "status" ->
  getComposioClient (opts ≫= composioConfig) w = (Some client, w1) ->
  readStringParam_required params "connectedAccountId" = inr accountId ->
  get (remote w1) client (brokerLog w1) accountId = inr raw1 ->
  get (remote w1) client (brokerLog w1 ++ [CallGet accountId]) accountId = inr raw2 ->
  exists a1 w2 a2 w3,
    execute opts params w = (Ok (PStatus a1), w2)
    /\ brokerLog w2 = brokerLog w1 ++ [CallGet accountId]
    /\ execute opts params w2 = (Ok (PStatus a2), w3)
    /\ brokerLog w3 = brokerLog w2 ++ [CallGet accountId]
    /\ forall raw a, (raw = raw1 /\ a = a1) \/ (raw = raw2 /\ a = a2) ->
         match raw !! "status" with
         | Some (VString s) => status a = s
         | Some (VNumber text) => status a = text
         | Some (VBool b) => status a = if b then "true" else "false"
         | Some VUndefined | Some VNull | Some (VArray _) | Some (VObject _) | None =>
             status a = "INITIATED"
         end.
Proof.
  intros Ha Hc Hid Hg1 Hg2.
  assert (Hc2 : getComposioClient (opts ≫= composioConfig)
                  (log_call (CallGet accountId) w1)
                = (Some client, log_call (CallGet accountId) w1)).
  { apply (ClientFacts.getComposioClient_again _ w _ w1); [exact Hc|..]; reflexivity. }
  assert (Hread : forall raw,
            match raw !! "status" with
            | Some (VString s) => toStr (prop raw "status") "INITIATED" = s
            | Some (VNumber text) => toStr (prop raw "status") "INITIATED" = text
            | Some (VBool b) =>
                toStr (prop raw "status") "INITIATED" = if b then "true" else "false"
            | Some VUndefined | Some VNull | Some (VArray _) | Some (VObject _) | None =>
                toStr (prop raw "status") "INITIATED" = "INITIATED"
            end).
  { intros raw. unfold prop. destruct (raw !! "status") as [[| |[]| | | |]|]; reflexivity. }
  rewrite (execute_status _ _ _ _ _ Ha Hc).
  unfold bind at 1. unfold lift at 1. rewrite Hid. unfold ret at 1. cbv beta iota.
  unfold bind at 1. rewrite getConnectionStatus_run, Hg1. cbv beta iota.
  eexists _, _, _, _. split; [reflexivity|]. split; [reflexivity|].
  rewrite (execute_status _ _ _ _ _ Ha Hc2).
  unfold bind at 1. unfold lift at 1. rewrite Hid. unfold ret at 1. cbv beta iota.
  unfold bind at 1. rewrite getConnectionStatus_run.
  change (remote (log_call (CallGet accountId) w1)) with (remote w1).
  change (brokerLog (log_call (CallGet accountId) w1))
    with (brokerLog w1 ++ [CallGet accountId]).
  rewrite Hg2. cbv beta iota.
  split; [reflexivity|]. split; [reflexivity|].
  intros raw a [[-> ->]|[-> ->]]; simpl; apply Hread.
Qed.

(** The [connect] case: the name is submitted upper-cased and returned as
    it was read. *)
Lemma execute_connect_run opts params w client w1 name cr :
  readStringParam_required params "action" = inr "connect" ->
  getComposioClient (opts ≫= composioConfig) w = (Some client, w1) ->
  readStringParam_required params "appName" = inr name ->
  let req := {| reqEntityId := entityIdOf opts params;
                reqAppName := toUpperCase name;
                reqRedirectUri := readStringParam params "redirectUri" |} in
  initiate (remote w1) client (brokerLog w1) req = inr cr ->
  execute opts params w
  = (Ok (PConnect
           {| connectedAccountId := crConnectedAccountId cr;
              redirectUrl := default EmptyString (crRedirectUrl cr) |}
           ("Send the following link to the user to authorize " +:+ name +:+ ":")
           (default EmptyString (crRedirectUrl cr))
           name),
     log_call (CallInitiate req) w1).
Proof.
  intros Ha Hc Hname req Hreply.
  rewrite (execute_connect _ _ _ _ _ Ha Hc).
  unfold bind at 1. unfold lift at 1. rewrite Hname. unfold ret at 1. cbv beta iota.
  unfold bind, initiateConnection, try_catch, bind, call, ret, throw. simpl.
  fold req. rewrite Hreply. reflexivity.
Qed.

End Tool.

Lemma connect_multiple_isolates_failures_witness :
  exists results w2,
    execute (H := plainReaders) None Sample.batchArgs Sample.process
    = (Ok (PConnectMultiple results batchMessage), w2)
    /\ length results = 3%nat
    /\ (forall i item, results !! i = Some item ->
          (failureShape item <-> i = 1%nat) /\ (successShape item <-> i <> 1%nat)).
Proof.
  destruct (connect_multiple_isolates_failures (readers := plainReaders)
              None Sample.batchArgs Sample.process Sample.firstClient
              (snd (getComposioClient None Sample.process))
              ["gmail"; "slack"; "github"])
    as (results & w2 & Hrun & Hlen & _ & Hk & _);
    [reflexivity|reflexivity|reflexivity|discriminate|vm_compute; discriminate|].
  exists results, w2. split; [exact Hrun|]. split; [exact Hlen|].
  apply Hk. intros [|[|[|i]]] reply; simpl; intros [= <-]; simpl; split;
    intros; try lia; try tauto; try discriminate.
Defined.

Lemma connect_multiple_rejects_whole_batch_witness :
  exists e w',
    execute (H := plainReaders)
      (Some (Sample.optionsWith (Sample.configWithCap 2))) Sample.batchArgs Sample.process
    = (Throw e, w')
    /\ brokerLog w' = [].
Proof.
  destruct (connect_multiple_rejects_whole_batch (readers := plainReaders)
              (Some (Sample.optionsWith (Sample.configWithCap 2)))
              Sample.batchArgs Sample.process)
    as (e & w' & Hrun & Hlog & _).
  - reflexivity.
  - right; right. exists ["gmail"; "slack"; "github"]. split; [reflexivity|].
    vm_compute. reflexivity.
  - exists e, w'. split; [exact Hrun|exact Hlog].
Defined.

Lemma connect_multiple_falls_back_to_appName_witness :
  exists item w',
    execute (H := plainReaders) None Sample.singleArgs Sample.process
    = (Ok (PConnectMultiple [item] batchMessage), w')
    /\ itemAppName item = "GMAIL".
Proof.
  pose proof (proj1 (connect_multiple_falls_back_to_appName (readers := plainReaders)
                       None Sample.singleArgs Sample.process Sample.firstClient
                       (snd (getComposioClient None Sample.process))
                       eq_refl eq_refl)
                    "gmail" eq_refl eq_refl eq_refl) as Hrun.
  eexists _, _. split; [apply Hrun; vm_compute; discriminate|reflexivity].
Defined.

Lemma status_is_reported_or_INITIATED_witness :
  exists a1 w2 a2 w3,
    execute (H := plainReaders) None Sample.statusArgs Sample.agingProcess
    = (Ok (PStatus a1), w2)
    /\ status a1 = "ACTIVE"
    /\ execute (H := plainReaders) None Sample.statusArgs w2 = (Ok (PStatus a2), w3)
    /\ status a2 = "EXPIRED".
Proof.
  destruct (status_is_reported_or_INITIATED (readers := plainReaders)
              None Sample.statusArgs Sample.agingProcess Sample.firstClient
              (snd (getComposioClient None Sample.agingProcess)) "acc-1"
              (Sample.accountRecord "acc-1" "ACTIVE")
              (Sample.accountRecord "acc-1" "EXPIRED"))
    as (a1 & w2 & a2 & w3 & H1 & _ & H2 & _ & Hs);
    [reflexivity|reflexivity|reflexivity|reflexivity|reflexivity|].
  exists a1, w2, a2, w3.
  split; [exact H1|]. split; [exact (Hs _ a1 (or_introl (conj eq_refl eq_refl)))|].
  split; [exact H2|]. exact (Hs _ a2 (or_intror (conj eq_refl eq_refl))).
Defined.

(** C6, as first stated, fails where the broker reports no status: asked
    for the account ["acc-1"], the broker answers with a record that has no
    [status] property, and the result of the [status] action carries
    ["INITIATED"], a status the broker did not report. *)
Lemma status_inferred_when_unreported :
  exists raw account w',
    get Sample.silentBroker Sample.firstClient [] "acc-1" = inr raw
    /\ raw !! "status" = None
    /\ execute (H := plainReaders) None Sample.statusArgs Sample.silentProcess
       = (Ok (PStatus account), w')
    /\ brokerLog w' = [CallGet "acc-1"]
    /\ status account = "INITIATED"
    /\ raw !! "status" <> Some (VString (status account)).
Proof.
  eexists _, _, _. split; [reflexivity|]. split; [reflexivity|].
  split; [vm_compute; reflexivity|]. split; [reflexivity|].
  split; [reflexivity|]. discriminate.
Qed.

(** C7, at the request [connect] of ["gmail"]: the broker is asked for
    ["GMAIL"], and the result carries the name ["gmail"], as it was read and
    not upper-cased, where the entries of [connect_multiple] carry
    [name.toUpperCase()]. *)
Theorem connect_returns_the_name_as_read :
  exists result message authUrl w',
    execute (H := plainReaders) None Sample.connectArgs Sample.process
    = (Ok (PConnect result message authUrl "gmail"), w')
    /\ brokerLog w'
       = [CallInitiate {| reqEntityId := "default"; reqAppName := "GMAIL";
                          reqRedirectUri := None |}]
    /\ toUpperCase "gmail" = "GMAIL"
    /\ "gmail" <> toUpperCase "gmail".
Proof.
  eexists _, _, _, _. split; [|split; [|split]].
  - apply (execute_connect_run (readers := plainReaders)
             None Sample.connectArgs Sample.process Sample.firstClient
             (snd (getComposioClient None Sample.process)) "gmail");
      reflexivity.
  - reflexivity.
  - reflexivity.
  - discriminate.
Qed.

End ToolFacts.

(* ===================================================================== *)
(** * Theorems: provisioning *)
(* ===================================================================== *)

Module OnboardFacts.

Import Js Exc Onboard.

Section Handler.

Context `{platform : Platform}.

(** ** The file-system operations *)

Lemma bind_ok_inv {W A B} (c : M W A) (k : A -> M W B) w b w' :
  bind c k w = (Ok b, w') ->
  exists a w1, c w = (Ok a, w1) /\ k a w1 = (Ok b, w').
Proof.
  unfold bind. destruct (c w) as [[a|e] w1]; [eauto|discriminate].
Qed.

Lemma mkdir_ok_inv path w w1 :
  mkdir path true w = (Ok tt, w1) ->
  faults w (OpMkdir path) = None
  /\ w1 = perform (Mkdir path) ({[path]} ∪ list_to_set (ancestors path) ∪ dirs w)
                  (files w) (configFile w) w.
Proof.
  unfold mkdir. destruct (faults w (OpMkdir path)); [discriminate|].
  now intros [= <-].
Qed.

(** Where a directory is, a recursive [mkdir] of it adds none. *)
Lemma existing_directory_absorbs path (d : gset string) :
  path ∈ d -> upward_closed d ->
  {[path]} ∪ list_to_set (ancestors path) ∪ d = d.
Proof.
  intros Hin Hup. apply leibniz_equiv. intros x.
  rewrite !elem_of_union, elem_of_singleton, elem_of_list_to_set.
  split; [|tauto].
  intros [[->|Hx]|Hx]; [exact Hin| |exact Hx].
  exact (proj1 (Forall_forall _ _) (Hup _ Hin) _ Hx).
Qed.

Lemma writeFile_ok_inv path content w w1 :
  writeFile path content w = (Ok tt, w1) ->
  faults w (OpWriteFile path) = None
  /\ w1 = perform (WriteFile path content) (dirs w)
                  (<[path := content]> (files w)) (configFile w) w.
Proof.
  unfold writeFile. destruct (faults w (OpWriteFile path)); [discriminate|].
  now intros [= <-].
Qed.

Lemma writeConfigFile_ok_inv cfg w w1 :
  writeConfigFile cfg w = (Ok tt, w1) ->
  faults w OpWriteConfig = None
  /\ w1 = perform (WriteConfig cfg) (dirs w) (files w) cfg w.
Proof.
  unfold writeConfigFile. destruct (faults w OpWriteConfig); [discriminate|].
  now intros [= <-].
Qed.

(** An existing directory is not an error for a recursive [mkdir], which
    then leaves directories and files as they are. *)
Lemma mkdir_recursive_idempotent path w :
  path ∈ dirs w ->
  upward_closed (dirs w) ->
  faults w (OpMkdir path) = None ->
  exists w1,
    mkdir path true w = (Ok tt, w1)
    /\ dirs w1 = dirs w /\ files w1 = files w /\ configFile w1 = configFile w.
Proof.
  intros Hin Hup Hf. unfold mkdir. rewrite Hf.
  eexists. split; [reflexivity|]. simpl.
  split; [now apply existing_directory_absorbs|tauto].
Qed.

(** ** The handler, case by case *)

Lemma simple_invalid params w :
  validateOnboardSimpleParams params = false ->
  onboard_simple params w
  = (Ok (Failure INVALID_REQUEST
           ("invalid onboard.simple params: " +:+ formatValidationErrors params)), w).
Proof. intros Hv. unfold onboard_simple. now rewrite Hv. Qed.

Lemma simple_unknown_recipe params w :
  validateOnboardSimpleParams params = true ->
  Recipes.getRecipe (recipeIdOf params) = None ->
  onboard_simple params w
  = (Ok (Failure INVALID_REQUEST
           ("unknown recipe: " +:+ dq +:+ recipeIdOf params +:+ dq)), w).
Proof.
  intros Hv Hr. unfold onboard_simple. rewrite Hv. cbv beta iota zeta delta [negb].
  fold (recipeIdOf params). now rewrite Hr.
Qed.

Lemma simple_reserved params w recipe :
  validateOnboardSimpleParams params = true ->
  Recipes.getRecipe (recipeIdOf params) = Some recipe ->
  agentOf params = DEFAULT_AGENT_ID ->
  onboard_simple params w
  = (Ok (Failure INVALID_REQUEST (dq +:+ DEFAULT_AGENT_ID +:+ dq +:+ " is reserved")), w).
Proof.
  intros Hv Hr Ha. unfold onboard_simple. rewrite Hv. cbv beta iota zeta delta [negb].
  fold (recipeIdOf params). rewrite Hr.
  fold (botNameOf params). fold (agentOf params).
  now rewrite Ha, String.eqb_refl.
Qed.

Lemma simple_duplicate params w recipe :
  validateOnboardSimpleParams params = true ->
  Recipes.getRecipe (recipeIdOf params) = Some recipe ->
  agentOf params <> DEFAULT_AGENT_ID ->
  0 <= findAgentEntryIndex (listAgentEntries (configFile w)) (agentOf params) ->
  onboard_simple params w
  = (Ok (Failure INVALID_REQUEST
           ("agent " +:+ dq +:+ agentOf params +:+ dq +:+ " already exists")), w).
Proof.
  intros Hv Hr Ha Hdup. unfold onboard_simple. rewrite Hv. cbv beta iota zeta delta [negb].
  fold (recipeIdOf params). rewrite Hr.
  fold (botNameOf params). fold (agentOf params).
  rewrite (proj2 (String.eqb_neq _ _) Ha).
  unfold bind, loadConfig, gets. cbv beta iota.
  now rewrite (proj2 (Z.leb_le _ _) Hdup).
Qed.

Lemma simple_fresh params w recipe :
  validateOnboardSimpleParams params = true ->
  Recipes.getRecipe (recipeIdOf params) = Some recipe ->
  agentOf params <> DEFAULT_AGENT_ID ->
  findAgentEntryIndex (listAgentEntries (configFile w)) (agentOf params) < 0 ->
  onboard_simple params w = provision (configFile w) params recipe w.
Proof.
  intros Hv Hr Ha Hnew. unfold onboard_simple. rewrite Hv. cbv beta iota zeta delta [negb].
  fold (recipeIdOf params). rewrite Hr.
  fold (botNameOf params). fold (agentOf params).
  rewrite (proj2 (String.eqb_neq _ _) Ha).
  unfold bind at 1. unfold loadConfig, gets. cbv beta iota.
  rewrite (proj2 (Z.leb_gt _ _) Hnew).
  reflexivity.
Qed.

(** The four checks decide which case applies. *)
Lemma simple_cases params w :
  validateOnboardSimpleParams params = false
  \/ (validateOnboardSimpleParams params = true
      /\ Recipes.getRecipe (recipeIdOf params) = None)
  \/ (exists recipe,
        validateOnboardSimpleParams params = true
        /\ Recipes.getRecipe (recipeIdOf params) = Some recipe
        /\ (agentOf params = DEFAULT_AGENT_ID
            \/ (agentOf params <> DEFAULT_AGENT_ID
                /\ 0 <= findAgentEntryIndex (listAgentEntries (configFile w))
                                            (agentOf params))
            \/ (agentOf params <> DEFAULT_AGENT_ID
                /\ findAgentEntryIndex (listAgentEntries (configFile w))
                                       (agentOf params) < 0))).
Proof.
  destruct (validateOnboardSimpleParams params); [|now left].
  destruct (Recipes.getRecipe (recipeIdOf params)) as [recipe|]; [|right; left; tauto].
  right; right. exists recipe. split; [reflexivity|]. split; [reflexivity|].
  destruct (decide (agentOf params = DEFAULT_AGENT_ID)); [now left|].
  destruct (Z_lt_le_dec
              (findAgentEntryIndex (listAgentEntries (configFile w)) (agentOf params)) 0);
    tauto.
Qed.

(** ** A successful provisioning, operation by operation *)

Lemma writeWorkspaceFiles_ok_inv workspaceDir botName userName recipe w w1 :
  writeWorkspaceFiles workspaceDir botName userName recipe w = (Ok tt, w1) ->
  effects w1
  = effects w ++ map (fun f => WriteFile (path_join workspaceDir f.1) f.2)
                     (workspaceFileList botName userName recipe)
  /\ dirs w1 = dirs w /\ configFile w1 = configFile w /\ faults w1 = faults w.
Proof.
  unfold writeWorkspaceFiles, workspaceFileList. intros H.
  apply bind_ok_inv in H as ([] & wa & Ha & H). apply writeFile_ok_inv in Ha as [_ ->].
  apply bind_ok_inv in H as ([] & wb & Hb & H). apply writeFile_ok_inv in Hb as [_ ->].
  apply bind_ok_inv in H as ([] & wc & Hc & H). apply writeFile_ok_inv in Hc as [_ ->].
  apply bind_ok_inv in H as ([] & wd & Hd & H). apply writeFile_ok_inv in Hd as [_ ->].
  destruct (Recipes.tools recipe) as [t|]; simpl in *.
  - destruct (truthy t).
    + apply writeFile_ok_inv in H as [_ ->]. simpl.
      rewrite <- !app_assoc. simpl. tauto.
    + injection H as <-. simpl. rewrite <- !app_assoc. simpl. tauto.
  - injection H as <-. simpl. rewrite <- !app_assoc. simpl. tauto.
Qed.

Lemma provision_ok_inv cfg params recipe w resp w' :
  provision cfg params recipe w = (Ok resp, w') ->
  resp = SimpleOk {| resAgentId := agentOf params;
                     resWorkspace := workspaceDirOf cfg (agentOf params);
                     resRecipeId := Recipes.id recipe;
                     resModel := SIMPLE_ONBOARD_MODEL |}
  /\ effects w' = effects w ++ provisioningEffects cfg params recipe
  /\ configFile w'
     = buildConfig cfg (agentOf params) (botNameOf params)
                   (workspaceDirOf cfg (agentOf params)) (entityIdOf params)
  /\ faults w' = faults w
  /\ {[ workspaceDirOf cfg (agentOf params);
        resolveSessionTranscriptsDirForAgent (agentOf params) ]} ⊆ dirs w'.
Proof.
  unfold provision, ensureAgentWorkspace, provisioningEffects. intros H.
  apply bind_ok_inv in H as ([] & wa & Ha & H). apply mkdir_ok_inv in Ha as [_ ->].
  apply bind_ok_inv in H as ([] & wb & Hb & H). apply mkdir_ok_inv in Hb as [_ ->].
  apply bind_ok_inv in H as ([] & wc & Hc & H). apply writeConfigFile_ok_inv in Hc as [_ ->].
  apply bind_ok_inv in H as ([] & wd & Hd & H).
  apply writeWorkspaceFiles_ok_inv in Hd as (He & Hdirs & Hcfg & Hf).
  injection H as <- <-.
  split; [reflexivity|]. rewrite He, Hdirs, Hcfg, Hf. simpl.
  split; [now rewrite <- !app_assoc|]. split; [reflexivity|]. split; [reflexivity|].
  set_solver.
Qed.

(** On a machine where no operation fails, the provisioning goes through. *)
Lemma writeFile_runs path content w :
  faults w (OpWriteFile path) = None ->
  writeFile path content w
  = (Ok tt, perform (WriteFile path content) (dirs w)
                    (<[path := content]> (files w)) (configFile w) w).
Proof. intros Hf. unfold writeFile. now rewrite Hf. Qed.

Lemma provision_runs cfg params recipe w :
  (forall op, faults w op = None) ->
  exists resp w', provision cfg params recipe w = (Ok resp, w').
Proof.
  intros Hf. unfold provision, ensureAgentWorkspace, writeWorkspaceFiles.
  assert (Hmk : forall path v, (forall op, faults v op = None) ->
            exists v', mkdir path true v = (Ok tt, v')
                       /\ (forall op, faults v' op = None)).
  { intros path v Hv. unfold mkdir. rewrite Hv.
    eexists; (split; [reflexivity|exact Hv]). }
  destruct (Hmk (workspaceDirOf cfg (agentOf params)) w Hf) as (wa & Ha & Hfa).
  destruct (Hmk (resolveSessionTranscriptsDirForAgent (agentOf params)) wa Hfa)
    as (wb & Hb & Hfb).
  unfold bind. rewrite Ha, Hb. unfold writeConfigFile. rewrite Hfb.
  rewrite writeFile_runs by apply Hfb.
  rewrite writeFile_runs by apply Hfb.
  rewrite writeFile_runs by apply Hfb.
  rewrite writeFile_runs by apply Hfb.
  destruct (Recipes.tools recipe) as [t|]; [destruct (truthy t)|];
    try rewrite writeFile_runs by apply Hfb; eexists _, _; reflexivity.
Qed.

(** C4. A request that fails a check made before the configuration is
    computed (invalid parameters, unknown recipe, reserved agent id,
    agent id already registered) is answered with an [INVALID_REQUEST]
    failure and leaves the machine exactly as it was: no directory, no file,
    no configuration written.  For an unknown recipe the message is
    [unknown recipe: "<id>"]. *)
Theorem simple_early_failure_has_no_effect params w :
  validateOnboardSimpleParams params = false
  \/ Recipes.getRecipe (recipeIdOf params) = None
  \/ agentOf params = DEFAULT_AGENT_ID
  \/ 0 <= findAgentEntryIndex (listAgentEntries (configFile w)) (agentOf params) ->
  (exists message,
      onboard_simple params w = (Ok (Failure INVALID_REQUEST message), w))
  /\ (validateOnboardSimpleParams params = true ->
      Recipes.getRecipe (recipeIdOf params) = None ->
      onboard_simple params w
      = (Ok (Failure INVALID_REQUEST
               ("unknown recipe: " +:+ dq +:+ recipeIdOf params +:+ dq)), w)).
Proof.
  intros Hearly. split; [|apply simple_unknown_recipe].
  destruct (simple_cases params w)
    as [Hv|[[Hv Hr]|(recipe & Hv & Hr & [Ha|[[Ha Hdup]|[Ha Hnew]]])]].
  - eexists. now apply simple_invalid.
  - eexists. now apply simple_unknown_recipe.
  - eexists. now apply (simple_reserved _ _ recipe).
  - eexists. now apply (simple_duplicate _ _ recipe).
  - exfalso. destruct Hearly as [H|[H|[H|H]]]; try congruence. lia.
Qed.

Lemma strictly_before_prefix (P Q : Effect -> Prop) (head tail : list Effect) :
  (forall e, e ∈ head -> ~ Q e) ->
  (forall e, e ∈ tail -> ~ P e) ->
  strictly_before P Q (head ++ tail).
Proof.
  intros Hhead Htail i j a b Hi Hj Pa Qb.
  destruct (decide (i < length head)%nat) as [Hlt|Hge].
  - destruct (decide (j < length head)%nat) as [Hjlt|Hjge]; [|lia].
    rewrite lookup_app_l in Hj by exact Hjlt.
    exfalso. apply (Hhead b); [eapply list_elem_of_lookup_2, Hj|exact Qb].
  - rewrite lookup_app_r in Hi by lia.
    exfalso. apply (Htail a); [eapply list_elem_of_lookup_2, Hi|exact Pa].
Qed.

(** The directories after a successful provisioning. *)
Lemma provision_ok_dirs cfg params recipe w resp w' :
  provision cfg params recipe w = (Ok resp, w') ->
  dirs w'
  = {[resolveSessionTranscriptsDirForAgent (agentOf params)]}
    ∪ list_to_set (ancestors (resolveSessionTranscriptsDirForAgent (agentOf params)))
    ∪ ({[workspaceDirOf cfg (agentOf params)]}
       ∪ list_to_set (ancestors (workspaceDirOf cfg (agentOf params)))
       ∪ dirs w).
Proof.
  unfold provision, ensureAgentWorkspace. intros H.
  apply bind_ok_inv in H as ([] & wa & Ha & H). apply mkdir_ok_inv in Ha as [_ ->].
  apply bind_ok_inv in H as ([] & wb & Hb & H). apply mkdir_ok_inv in Hb as [_ ->].
  apply bind_ok_inv in H as ([] & wc & Hc & H). apply writeConfigFile_ok_inv in Hc as [_ ->].
  apply bind_ok_inv in H as ([] & wd & Hd & H).
  apply writeWorkspaceFiles_ok_inv in Hd as (_ & Hdirs & _).
  injection H as _ <-. rewrite Hdirs. reflexivity.
Qed.

(** C5. In every execution of [onboard.simple] that answers with success,
    the operations performed are, in this order: the creation of the
    workspace directory, the creation of the session-transcripts directory,
    the write of the configuration, and then the writes of the workspace
    files; so every directory creation comes strictly before the
    configuration write, and the configuration write strictly before every
    file write.  Directory creation is idempotent in the handler: a request
    that passes the four checks, on a machine without other faults, is
    answered with success whichever directories exist already; afterwards
    both directories exist and none is lost, and when the workspace and the
    transcripts directory were both there already the directories are left
    exactly as they were. *)
Theorem simple_orders_its_effects params w :
  (forall result w',
      onboard_simple params w = (Ok (SimpleOk result), w') ->
      exists recipe,
        Recipes.getRecipe (recipeIdOf params) = Some recipe
        /\ effects w' = effects w ++ provisioningEffects (configFile w) params recipe
        /\ provisioningEffects (configFile w) params recipe
           = [ Mkdir (resWorkspace result);
               Mkdir (resolveSessionTranscriptsDirForAgent (resAgentId result));
               WriteConfig (configFile w') ]
             ++ map (fun f => WriteFile (path_join (resWorkspace result) f.1) f.2)
                    (workspaceFileList (botNameOf params) (userNameOf params) recipe)
        /\ strictly_before isMkdir isWriteConfig
             (provisioningEffects (configFile w) params recipe)
        /\ strictly_before isWriteConfig isWriteFile
             (provisioningEffects (configFile w) params recipe))
  /\ (forall recipe,
        validateOnboardSimpleParams params = true ->
        Recipes.getRecipe (recipeIdOf params) = Some recipe ->
        agentOf params <> DEFAULT_AGENT_ID ->
        findAgentEntryIndex (listAgentEntries (configFile w)) (agentOf params) < 0 ->
        (forall op, faults w op = None) ->
        exists result w',
          onboard_simple params w = (Ok (SimpleOk result), w')
          /\ dirs w ⊆ dirs w'
          /\ workspaceDirOf (configFile w) (agentOf params) ∈ dirs w'
          /\ resolveSessionTranscriptsDirForAgent (agentOf params) ∈ dirs w'
          /\ (workspaceDirOf (configFile w) (agentOf params) ∈ dirs w ->
              resolveSessionTranscriptsDirForAgent (agentOf params) ∈ dirs w ->
              upward_closed (dirs w) ->
              dirs w' = dirs w)).
Proof.
  split.
  - intros result w' Hrun.
    destruct (simple_cases params w)
      as [Hv|[[Hv Hr]|(recipe & Hv & Hr & [Ha|[[Ha Hdup]|[Ha Hnew]]])]].
    + rewrite (simple_invalid _ _ Hv) in Hrun. discriminate.
    + rewrite (simple_unknown_recipe _ _ Hv Hr) in Hrun. discriminate.
    + rewrite (simple_reserved _ _ _ Hv Hr Ha) in Hrun. discriminate.
    + rewrite (simple_duplicate _ _ _ Hv Hr Ha Hdup) in Hrun. discriminate.
    + rewrite (simple_fresh _ _ _ Hv Hr Ha Hnew) in Hrun.
      apply provision_ok_inv in Hrun as (Hres & Heff & Hcfg & _ & _).
      injection Hres as ->.
      exists recipe. split; [exact Hr|]. split; [exact Heff|].
      split; [unfold provisioningEffects; simpl; now rewrite Hcfg|].
      unfold provisioningEffects. split.
      * apply (strictly_before_prefix _ _ [_; _] (_ :: _)).
        -- intros e. rewrite !elem_of_cons, elem_of_nil.
           intros [->|[->|[]]]; simpl; tauto.
        -- intros e. rewrite elem_of_cons. intros [->|Hin]; [simpl; tauto|].
           apply list_elem_of_In, in_map_iff in Hin as (f & <- & _). simpl. tauto.
      * apply (strictly_before_prefix _ _ [_; _; _]).
        -- intros e. rewrite !elem_of_cons, elem_of_nil.
           intros [->|[->|[->|[]]]]; simpl; tauto.
        -- intros e Hin. apply list_elem_of_In, in_map_iff in Hin as (f & <- & _).
           simpl. tauto.
  - intros recipe Hv Hr Ha Hnew Hf.
    destruct (provision_runs (configFile w) params recipe w Hf) as (resp & w' & Hp).
    pose proof (provision_ok_dirs _ _ _ _ _ _ Hp) as Hdirs.
    pose proof Hp as Hp'. apply provision_ok_inv in Hp' as (-> & _).
    rewrite <- (simple_fresh _ _ _ Hv Hr Ha Hnew) in Hp.
    eexists _, w'. split; [exact Hp|]. rewrite Hdirs.
    split; [set_solver|]. split; [set_solver|]. split; [set_solver|].
    intros Hws Htr Hup.
    rewrite (existing_directory_absorbs _ _ Hws Hup).
    now rewrite (existing_directory_absorbs _ _ Htr Hup).
Qed.

(** After a successful provisioning the agent is registered. *)
Lemma buildConfig_registers `{!PlatformLaws platform} cfg agent botName dir entity :
  0 <= findAgentEntryIndex (listAgentEntries (buildConfig cfg agent botName dir entity))
                           agent.
Proof.
  unfold buildConfig.
  set (c1 := applyAgentConfig cfg _).
  set (p2 := {| agentId := agent; name := None; workspace := None;
                agentDir := Some (resolveAgentDir c1 agent) |}).
  assert (H2 : 0 <= findAgentEntryIndex
                      (listAgentEntries (applyMinimaxApiConfig (applyAgentConfig c1 p2)))
                      agent).
  { rewrite minimax_keeps_entries. apply (applied_is_found c1 p2). }
  destruct (truthy_opt entity); [|exact H2].
  now rewrite (entries_from_list (enableComposio _)
                 (applyMinimaxApiConfig (applyAgentConfig c1 p2)) eq_refl).
Qed.

Lemma simple_again_is_duplicate `{!PlatformLaws platform} params1 params2 w result w1 :
  onboard_simple params1 w = (Ok (SimpleOk result), w1) ->
  validateOnboardSimpleParams params2 = true ->
  Recipes.getRecipe (recipeIdOf params2) <> None ->
  agentOf params2 = agentOf params1 ->
  resAgentId result = agentOf params1
  /\ onboard_simple params2 w1
     = (Ok (Failure INVALID_REQUEST
              ("agent " +:+ dq +:+ agentOf params1 +:+ dq +:+ " already exists")), w1).
Proof.
  intros Hrun Hv2 Hr2 Hsame.
  destruct (simple_cases params1 w)
    as [Hv|[[Hv Hr]|(recipe & Hv & Hr & [Ha|[[Ha Hdup]|[Ha Hnew]]])]].
  - rewrite (simple_invalid _ _ Hv) in Hrun. discriminate.
  - rewrite (simple_unknown_recipe _ _ Hv Hr) in Hrun. discriminate.
  - rewrite (simple_reserved _ _ _ Hv Hr Ha) in Hrun. discriminate.
  - rewrite (simple_duplicate _ _ _ Hv Hr Ha Hdup) in Hrun. discriminate.
  - rewrite (simple_fresh _ _ _ Hv Hr Ha Hnew) in Hrun.
    apply provision_ok_inv in Hrun as (Hres & _ & Hcfg & _ & _).
    injection Hres as ->. split; [reflexivity|].
    destruct (Recipes.getRecipe (recipeIdOf params2)) as [recipe2|] eqn:Hr2';
      [|congruence].
    rewrite <- Hsame.
    apply (simple_duplicate _ _ recipe2); [exact Hv2|exact Hr2'|congruence|].
    rewrite Hcfg, Hsame. apply buildConfig_registers.
Qed.

(** C2. On a machine where no file-system operation fails, a valid
    [onboard.simple] request for a known recipe and a bot name whose agent
    id is neither reserved nor registered succeeds; a second valid request
    normalizing to the same agent id is then answered with the
    [INVALID_REQUEST] failure [agent "<id>" already exists], and leaves the
    machine (directories, files, persisted configuration, operations
    performed) exactly as the first call left it. *)
Theorem simple_twice_is_duplicate `{!PlatformLaws platform} params1 params2 w :
  validateOnboardSimpleParams params1 = true ->
  Recipes.getRecipe (recipeIdOf params1) <> None ->
  agentOf params1 <> DEFAULT_AGENT_ID ->
  findAgentEntryIndex (listAgentEntries (configFile w)) (agentOf params1) < 0 ->
  (forall op, faults w op = None) ->
  validateOnboardSimpleParams params2 = true ->
  Recipes.getRecipe (recipeIdOf params2) <> None ->
  agentOf params2 = agentOf params1 ->
  exists result w1,
    onboard_simple params1 w = (Ok (SimpleOk result), w1)
    /\ resAgentId result = agentOf params1
    /\ onboard_simple params2 w1
       = (Ok (Failure INVALID_REQUEST
                ("agent " +:+ dq +:+ agentOf params1 +:+ dq +:+ " already exists")), w1).
Proof.
  intros Hv1 Hr1 Ha1 Hnew Hf Hv2 Hr2 Hsame.
  destruct (Recipes.getRecipe (recipeIdOf params1)) as [recipe|] eqn:Hr; [|congruence].
  destruct (provision_runs (configFile w) params1 recipe w Hf) as (resp & w1 & Hp).
  pose proof Hp as Hp'.
  apply provision_ok_inv in Hp' as (-> & _).
  rewrite <- (simple_fresh _ _ _ Hv1 Hr Ha1 Hnew) in Hp.
  eexists _, w1. split; [exact Hp|].
  apply (simple_again_is_duplicate params1 params2 w _ w1 Hp Hv2 Hr2 Hsame).
Qed.

End Handler.

(** The sample platform keeps the registry laws. *)
Lemma indexOf_upsert l p : 0 <= Sample.indexOf (Sample.upsert l p) (agentId p).
Proof.
  induction l as [|e l IH]; simpl.
  - rewrite String.eqb_refl. lia.
  - destruct (String.eqb (entryId e) (agentId p)) eqn:E; simpl.
    + rewrite E. lia.
    + rewrite E. destruct (Z.ltb_spec (Sample.indexOf (Sample.upsert l p) (agentId p)) 0);
        lia.
Qed.

#[export] Instance sample_laws : PlatformLaws Sample.platform.
Proof.
  split.
  - intros cfg p. simpl. apply indexOf_upsert.
  - intros cfg. reflexivity.
  - intros cfg cfg' H. simpl. now rewrite H.
Defined.

Lemma simple_early_failure_has_no_effect_witness :
  onboard_simple (H := Sample.platform)
    (Sample.request "Ada" "Helper" "does-not-exist") Sample.machine
  = (Ok (Failure INVALID_REQUEST ("unknown recipe: " +:+ dq +:+ "does-not-exist" +:+ dq)),
     Sample.machine).
Proof.
  apply (proj2 (simple_early_failure_has_no_effect (platform := Sample.platform)
                  (Sample.request "Ada" "Helper" "does-not-exist") Sample.machine
                  (or_intror (or_introl eq_refl))));
    reflexivity.
Defined.

Lemma usedMachine_upward_closed : upward_closed (dirs Sample.usedMachine).
Proof. unfold upward_closed. apply (bool_decide_unpack _). vm_compute. exact I. Qed.

Lemma simple_orders_its_effects_witness :
  exists recipe result w',
    Recipes.getRecipe "daily-assistant" = Some recipe
    /\ onboard_simple (H := Sample.platform)
         (Sample.request "Ada" "Helper" "daily-assistant") Sample.usedMachine
       = (Ok (SimpleOk result), w')
    /\ dirs w' = dirs Sample.usedMachine
    /\ strictly_before isMkdir isWriteConfig
         (provisioningEffects (H := Sample.platform) (configFile Sample.usedMachine)
            (Sample.request "Ada" "Helper" "daily-assistant") recipe)
    /\ strictly_before isWriteConfig isWriteFile
         (provisioningEffects (H := Sample.platform) (configFile Sample.usedMachine)
            (Sample.request "Ada" "Helper" "daily-assistant") recipe).
Proof.
  destruct (simple_orders_its_effects (platform := Sample.platform)
              (Sample.request "Ada" "Helper" "daily-assistant") Sample.usedMachine)
    as [Hordered Hidempotent].
  destruct (Hidempotent Recipes.daily_assistant)
    as (result & w' & Hrun & _ & _ & _ & Hsame);
    [reflexivity|reflexivity|vm_compute; discriminate|reflexivity|reflexivity|].
  destruct (Hordered result w' Hrun) as (recipe & Hr & _ & _ & H1 & H2).
  exists recipe, result, w'. split; [exact Hr|]. split; [exact Hrun|].
  split; [|split; [exact H1|exact H2]].
  apply Hsame.
  - apply (bool_decide_unpack _). vm_compute. exact I.
  - apply (bool_decide_unpack _). vm_compute. exact I.
  - exact usedMachine_upward_closed.
Defined.

Lemma simple_twice_is_duplicate_witness :
  exists result w1,
    onboard_simple (H := Sample.platform)
      (Sample.request "Ada" "Helper" "daily-assistant") Sample.machine
    = (Ok (SimpleOk result), w1)
    /\ resAgentId result = "helper"
    /\ onboard_simple (H := Sample.platform)
         (Sample.request "Grace" "  helper " "learning-coach") w1
       = (Ok (Failure INVALID_REQUEST
                ("agent " +:+ dq +:+ "helper" +:+ dq +:+ " already exists")), w1).
Proof.
  apply (simple_twice_is_duplicate (platform := Sample.platform)
           (Sample.request "Ada" "Helper" "daily-assistant")
           (Sample.request "Grace" "  helper " "learning-coach") Sample.machine);
    try reflexivity; vm_compute; discriminate.
Defined.

End OnboardFacts.

(* ===================================================================== *)
(** * Further theorems: line sanitizing *)
(* ===================================================================== *)

Module SanitizeFacts.

Import Js Notions.

Lemma collapse_ws_spaces b s c :
  In c (chars (collapse_ws b s)) -> is_space c = true -> c = " "%char.
Proof.
  revert b. induction s as [|a r IH]; intros b; simpl; [tauto|].
  destruct (is_space a) eqn:Ha.
  - destruct b; simpl; [apply IH|].
    intros [<-|Hin] Hc; [reflexivity|now apply (IH true)].
  - simpl. intros [<-|Hin] Hc; [congruence|now apply (IH false)].
Qed.

Lemma collapse_ws_no_run b s :
  no_ws_run (collapse_ws b s)
  /\ (b = true -> forall c, first_char (collapse_ws b s) = Some c -> is_space c = false).
Proof.
  revert b. induction s as [|a r IH]; intros b; simpl.
  - split; [exact I|discriminate].
  - destruct (is_space a) eqn:Ha.
    + destruct b.
      * apply IH.
      * destruct (IH true) as [Hrun Hfirst]. split; [|discriminate].
        simpl. split; [|exact Hrun].
        destruct (collapse_ws true r) as [|d r'] eqn:E; [exact I|].
        intros [_ Hd]. rewrite (Hfirst eq_refl d eq_refl) in Hd. discriminate.
    + destruct (IH false) as [Hrun _]. split.
      * simpl. split; [|exact Hrun].
        destruct (collapse_ws false r); [exact I|]. intros [H _]. congruence.
      * intros _ c [= <-]. exact Ha.
Qed.

Lemma trimStart_chars s c : In c (chars (trimStart s)) -> In c (chars s).
Proof.
  induction s as [|a r IH]; simpl; [tauto|].
  destruct (is_space a); simpl; tauto.
Qed.

Lemma trimStart_no_run s : no_ws_run s -> no_ws_run (trimStart s).
Proof.
  induction s as [|a r IH]; [trivial|].
  intros H. simpl trimStart. destruct (is_space a); [|exact H].
  apply IH. apply H.
Qed.

Lemma trimStart_first s c : first_char (trimStart s) = Some c -> is_space c = false.
Proof.
  induction s as [|a r IH]; simpl; [discriminate|].
  destruct (is_space a) eqn:Ha; [exact IH|].
  simpl. now intros [= <-].
Qed.

Lemma trimEnd_first s c : first_char (trimEnd s) = Some c -> first_char s = Some c.
Proof.
  destruct s as [|a r]; simpl; [discriminate|].
  destruct (trimEnd r); [destruct (is_space a)|]; simpl; congruence.
Qed.

Lemma trimEnd_chars s c : In c (chars (trimEnd s)) -> In c (chars s).
Proof.
  revert c. induction s as [|a r IH]; intros c; simpl; [tauto|].
  destruct (trimEnd r) as [|d r'] eqn:E.
  - destruct (is_space a); simpl; tauto.
  - simpl. intros [<-|H]; [now left|]. right. apply IH. exact H.
Qed.

Lemma trimEnd_no_run s : no_ws_run s -> no_ws_run (trimEnd s).
Proof.
  induction s as [|a r IH]; [trivial|].
  intros [Hpair Hrun]. simpl trimEnd.
  destruct (trimEnd r) as [|d r'] eqn:E.
  - destruct (is_space a); simpl; tauto.
  - specialize (IH Hrun). split; [|exact IH].
    assert (Hd : first_char r = Some d) by (apply trimEnd_first; now rewrite E).
    destruct r as [|d' r'']; [discriminate|]. injection Hd as ->. exact Hpair.
Qed.

Lemma trimEnd_last s c : last_char (trimEnd s) = Some c -> is_space c = false.
Proof.
  induction s as [|a r IH]; simpl; [discriminate|].
  destruct (trimEnd r) as [|d r'] eqn:E.
  - destruct (is_space a) eqn:Ha; simpl; [discriminate|]. now intros [= <-].
  - exact IH.
Qed.

Lemma sanitizeLine_single_spaced s : single_spaced (Onboard.sanitizeLine s).
Proof.
  unfold Onboard.sanitizeLine, trim. split; [|split; [|split]].
  - intros c Hin. apply trimEnd_chars, trimStart_chars in Hin.
    now apply (collapse_ws_spaces false s).
  - apply trimEnd_no_run, trimStart_no_run, collapse_ws_no_run.
  - intros c Hc. apply trimEnd_first in Hc. now apply trimStart_first in Hc.
  - apply trimEnd_last.
Qed.

Lemma collapse_ws_fixed b s :
  (forall c, In c (chars s) -> is_space c = true -> c = " "%char) ->
  no_ws_run s ->
  (b = true -> forall c, first_char s = Some c -> is_space c = false) ->
  collapse_ws b s = s.
Proof.
  revert b. induction s as [|a r IH]; intros b Hsp Hrun Hfirst; [reflexivity|].
  simpl. destruct Hrun as [Hpair Hrun].
  assert (Hsp' : forall c, In c (chars r) -> is_space c = true -> c = " "%char).
  { intros c Hin. apply Hsp. now right. }
  destruct (is_space a) eqn:Ha.
  - destruct b; [rewrite (Hfirst eq_refl a eq_refl) in Ha; discriminate|].
    rewrite (Hsp a (or_introl eq_refl) Ha). f_equal.
    apply IH; [exact Hsp'|exact Hrun|].
    intros _ c Hc. destruct r as [|d r']; [discriminate|]. injection Hc as ->.
    destruct (is_space c) eqn:Hcs; [|reflexivity]. exfalso. apply Hpair. tauto.
  - f_equal. apply IH; [exact Hsp'|exact Hrun|discriminate].
Qed.

Lemma trimStart_fixed s :
  (forall c, first_char s = Some c -> is_space c = false) -> trimStart s = s.
Proof.
  destruct s as [|a r]; [reflexivity|]. intros H. simpl.
  now rewrite (H a eq_refl).
Qed.

Lemma trimEnd_fixed s :
  (forall c, last_char s = Some c -> is_space c = false) -> trimEnd s = s.
Proof.
  induction s as [|a r IH]; [reflexivity|]. intros H. simpl.
  destruct r as [|d r'].
  - simpl. now rewrite (H a eq_refl).
  - rewrite IH by exact H. reflexivity.
Qed.

Lemma sanitizeLine_fixed s : single_spaced s -> Onboard.sanitizeLine s = s.
Proof.
  intros (Hsp & Hrun & Hfirst & Hlast). unfold Onboard.sanitizeLine, trim.
  rewrite collapse_ws_fixed by (try assumption; discriminate).
  rewrite trimStart_fixed by assumption. now apply trimEnd_fixed.
Qed.

(** X1. [sanitizeLine] leaves a line in which white space occurs only as
    single spaces between other characters: no tab, line feed or carriage
    return, no two white-space characters in a row, none at either end;
    and sanitizing a sanitized line changes nothing. *)
Theorem sanitizeLine_normal_form s :
  single_spaced (Onboard.sanitizeLine s)
  /\ Onboard.sanitizeLine (Onboard.sanitizeLine s) = Onboard.sanitizeLine s.
Proof.
  split; [apply sanitizeLine_single_spaced|].
  apply sanitizeLine_fixed, sanitizeLine_single_spaced.
Qed.

End SanitizeFacts.

(* ===================================================================== *)
(** * Further theorems: the broker client *)
(* ===================================================================== *)

Module ClientMoreFacts.

Import Js Exc Composio Notions.

Lemma construct_consistent key url w :
  cache_consistent (snd (construct key url w))
  /\ serials_below (snd (construct key url w)).
Proof.
  split.
  - unfold cache_consistent. simpl. tauto.
  - intros c. simpl. intros [= <-]. simpl. lia.
Qed.

(** X2. The cache of [client.ts] always holds a client under that client's
    own credentials, with a serial below the construction counter; both
    [getComposioClient] and [clearComposioClient] keep it so, and the client
    [getComposioClient] returns, fresh or cached, carries exactly the API
    key and the base URL resolved for this call. *)
Theorem client_cache_invariant config w :
  cache_consistent w ->
  serials_below w ->
  cache_consistent (snd (getComposioClient config w))
  /\ serials_below (snd (getComposioClient config w))
  /\ (forall c, fst (getComposioClient config w) = Some c ->
        resolveApiKey config w = Some (clientApiKey c)
        /\ resolveBaseUrl config w = clientBaseUrl c)
  /\ cache_consistent (clearComposioClient w)
  /\ serials_below (clearComposioClient w).
Proof.
  intros Hcons Hser.
  split; [|split; [apply ClientFacts.getComposioClient_serials, Hser|split; [|split]]].
  - destruct (resolveApiKey config w) as [key|] eqn:Hk.
    + destruct (cachedClient w) as [c|] eqn:Hc.
      * destruct (decide (cachedApiKey w = Some key)) as [Ha|Ha];
          [destruct (decide (cachedBaseUrl w = resolveBaseUrl config w)) as [Hu|Hu]|].
        -- now rewrite (ClientFacts.getComposioClient_hit _ _ _ _ Hk Hc Ha Hu).
        -- rewrite (ClientFacts.getComposioClient_miss _ _ _ Hk) by tauto.
           apply construct_consistent.
        -- rewrite (ClientFacts.getComposioClient_miss _ _ _ Hk) by tauto.
           apply construct_consistent.
      * rewrite (ClientFacts.getComposioClient_miss _ _ _ Hk) by tauto.
        apply construct_consistent.
    + now rewrite (ClientFacts.getComposioClient_disabled _ _ Hk).
  - intros c Hfst.
    destruct (resolveApiKey config w) as [key|] eqn:Hk.
    + destruct (cachedClient w) as [c0|] eqn:Hc.
      * destruct (decide (cachedApiKey w = Some key)) as [Ha|Ha];
          [destruct (decide (cachedBaseUrl w = resolveBaseUrl config w)) as [Hu|Hu]|].
        -- rewrite (ClientFacts.getComposioClient_hit _ _ _ _ Hk Hc Ha Hu) in Hfst.
           simpl in Hfst. injection Hfst as <-.
           unfold cache_consistent in Hcons. rewrite Hc in Hcons.
           destruct Hcons as [H1 H2]. split; congruence.
        -- rewrite (ClientFacts.getComposioClient_miss _ _ _ Hk) in Hfst by tauto.
           simpl in Hfst. injection Hfst as <-. simpl. tauto.
        -- rewrite (ClientFacts.getComposioClient_miss _ _ _ Hk) in Hfst by tauto.
           simpl in Hfst. injection Hfst as <-. simpl. tauto.
      * rewrite (ClientFacts.getComposioClient_miss _ _ _ Hk) in Hfst by tauto.
        simpl in Hfst. injection Hfst as <-. simpl. tauto.
    + rewrite (ClientFacts.getComposioClient_disabled _ _ Hk) in Hfst. discriminate.
  - exact I.
  - apply ClientFacts.clearComposioClient_serials.
Qed.

Lemma client_cache_invariant_witness :
  cache_consistent
    (snd (getComposioClient (Some (Sample.configWithKey " key-2 ")) Sample.process))
  /\ forall c,
       fst (getComposioClient (Some (Sample.configWithKey " key-2 ")) Sample.process)
       = Some c ->
       clientApiKey c = "key-2".
Proof.
  destruct (client_cache_invariant (Some (Sample.configWithKey " key-2 ")) Sample.process)
    as (Hcons & _ & Hcred & _).
  - exact I.
  - intros c. discriminate.
  - split; [exact Hcons|]. intros c Hc. destruct (Hcred c Hc) as [Hk _].
    assert (Hr : resolveApiKey (Some (Sample.configWithKey " key-2 ")) Sample.process
                 = Some "key-2") by reflexivity.
    congruence.
Defined.

End ClientMoreFacts.

(* ===================================================================== *)
(** * Further theorems: the agent tool and the connected accounts *)
(* ===================================================================== *)

Module ToolMoreFacts.

Import Js Exc Composio Notions.

Section Tool.

Context `{readers : ParamReaders}.

Lemma listConnectedAccounts_run client entityId w :
  listConnectedAccounts client entityId w
  = (match getConnections (remote w) client (brokerLog w) entityId with
     | inl e => Throw e
     | inr rs => Ok (map listedAccount rs)
     end, log_call (CallGetConnections entityId) w).
Proof.
  unfold listConnectedAccounts, try_catch, bind, call, ret, throw.
  destruct (getConnections _ _ _ _); reflexivity.
Qed.

Lemma deleteConnection_run client accountId w :
  deleteConnection client accountId w
  = (match delete (remote w) client (brokerLog w) accountId with
     | inl e => Throw e
     | inr u => Ok u
     end, log_call (CallDelete accountId) w).
Proof.
  unfold deleteConnection, try_catch, call, throw.
  destruct (delete _ _ _ _); reflexivity.
Qed.

Lemma executeAction_run client entityId req w :
  executeAction client entityId req w
  = (match entityExecute (remote w) client (brokerLog w) entityId req with
     | inl e => Throw e
     | inr v => Ok (orEmptyObject v)
     end, log_call (CallExecute entityId req) w).
Proof.
  unfold executeAction, try_catch, bind, call, ret, throw.
  destruct (entityExecute _ _ _ _ _); reflexivity.
Qed.

Lemma initiateConnection_run client req w :
  let sent := {| reqEntityId := reqEntityId req;
                 reqAppName := toUpperCase (reqAppName req);
                 reqRedirectUri := reqRedirectUri req |} in
  initiateConnection client req w
  = (match initiate (remote w) client (brokerLog w) sent with
     | inl e => Throw e
     | inr cr =>
         Ok {| connectedAccountId := crConnectedAccountId cr;
               redirectUrl := default EmptyString (crRedirectUrl cr) |}
     end, log_call (CallInitiate sent) w).
Proof.
  unfold initiateConnection, try_catch, bind, call, ret, throw. simpl.
  destruct (initiate _ _ _ _); reflexivity.
Qed.

(** [execute] for the remaining actions, up to the dispatch. *)
Lemma execute_list_connections opts params w client w1 :
  readStringParam_required params "action" = inr "list_connections" ->
  getComposioClient (opts ≫= composioConfig) w = (Some client, w1) ->
  execute opts params w
  = (let* connections := listConnectedAccounts client (entityIdOf opts params) in
     match connections with
     | [] => ret (PNoConnections noConnectionsYet)
     | _ => ret (PConnections connections (entityIdOf opts params))
     end) w1.
Proof.
  intros Ha Hc. unfold execute, bind, total, lift, ret. rewrite Ha.
  cbv beta iota. rewrite Hc. reflexivity.
Qed.

Lemma execute_disconnect opts params w client w1 :
  readStringParam_required params "action" = inr "disconnect" ->
  getComposioClient (opts ≫= composioConfig) w = (Some client, w1) ->
  execute opts params w
  = (let* accountId := lift (readStringParam_required params "connectedAccountId") in
     deleteConnection client accountId ;;
     ret (PDisconnect accountId disconnected)) w1.
Proof.
  intros Ha Hc. unfold execute, bind, total, lift, ret. rewrite Ha.
  cbv beta iota. rewrite Hc. reflexivity.
Qed.

Lemma execute_execute opts params w client w1 :
  readStringParam_required params "action" = inr "execute" ->
  getComposioClient (opts ≫= composioConfig) w = (Some client, w1) ->
  execute opts params w
  = (let* actionName := lift (readStringParam_required params "actionName") in
     let* result :=
       executeAction client (entityIdOf opts params)
         {| exActionName := toUpperCase actionName;
            exParams := paramsOf params;
            exConnectedAccountId := readStringParam params "connectedAccountId" |} in
     ret (PExecute result)) w1.
Proof.
  intros Ha Hc. unfold execute, bind, total, lift, ret. rewrite Ha.
  cbv beta iota. rewrite Hc. reflexivity.
Qed.

(** X3. [list_connections] asks the broker once, for the resolved entity.
    A rejection is rethrown as it is; an empty answer is reported as "no
    connections yet" with a hint and without the entity id; any other answer
    is reported record by record, in order, with the entity id. *)
Theorem list_connections_behaviour opts params w client w1 :
  readStringParam_required params "action" = inr "list_connections" ->
  getComposioClient (opts ≫= composioConfig) w = (Some client, w1) ->
  let entityId := entityIdOf opts params in
  exists out,
    execute opts params w = (out, log_call (CallGetConnections entityId) w1)
    /\ match getConnections (remote w1) client (brokerLog w1) entityId with
       | inl e => out = Throw e
       | inr [] => out = Ok (PNoConnections noConnectionsYet)
       | inr rs =>
           out = Ok (PConnections (map listedAccount rs) entityId)
           /\ length (map listedAccount rs) = length rs
       end.
Proof.
  intros Ha Hc entityId.
  rewrite (execute_list_connections _ _ _ _ _ Ha Hc). fold entityId.
  unfold bind. rewrite listConnectedAccounts_run.
  destruct (getConnections _ _ _ _) as [e|[|r rs]].
  - eexists. split; reflexivity.
  - eexists. split; reflexivity.
  - eexists. split; [reflexivity|]. split; [reflexivity|apply length_map].
Qed.

(** X4. [disconnect] sends one delete for the given id and nothing else:
    no lookup precedes it.  The confirmation is returned exactly when the
    broker accepts; a rejection (for instance of an id already removed) is
    rethrown as it is. *)
Theorem disconnect_behaviour opts params w client w1 accountId :
  readStringParam_required params "action" = inr "disconnect" ->
  getComposioClient (opts ≫= composioConfig) w = (Some client, w1) ->
  readStringParam_required params "connectedAccountId" = inr accountId ->
  execute opts params w
  = (match delete (remote w1) client (brokerLog w1) accountId with
     | inl e => Throw e
     | inr _ => Ok (PDisconnect accountId disconnected)
     end, log_call (CallDelete accountId) w1)
  /\ brokerLog (snd (execute opts params w)) = brokerLog w ++ [CallDelete accountId].
Proof.
  intros Ha Hc Hid.
  assert (Hrun : execute opts params w
    = (match delete (remote w1) client (brokerLog w1) accountId with
       | inl e => Throw e
       | inr _ => Ok (PDisconnect accountId disconnected)
       end, log_call (CallDelete accountId) w1)).
  { rewrite (execute_disconnect _ _ _ _ _ Ha Hc).
    unfold bind at 1. unfold lift at 1. rewrite Hid. unfold ret at 1. cbv beta iota.
    unfold bind. rewrite deleteConnection_run.
    destruct (delete _ _ _ _) as [e|[]]; reflexivity. }
  split; [exact Hrun|]. rewrite Hrun. simpl.
  pose proof (ClientFacts.getComposioClient_frame (opts ≫= composioConfig) w) as (Hlog & _).
  rewrite Hc in Hlog. simpl in Hlog. now rewrite Hlog.
Qed.

(** X5. [execute] submits the action name upper-cased, the [params]
    property with an empty object in place of [undefined] or [null], and the
    account id as read; a rejection is rethrown as it is, and a result of
    [undefined] or [null] is returned as an empty object. *)
Theorem execute_action_behaviour opts params w client w1 actionName :
  readStringParam_required params "action" = inr "execute" ->
  getComposioClient (opts ≫= composioConfig) w = (Some client, w1) ->
  readStringParam_required params "actionName" = inr actionName ->
  let req := {| exActionName := toUpperCase actionName;
                exParams := paramsOf params;
                exConnectedAccountId := readStringParam params "connectedAccountId" |} in
  execute opts params w
  = (match entityExecute (remote w1) client (brokerLog w1) (entityIdOf opts params) req with
     | inl e => Throw e
     | inr v => Ok (PExecute (orEmptyObject v))
     end, log_call (CallExecute (entityIdOf opts params) req) w1)
  /\ exParams req = orEmptyObject (prop params "params")
  /\ (forall v, orEmptyObject v <> VUndefined /\ orEmptyObject v <> VNull).
Proof.
  intros Ha Hc Hname req.
  assert (Hne : forall v, orEmptyObject v <> VUndefined /\ orEmptyObject v <> VNull).
  { intros v. destruct v; simpl; split; discriminate. }
  split; [|split; [|exact Hne]];
    [|unfold req, paramsOf; simpl; now destruct (prop params "params")].
  rewrite (execute_execute _ _ _ _ _ Ha Hc).
  unfold bind at 1. unfold lift at 1. rewrite Hname. unfold ret at 1. cbv beta iota.
  unfold bind. rewrite executeAction_run. fold req.
  destruct (entityExecute _ _ _ _ _); reflexivity.
Qed.

(** X6. [connect] sends one initiate request, with the application name
    upper-cased.  A rejection is rethrown as it is.  On success the result
    carries the account id, and [authUrl] repeats [redirectUrl], which is
    the empty string when the broker gives no URL. *)
Theorem connect_behaviour opts params w client w1 name :
  readStringParam_required params "action" = inr "connect" ->
  getComposioClient (opts ≫= composioConfig) w = (Some client, w1) ->
  readStringParam_required params "appName" = inr name ->
  let req := {| reqEntityId := entityIdOf opts params;
                reqAppName := toUpperCase name;
                reqRedirectUri := readStringParam params "redirectUri" |} in
  exists out,
    execute opts params w = (out, log_call (CallInitiate req) w1)
    /\ match initiate (remote w1) client (brokerLog w1) req with
       | inl e => out = Throw e
       | inr cr =>
           exists result authUrl,
             out = Ok (PConnect result (connectMessage name) authUrl name)
             /\ connectedAccountId result = crConnectedAccountId cr
             /\ authUrl = redirectUrl result
             /\ redirectUrl result = default EmptyString (crRedirectUrl cr)
       end.
Proof.
  intros Ha Hc Hname req.
  rewrite (ToolFacts.execute_connect _ _ _ _ _ Ha Hc).
  unfold bind at 1. unfold lift at 1. rewrite Hname. unfold ret at 1. cbv beta iota.
  unfold bind. rewrite initiateConnection_run. simpl. fold req.
  destruct (initiate _ _ _ _) as [e|cr].
  - eexists. split; reflexivity.
  - eexists. split; [reflexivity|]. eexists _, _. repeat split.
Qed.

(** X7. The same broker record is read differently by the two functions
    that report accounts: with a status the broker rendered, both report
    it; without one, [listConnectedAccounts] reports ACTIVE and
    [getConnectionStatus] reports INITIATED.  Likewise for the id: the list
    falls back to the empty string, the status call to the id asked for.
    Name and timestamps agree. *)
Theorem list_and_status_defaults client entityId accountId w r :
  getConnections (remote w) client (brokerLog w) entityId = inr [r] ->
  get (remote w) client (brokerLog w) accountId = inr r ->
  exists listed reported,
    fst (listConnectedAccounts client entityId w) = Ok [listed]
    /\ fst (getConnectionStatus client accountId w) = Ok reported
    /\ appName listed = appName reported
    /\ createdAt listed = createdAt reported
    /\ updatedAt listed = updatedAt reported
    /\ (renderable (prop r "status") -> status listed = status reported)
    /\ (~ renderable (prop r "status") ->
        status listed = "ACTIVE" /\ status reported = "INITIATED")
    /\ (renderable (prop r "id") -> id listed = id reported)
    /\ (~ renderable (prop r "id") ->
        id listed = EmptyString /\ id reported = accountId).
Proof.
  intros Hl Hg. rewrite listConnectedAccounts_run, Hl.
  rewrite ToolFacts.getConnectionStatus_run, Hg. simpl.
  eexists _, _. split; [reflexivity|]. split; [reflexivity|]. simpl.
  split; [reflexivity|]. split; [reflexivity|]. split; [reflexivity|].
  destruct (prop r "status") as [| |[]| | | |]; destruct (prop r "id") as [| |[]| | | |];
    simpl; tauto.
Qed.

(** X8. Without a resolvable API key every action, known or not, fails
    with the configuration error before anything else happens: the process
    is left as it was and the broker is not called. *)
Theorem execute_requires_credentials opts params w action :
  readStringParam_required params "action" = inr action ->
  resolveApiKey (opts ≫= composioConfig) w = None ->
  execute opts params w = (Throw (ErrorObj notConfigured), w).
Proof.
  intros Ha Hk.
  apply (ToolFacts.execute_unconfigured _ _ _ action); [exact Ha|].
  now apply ClientFacts.getComposioClient_disabled.
Qed.

(** X9. An action outside the six known ones (the comparison is exact, so
    also a known name in another case) fails with [Unknown composio action],
    after the client lookup and without any broker call. *)
Theorem unknown_action_is_rejected opts params w client w1 action :
  readStringParam_required params "action" = inr action ->
  getComposioClient (opts ≫= composioConfig) w = (Some client, w1) ->
  action ∉ COMPOSIO_ACTIONS ->
  execute opts params w
  = (Throw (ErrorObj ("Unknown composio action: " +:+ action)), w1)
  /\ brokerLog w1 = brokerLog w.
Proof.
  intros Ha Hc Hnot.
  pose proof (ClientFacts.getComposioClient_frame (opts ≫= composioConfig) w) as (Hlog & _).
  rewrite Hc in Hlog. split; [|exact Hlog].
  assert (Hneq : forall a, a ∈ COMPOSIO_ACTIONS -> String.eqb action a = false).
  { intros a Hin. apply String.eqb_neq. intros ->. contradiction. }
  unfold execute, bind, total, lift, ret. rewrite Ha. cbv beta iota. rewrite Hc.
  cbv beta iota.
  rewrite !Hneq by (unfold COMPOSIO_ACTIONS; rewrite !elem_of_cons; tauto).
  reflexivity.
Qed.

(** X10. A required parameter that cannot be read stops the action with
    the reader's error before the broker is called: the action itself before
    the client lookup, the application name of [connect], the account id of
    [status] and [disconnect], the action name of [execute] after it. *)
Theorem missing_parameter_stops_the_action opts params w e :
  (readStringParam_required params "action" = inl e ->
   execute opts params w = (Throw e, w))
  /\ (forall client w1 action key,
        getComposioClient (opts ≫= composioConfig) w = (Some client, w1) ->
        readStringParam_required params "action" = inr action ->
        (action, key) ∈ [("connect", "appName"); ("status", "connectedAccountId");
                         ("disconnect", "connectedAccountId"); ("execute", "actionName")] ->
        readStringParam_required params key = inl e ->
        execute opts params w = (Throw e, w1) /\ brokerLog w1 = brokerLog w).
Proof.
  split.
  - intros Ha. unfold execute, bind, lift, throw. now rewrite Ha.
  - intros client w1 action key Hc Ha Hin Hkey.
    pose proof (ClientFacts.getComposioClient_frame (opts ≫= composioConfig) w)
      as (Hlog & _).
    rewrite Hc in Hlog. split; [|exact Hlog].
    rewrite !elem_of_cons, elem_of_nil in Hin.
    destruct Hin as [E|[E|[E|[E|[]]]]]; injection E as -> ->.
    + rewrite (ToolFacts.execute_connect _ _ _ _ _ Ha Hc).
      unfold bind, lift, throw. now rewrite Hkey.
    + rewrite (ToolFacts.execute_status _ _ _ _ _ Ha Hc).
      unfold bind, lift, throw. now rewrite Hkey.
    + rewrite (execute_disconnect _ _ _ _ _ Ha Hc).
      unfold bind, lift, throw. now rewrite Hkey.
    + rewrite (execute_execute _ _ _ _ _ Ha Hc).
      unfold bind, lift, throw. now rewrite Hkey.
Qed.

(** X11. [createComposioTool] gives no tool exactly when the configuration
    is not enabled and [COMPOSIO_API_KEY] is unset or empty; the API key of
    the configuration plays no part.  So a tool can exist without
    credentials (enabled, no key anywhere): every action of it then fails
    with the configuration error. *)
Theorem createComposioTool_gate opts w :
  (createComposioTool opts w = None
   <-> default false ((opts ≫= composioConfig) ≫= enabled) = false
       /\ truthy_opt (env_COMPOSIO_API_KEY w) = false)
  /\ (forall tool, createComposioTool opts w = Some tool ->
        label tool = "Composio" /\ name tool = "composio"
        /\ forall params action,
             readStringParam_required params "action" = inr action ->
             resolveApiKey (opts ≫= composioConfig) w = None ->
             run tool params w = (Throw (ErrorObj notConfigured), w)).
Proof.
  unfold createComposioTool. split.
  - destruct (default false ((opts ≫= composioConfig) ≫= enabled));
      destruct (truthy_opt (env_COMPOSIO_API_KEY w)); simpl; split;
      try discriminate; try tauto; intros [? ?]; discriminate.
  - intros tool Htool.
    destruct (negb _ && negb _); [discriminate|]. injection Htool as <-. simpl.
    split; [reflexivity|]. split; [reflexivity|].
    intros params action. apply execute_requires_credentials.
Qed.

End Tool.

Lemma list_connections_behaviour_witness :
  execute (H := plainReaders) None (Sample.args "list_connections" []) Sample.process
  = (Ok (PNoConnections noConnectionsYet),
     log_call (CallGetConnections "default")
       (snd (getComposioClient None Sample.process))).
Proof.
  destruct (list_connections_behaviour (readers := plainReaders)
              None (Sample.args "list_connections" []) Sample.process
              Sample.firstClient (snd (getComposioClient None Sample.process))
              eq_refl eq_refl) as (out & Hrun & Hout).
  simpl in Hout. now rewrite Hrun, Hout.
Defined.

Lemma disconnect_behaviour_witness :
  exists w',
    execute (H := plainReaders) None
      (Sample.args "disconnect" [("connectedAccountId", VString "acc-1")])
      terseProcess
    = (Throw (ErrorObj "account not found"), w')
    /\ brokerLog w' = [CallDelete "acc-1"].
Proof.
  destruct (disconnect_behaviour (readers := plainReaders) None
              (Sample.args "disconnect" [("connectedAccountId", VString "acc-1")])
              terseProcess Sample.firstClient
              (snd (getComposioClient None terseProcess)) "acc-1"
              eq_refl eq_refl eq_refl) as [Hrun Hlog].
  eexists. split; [exact Hrun|reflexivity].
Defined.

Lemma execute_action_behaviour_witness :
  exists w',
    execute (H := plainReaders) None
      (Sample.args "execute" [("actionName", VString "gmail_send_email")])
      Sample.process
    = (Ok (PExecute (VObject [])), w')
    /\ brokerLog w'
       = [CallExecute "default"
            {| exActionName := "GMAIL_SEND_EMAIL"; exParams := VObject [];
               exConnectedAccountId := None |}].
Proof.
  destruct (execute_action_behaviour (readers := plainReaders) None
              (Sample.args "execute" [("actionName", VString "gmail_send_email")])
              Sample.process Sample.firstClient
              (snd (getComposioClient None Sample.process)) "gmail_send_email"
              eq_refl eq_refl eq_refl) as [Hrun _].
  eexists. split; [exact Hrun|reflexivity].
Defined.

Lemma connect_behaviour_witness :
  exists out w',
    execute (H := plainReaders) None
      (Sample.args "connect" [("appName", VString "slack")]) Sample.process
    = (out, w')
    /\ out = Throw (ErrorObj "app not enabled").
Proof.
  destruct (connect_behaviour (readers := plainReaders) None
              (Sample.args "connect" [("appName", VString "slack")]) Sample.process
              Sample.firstClient (snd (getComposioClient None Sample.process)) "slack"
              eq_refl eq_refl eq_refl) as (out & Hrun & Hout).
  exists out. eexists. split; [exact Hrun|exact Hout].
Defined.

Lemma list_and_status_defaults_witness :
  exists listed reported,
    fst (listConnectedAccounts Sample.firstClient "default" terseProcess) = Ok [listed]
    /\ fst (getConnectionStatus Sample.firstClient "acc-1" terseProcess) = Ok reported
    /\ status listed = "ACTIVE" /\ status reported = "INITIATED"
    /\ id listed = EmptyString /\ id reported = "acc-1".
Proof.
  destruct (list_and_status_defaults Sample.firstClient "default" "acc-1" terseProcess
              (<["app" := VString "gmail"]> ∅) eq_refl eq_refl)
    as (listed & reported & H1 & H2 & _ & _ & _ & _ & Hs & _ & Hi).
  exists listed, reported. split; [exact H1|]. split; [exact H2|].
  destruct Hs as [? ?]; [vm_compute; tauto|].
  destruct Hi as [? ?]; [vm_compute; tauto|]. tauto.
Defined.

Lemma execute_requires_credentials_witness :
  execute (H := plainReaders) None Sample.batchArgs Sample.bare
  = (Throw (ErrorObj notConfigured), Sample.bare).
Proof.
  apply (execute_requires_credentials (readers := plainReaders)
           None Sample.batchArgs Sample.bare "connect_multiple"); reflexivity.
Defined.

Lemma unknown_action_is_rejected_witness :
  fst (execute (H := plainReaders) None (Sample.args "CONNECT" []) Sample.process)
  = Throw (ErrorObj "Unknown composio action: CONNECT").
Proof.
  destruct (unknown_action_is_rejected (readers := plainReaders) None
              (Sample.args "CONNECT" []) Sample.process Sample.firstClient
              (snd (getComposioClient None Sample.process)) "CONNECT"
              eq_refl eq_refl) as [Hrun _].
  - unfold COMPOSIO_ACTIONS. rewrite !elem_of_cons, elem_of_nil.
    intros [H|[H|[H|[H|[H|[H|[]]]]]]]; discriminate H.
  - now rewrite Hrun.
Defined.

Lemma missing_parameter_stops_the_action_witness :
  execute (H := plainReaders) None (Sample.args "connect" []) Sample.process
  = (Throw (ErrorObj "appName required"), snd (getComposioClient None Sample.process)).
Proof.
  destruct (proj2 (missing_parameter_stops_the_action (readers := plainReaders) None
                     (Sample.args "connect" []) Sample.process
                     (ErrorObj "appName required"))
                  Sample.firstClient (snd (getComposioClient None Sample.process))
                  "connect" "appName" eq_refl eq_refl) as [Hrun _].
  - rewrite elem_of_cons. now left.
  - reflexivity.
  - exact Hrun.
Defined.

Lemma createComposioTool_gate_witness :
  createComposioTool (H := plainReaders) None Sample.bare = None
  /\ exists tool,
       createComposioTool (H := plainReaders)
         (Some (Sample.optionsWith (Sample.configWithCap 2))) Sample.bare = Some tool
       /\ run tool Sample.batchArgs Sample.bare
          = (Throw (ErrorObj notConfigured), Sample.bare).
Proof.
  split.
  - apply (proj1 (createComposioTool_gate (readers := plainReaders) None Sample.bare)).
    split; reflexivity.
  - eexists. split; [reflexivity|].
    destruct (proj2 (createComposioTool_gate (readers := plainReaders)
                       (Some (Sample.optionsWith (Sample.configWithCap 2))) Sample.bare)
                    _ eq_refl) as (_ & _ & Hrun).
    apply (Hrun Sample.batchArgs "connect_multiple"); reflexivity.
Defined.

End ToolMoreFacts.

(* ===================================================================== *)
(** * Further theorems: the authorization handlers *)
(* ===================================================================== *)

Module AuthFacts.

Import Js Exc Composio Notions Auth.

Section Handlers.

Context `{platform : Onboard.Platform}.

(** Called without a configuration, the client lookup reads the
    environment only. *)
Lemma resolveApiKey_env w :
  resolveApiKey None w = None
  <-> truthy_opt (trim <$> env_COMPOSIO_API_KEY w) = false.
Proof.
  unfold resolveApiKey, or_undefined, or_else. simpl.
  destruct (env_COMPOSIO_API_KEY w) as [k|]; simpl; [|tauto].
  destruct (truthy (trim k)) eqn:E; simpl; rewrite ?E; split; congruence.
Qed.

(** X12. [onboard.auth.initiate] always responds and never throws.
    Invalid parameters are answered [INVALID_REQUEST] with the process
    untouched; a blank or unset [COMPOSIO_API_KEY] is answered
    [UNAVAILABLE] without any broker call (the configuration file is not
    consulted); otherwise one initiate request is sent, with the entity id
    and the redirect URI trimmed and the application name trimmed and
    upper-cased, and the broker's answer is mapped to the success response
    (with an empty [redirectUrl] when the broker gives none) or to
    [UNAVAILABLE] with the broker's message. *)
Theorem auth_initiate_behaviour params w :
  (validateOnboardAuthInitiateParams params = false ->
   onboard_auth_initiate params w
   = (Ok (Failure Onboard.INVALID_REQUEST
            ("invalid onboard.auth.initiate params: "
             +:+ Onboard.formatValidationErrors params)), w))
  /\ (validateOnboardAuthInitiateParams params = true ->
      truthy_opt (trim <$> env_COMPOSIO_API_KEY w) = false ->
      onboard_auth_initiate params w
      = (Ok (Failure Onboard.UNAVAILABLE notConfiguredInitiate), w))
  /\ (validateOnboardAuthInitiateParams params = true ->
      forall client w1,
        getComposioClient None w = (Some client, w1) ->
        let sent := {| reqEntityId := reqEntityId (initiateRequestOf params);
                       reqAppName := toUpperCase (reqAppName (initiateRequestOf params));
                       reqRedirectUri := reqRedirectUri (initiateRequestOf params) |} in
        onboard_auth_initiate params w
        = (Ok match initiate (remote w1) client (brokerLog w1) sent with
              | inr cr =>
                  InitiateOk (default EmptyString (crRedirectUrl cr))
                             (crConnectedAccountId cr)
              | inl e =>
                  Failure Onboard.UNAVAILABLE
                    ("Composio connection failed: " +:+ message_of_thrown e)
              end,
           log_call (CallInitiate sent) w1))
  /\ (exists response w', onboard_auth_initiate params w = (Ok response, w')).
Proof.
  assert (Hinvalid : validateOnboardAuthInitiateParams params = false ->
     onboard_auth_initiate params w
     = (Ok (Failure Onboard.INVALID_REQUEST
              ("invalid onboard.auth.initiate params: "
               +:+ Onboard.formatValidationErrors params)), w)).
  { intros Hv. unfold onboard_auth_initiate. now rewrite Hv. }
  assert (Hnokey : validateOnboardAuthInitiateParams params = true ->
     resolveApiKey None w = None ->
     onboard_auth_initiate params w
     = (Ok (Failure Onboard.UNAVAILABLE notConfiguredInitiate), w)).
  { intros Hv Hk. unfold onboard_auth_initiate. rewrite Hv.
    unfold bind, total. cbv beta iota delta [negb].
    now rewrite (ClientFacts.getComposioClient_disabled _ _ Hk). }
  assert (Hcall : validateOnboardAuthInitiateParams params = true ->
     forall client w1,
       getComposioClient None w = (Some client, w1) ->
       let sent := {| reqEntityId := reqEntityId (initiateRequestOf params);
                      reqAppName := toUpperCase (reqAppName (initiateRequestOf params));
                      reqRedirectUri := reqRedirectUri (initiateRequestOf params) |} in
       onboard_auth_initiate params w
       = (Ok match initiate (remote w1) client (brokerLog w1) sent with
             | inr cr =>
                 InitiateOk (default EmptyString (crRedirectUrl cr))
                            (crConnectedAccountId cr)
             | inl e =>
                 Failure Onboard.UNAVAILABLE
                   ("Composio connection failed: " +:+ message_of_thrown e)
             end,
          log_call (CallInitiate sent) w1)).
  { intros Hv client w1 Hc sent. unfold onboard_auth_initiate. rewrite Hv.
    unfold bind at 1. unfold total. cbv beta iota delta [negb]. rewrite Hc.
    unfold try_catch, bind.
    rewrite (ToolMoreFacts.initiateConnection_run client (initiateRequestOf params) w1).
    cbv zeta. fold sent. destruct (initiate _ _ _ _); reflexivity. }
  split; [exact Hinvalid|]. split; [|split; [exact Hcall|]].
  - intros Hv Hblank. apply Hnokey; [exact Hv|]. now apply resolveApiKey_env.
  - destruct (validateOnboardAuthInitiateParams params) eqn:Hv;
      [|eexists _, _; now apply Hinvalid].
    destruct (getComposioClient None w) as [[client|] w1] eqn:Hc.
    + eexists _, _. now apply (Hcall eq_refl client w1).
    + destruct (resolveApiKey None w) as [key|] eqn:Hk.
      * destruct (ClientFacts.getComposioClient_caches _ _ _ Hk) as (c & w' & H & _).
        congruence.
      * eexists _, _. now apply Hnokey.
Qed.

(** X13. [onboard.auth.status] always responds and never throws: invalid
    parameters are answered [INVALID_REQUEST]; a blank or unset
    [COMPOSIO_API_KEY] is answered [UNAVAILABLE] without any broker call;
    otherwise the broker is asked once for the trimmed id and the response
    carries the broker's id (the id asked for when the record has none) and
    its status (INITIATED when the record has none), whatever string that
    is; a rejection is answered [UNAVAILABLE] with the broker's message. *)
Theorem auth_status_behaviour params w :
  (validateOnboardAuthStatusParams params = false ->
   onboard_auth_status params w
   = (Ok (Failure Onboard.INVALID_REQUEST
            ("invalid onboard.auth.status params: "
             +:+ Onboard.formatValidationErrors params)), w))
  /\ (validateOnboardAuthStatusParams params = true ->
      truthy_opt (trim <$> env_COMPOSIO_API_KEY w) = false ->
      onboard_auth_status params w
      = (Ok (Failure Onboard.UNAVAILABLE "Composio is not configured."), w))
  /\ (validateOnboardAuthStatusParams params = true ->
      forall client w1,
        getComposioClient None w = (Some client, w1) ->
        let accountId := trim (Onboard.String_ (prop params "connectedAccountId")) in
        onboard_auth_status params w
        = (Ok match get (remote w1) client (brokerLog w1) accountId with
              | inr raw =>
                  StatusOk (toStr (prop raw "id") accountId)
                           (toStr (prop raw "status") "INITIATED")
              | inl e =>
                  Failure Onboard.UNAVAILABLE
                    ("Composio status check failed: " +:+ message_of_thrown e)
              end,
           log_call (CallGet accountId) w1))
  /\ (exists response w', onboard_auth_status params w = (Ok response, w')).
Proof.
  assert (Hinvalid : validateOnboardAuthStatusParams params = false ->
     onboard_auth_status params w
     = (Ok (Failure Onboard.INVALID_REQUEST
              ("invalid onboard.auth.status params: "
               +:+ Onboard.formatValidationErrors params)), w)).
  { intros Hv. unfold onboard_auth_status. now rewrite Hv. }
  assert (Hnokey : validateOnboardAuthStatusParams params = true ->
     resolveApiKey None w = None ->
     onboard_auth_status params w
     = (Ok (Failure Onboard.UNAVAILABLE "Composio is not configured."), w)).
  { intros Hv Hk. unfold onboard_auth_status. rewrite Hv.
    unfold bind, total. cbv beta iota delta [negb].
    now rewrite (ClientFacts.getComposioClient_disabled _ _ Hk). }
  assert (Hcall : validateOnboardAuthStatusParams params = true ->
     forall client w1,
       getComposioClient None w = (Some client, w1) ->
       let accountId := trim (Onboard.String_ (prop params "connectedAccountId")) in
       onboard_auth_status params w
       = (Ok match get (remote w1) client (brokerLog w1) accountId with
             | inr raw =>
                 StatusOk (toStr (prop raw "id") accountId)
                          (toStr (prop raw "status") "INITIATED")
             | inl e =>
                 Failure Onboard.UNAVAILABLE
                   ("Composio status check failed: " +:+ message_of_thrown e)
             end,
          log_call (CallGet accountId) w1)).
  { intros Hv client w1 Hc accountId. unfold onboard_auth_status. rewrite Hv.
    unfold bind at 1. unfold total. cbv beta iota delta [negb]. rewrite Hc.
    unfold try_catch, bind. fold accountId.
    rewrite (ToolFacts.getConnectionStatus_run client accountId w1).
    destruct (get _ _ _ _); reflexivity. }
  split; [exact Hinvalid|]. split; [|split; [exact Hcall|]].
  - intros Hv Hblank. apply Hnokey; [exact Hv|]. now apply resolveApiKey_env.
  - destruct (validateOnboardAuthStatusParams params) eqn:Hv;
      [|eexists _, _; now apply Hinvalid].
    destruct (getComposioClient None w) as [[client|] w1] eqn:Hc.
    + eexists _, _. now apply (Hcall eq_refl client w1).
    + destruct (resolveApiKey None w) as [key|] eqn:Hk.
      * destruct (ClientFacts.getComposioClient_caches _ _ _ Hk) as (c & w' & H & _).
        congruence.
      * eexists _, _. now apply Hnokey.
Qed.

End Handlers.

Lemma auth_initiate_behaviour_witness :
  exists w',
    onboard_auth_initiate (H := Sample.platform)
      (<["appName" := VString " gmail "]> (<["entityId" := VString " u1 "]> ∅))
      Sample.process
    = (Ok (InitiateOk "https://auth.example/GMAIL" "acc-GMAIL"), w')
    /\ brokerLog w'
       = [CallInitiate {| reqEntityId := "u1"; reqAppName := "GMAIL";
                          reqRedirectUri := None |}].
Proof.
  destruct (auth_initiate_behaviour (platform := Sample.platform)
              (<["appName" := VString " gmail "]> (<["entityId" := VString " u1 "]> ∅))
              Sample.process) as (_ & _ & Hcall & _).
  eexists. split.
  - apply (Hcall eq_refl Sample.firstClient (snd (getComposioClient None Sample.process))).
    reflexivity.
  - reflexivity.
Defined.

Lemma auth_status_behaviour_witness :
  fst (onboard_auth_status (H := Sample.platform)
         (<["connectedAccountId" := VString "acc-1"]> ∅) terseProcess)
  = Ok (StatusOk "acc-1" "INITIATED").
Proof.
  destruct (auth_status_behaviour (platform := Sample.platform)
              (<["connectedAccountId" := VString "acc-1"]> ∅) terseProcess)
    as (_ & _ & Hcall & _).
  rewrite (Hcall eq_refl Sample.firstClient (snd (getComposioClient None terseProcess))
             eq_refl).
  reflexivity.
Defined.

End AuthFacts.

(* ===================================================================== *)
(** * Further theorems: provisioning *)
(* ===================================================================== *)

Module OnboardMoreFacts.

Import Js Exc Onboard Notions.

Section Handler.

Context `{platform : Platform}.

Lemma mkdir_runs path w :
  faults w (OpMkdir path) = None ->
  mkdir path true w
  = (Ok tt, perform (Mkdir path) ({[path]} ∪ list_to_set (ancestors path) ∪ dirs w)
                    (files w) (configFile w) w).
Proof. intros Hf. unfold mkdir. now rewrite Hf. Qed.

Lemma writeConfigFile_runs cfg w :
  faults w OpWriteConfig = None ->
  writeConfigFile cfg w = (Ok tt, perform (WriteConfig cfg) (dirs w) (files w) cfg w).
Proof. intros Hf. unfold writeConfigFile. now rewrite Hf. Qed.

(** Writing the workspace files, whatever its outcome, touches neither the
    directories nor the persisted configuration. *)
Lemma writeWorkspaceFiles_frame workspaceDir botName userName recipe w :
  configFile (snd (writeWorkspaceFiles workspaceDir botName userName recipe w))
  = configFile w
  /\ dirs (snd (writeWorkspaceFiles workspaceDir botName userName recipe w)) = dirs w
  /\ faults (snd (writeWorkspaceFiles workspaceDir botName userName recipe w)) = faults w.
Proof.
  unfold writeWorkspaceFiles, bind, writeFile, ret.
  repeat (match goal with
          | |- context [faults w ?op] => destruct (faults w op) eqn:?
          end; simpl; try tauto).
  destruct (Recipes.tools recipe) as [t|]; [destruct (truthy t)|]; simpl; try tauto.
  repeat (match goal with
          | |- context [faults w ?op] => destruct (faults w op) eqn:?
          end; simpl; try tauto).
Qed.

Lemma writeWorkspaceFiles_ok_files workspaceDir botName userName recipe w w1 :
  writeWorkspaceFiles workspaceDir botName userName recipe w = (Ok tt, w1) ->
  files w1
  = writtenFiles workspaceDir (workspaceFileList botName userName recipe) (files w).
Proof.
  unfold writeWorkspaceFiles, workspaceFileList, writtenFiles. intros H.
  apply OnboardFacts.bind_ok_inv in H as ([] & wa & Ha & H).
  apply OnboardFacts.writeFile_ok_inv in Ha as [_ ->].
  apply OnboardFacts.bind_ok_inv in H as ([] & wb & Hb & H).
  apply OnboardFacts.writeFile_ok_inv in Hb as [_ ->].
  apply OnboardFacts.bind_ok_inv in H as ([] & wc & Hc & H).
  apply OnboardFacts.writeFile_ok_inv in Hc as [_ ->].
  apply OnboardFacts.bind_ok_inv in H as ([] & wd & Hd & H).
  apply OnboardFacts.writeFile_ok_inv in Hd as [_ ->].
  destruct (Recipes.tools recipe) as [t|]; simpl in *.
  - destruct (truthy t).
    + apply OnboardFacts.writeFile_ok_inv in H as [_ ->]. reflexivity.
    + injection H as <-. reflexivity.
  - injection H as <-. reflexivity.
Qed.

(** A recipe of the catalogue has no tool notes, and is filed under the id
    it is looked up by. *)
Lemma catalogue_recipe k r :
  Recipes.getRecipe k = Some r -> Recipes.id r = k /\ Recipes.tools r = None.
Proof.
  intros H. apply RecipeFacts.getRecipe_sound in H as [Hin Hid].
  split; [exact Hid|].
  unfold Recipes.RECIPES in Hin. rewrite !elem_of_cons, elem_of_nil in Hin.
  destruct Hin as [->|[->|[->|[->|[]]]]]; reflexivity.
Qed.

(** What a successful run was given and what it went through. *)
Lemma simple_ok_inv params w result w' :
  onboard_simple params w = (Ok (SimpleOk result), w') ->
  exists recipe,
    validateOnboardSimpleParams params = true
    /\ Recipes.getRecipe (recipeIdOf params) = Some recipe
    /\ agentOf params <> DEFAULT_AGENT_ID
    /\ findAgentEntryIndex (listAgentEntries (configFile w)) (agentOf params) < 0
    /\ provision (configFile w) params recipe w = (Ok (SimpleOk result), w').
Proof.
  intros Hrun.
  destruct (OnboardFacts.simple_cases params w)
    as [Hv|[[Hv Hr]|(recipe & Hv & Hr & [Ha|[[Ha Hdup]|[Ha Hnew]]])]].
  - rewrite (OnboardFacts.simple_invalid _ _ Hv) in Hrun. discriminate.
  - rewrite (OnboardFacts.simple_unknown_recipe _ _ Hv Hr) in Hrun. discriminate.
  - rewrite (OnboardFacts.simple_reserved _ _ _ Hv Hr Ha) in Hrun. discriminate.
  - rewrite (OnboardFacts.simple_duplicate _ _ _ Hv Hr Ha Hdup) in Hrun. discriminate.
  - exists recipe. rewrite <- (OnboardFacts.simple_fresh _ _ _ Hv Hr Ha Hnew). tauto.
Qed.

(** X14. After a successful [onboard.simple] the response names the
    normalized agent id, the workspace under the configured root, the
    recipe id as requested (trimmed) and the fixed model; the persisted
    configuration is the computed one; the directories are the old ones plus
    the workspace, the transcripts directory and the directories above
    either; and the files are the old ones overwritten by the workspace
    files, in writing order. *)
Theorem simple_success_state params w result w' :
  onboard_simple params w = (Ok (SimpleOk result), w') ->
  exists recipe,
    Recipes.getRecipe (recipeIdOf params) = Some recipe
    /\ result = {| resAgentId := agentOf params;
                   resWorkspace := workspaceDirOf (configFile w) (agentOf params);
                   resRecipeId := recipeIdOf params;
                   resModel := "minimax/MiniMax-M2.5" |}
    /\ configFile w'
       = buildConfig (configFile w) (agentOf params) (botNameOf params)
                     (resWorkspace result) (entityIdOf params)
    /\ (forall path,
          path ∈ dirs w'
          <-> path = resWorkspace result
              \/ path = resolveSessionTranscriptsDirForAgent (agentOf params)
              \/ path ∈ ancestors (resWorkspace result)
              \/ path ∈ ancestors (resolveSessionTranscriptsDirForAgent (agentOf params))
              \/ path ∈ dirs w)
    /\ files w'
       = writtenFiles (resWorkspace result)
           (workspaceFileList (botNameOf params) (userNameOf params) recipe) (files w).
Proof.
  intros Hrun.
  apply simple_ok_inv in Hrun as (recipe & Hv & Hr & Ha & Hnew & Hp).
  exists recipe. split; [exact Hr|].
  destruct (catalogue_recipe _ _ Hr) as [Hid _].
  pose proof (OnboardFacts.provision_ok_dirs _ _ _ _ _ _ Hp) as Hd.
  unfold provision, ensureAgentWorkspace in Hp.
  apply OnboardFacts.bind_ok_inv in Hp as ([] & wa & H1 & Hp).
  apply OnboardFacts.mkdir_ok_inv in H1 as [_ ->].
  apply OnboardFacts.bind_ok_inv in Hp as ([] & wb & H2 & Hp).
  apply OnboardFacts.mkdir_ok_inv in H2 as [_ ->].
  apply OnboardFacts.bind_ok_inv in Hp as ([] & wc & H3 & Hp).
  apply OnboardFacts.writeConfigFile_ok_inv in H3 as [_ ->].
  apply OnboardFacts.bind_ok_inv in Hp as ([] & wd & H4 & Hp).
  match type of H4 with
  | writeWorkspaceFiles ?d ?b ?u ?r ?v = _ =>
      pose proof (writeWorkspaceFiles_frame d b u r v) as Hframe
  end.
  rewrite H4 in Hframe. simpl in Hframe. destruct Hframe as (Hcfg & _ & _).
  apply writeWorkspaceFiles_ok_files in H4. simpl in H4.
  injection Hp as <- <-. rewrite Hid. simpl.
  split; [reflexivity|]. split; [exact Hcfg|]. split; [|exact H4].
  intros path. rewrite Hd.
  rewrite !elem_of_union, !elem_of_singleton, !elem_of_list_to_set. tauto.
Qed.

(** X15. With the catalogue as it is, no recipe has tool notes: a
    successful [onboard.simple] performs exactly seven operations, of which
    the last four write the identity, user, persona and behaviour files, in
    this order, and it never writes the tool-notes file. *)
Theorem simple_writes_four_files params w result w' :
  onboard_simple params w = (Ok (SimpleOk result), w') ->
  exists recipe cfg',
    Recipes.getRecipe (recipeIdOf params) = Some recipe
    /\ effects w'
       = effects w
         ++ [ Mkdir (resWorkspace result);
              Mkdir (resolveSessionTranscriptsDirForAgent (resAgentId result));
              WriteConfig cfg';
              WriteFile (path_join (resWorkspace result) DEFAULT_IDENTITY_FILENAME)
                        (identityFile (botNameOf params) recipe);
              WriteFile (path_join (resWorkspace result) DEFAULT_USER_FILENAME)
                        (userFile (userNameOf params));
              WriteFile (path_join (resWorkspace result) DEFAULT_SOUL_FILENAME)
                        (Recipes.soul recipe);
              WriteFile (path_join (resWorkspace result) DEFAULT_AGENTS_FILENAME)
                        (Recipes.agents recipe) ].
Proof.
  intros Hrun.
  apply simple_ok_inv in Hrun as (recipe & Hv & Hr & Ha & Hnew & Hp).
  destruct (catalogue_recipe _ _ Hr) as [_ Htools].
  apply OnboardFacts.provision_ok_inv in Hp as (Hres & Heff & _).
  injection Hres as ->. exists recipe. eexists. split; [exact Hr|].
  rewrite Heff. unfold provisioningEffects, workspaceFileList.
  rewrite Htools. reflexivity.
Qed.

(** X16. A failure before the configuration is persisted (creating either
    directory, or persisting the configuration itself) rejects the request
    with that error and leaves the persisted configuration and the files as
    they were, so the agent is not registered: once the fault is gone, the
    same request succeeds, the directories already created being no
    obstacle. *)
Theorem failure_before_persist_can_be_retried params w recipe e :
  validateOnboardSimpleParams params = true ->
  Recipes.getRecipe (recipeIdOf params) = Some recipe ->
  agentOf params <> DEFAULT_AGENT_ID ->
  findAgentEntryIndex (listAgentEntries (configFile w)) (agentOf params) < 0 ->
  let workspaceDir := workspaceDirOf (configFile w) (agentOf params) in
  let transcripts := resolveSessionTranscriptsDirForAgent (agentOf params) in
  faults w (OpMkdir workspaceDir) = Some e
  \/ (faults w (OpMkdir workspaceDir) = None /\ faults w (OpMkdir transcripts) = Some e)
  \/ (faults w (OpMkdir workspaceDir) = None /\ faults w (OpMkdir transcripts) = None
      /\ faults w OpWriteConfig = Some e) ->
  exists w',
    onboard_simple params w = (Throw e, w')
    /\ configFile w' = configFile w
    /\ files w' = files w
    /\ exists result w'', onboard_simple params (heal w') = (Ok (SimpleOk result), w'').
Proof.
  intros Hv Hr Ha Hnew workspaceDir transcripts Hfault.
  rewrite (OnboardFacts.simple_fresh _ _ _ Hv Hr Ha Hnew).
  assert (Hretry : forall w', configFile w' = configFile w ->
            exists result w'', onboard_simple params (heal w') = (Ok (SimpleOk result), w'')).
  { intros w' Hcfg.
    rewrite (OnboardFacts.simple_fresh params (heal w') recipe Hv Hr Ha)
      by (simpl; now rewrite Hcfg).
    destruct (OnboardFacts.provision_runs (configFile (heal w')) params recipe (heal w'))
      as (resp & w'' & Hp); [reflexivity|].
    pose proof Hp as Hp'. apply OnboardFacts.provision_ok_inv in Hp' as (-> & _).
    eauto. }
  unfold provision, ensureAgentWorkspace. fold workspaceDir. fold transcripts.
  destruct Hfault as [H1|[[H1 H2]|(H1 & H2 & H3)]].
  - exists w. split; [|split; [reflexivity|split; [reflexivity|now apply Hretry]]].
    unfold bind, mkdir. now rewrite H1.
  - eexists. split; [|split; [|split; [|apply Hretry]]].
    + unfold bind at 1. rewrite (mkdir_runs _ _ H1).
      unfold bind, mkdir. simpl. rewrite H2. reflexivity.
    + reflexivity.
    + reflexivity.
    + reflexivity.
  - eexists. split; [|split; [|split; [|apply Hretry]]].
    + unfold bind at 1. rewrite (mkdir_runs _ _ H1).
      unfold bind at 1. rewrite mkdir_runs by exact H2.
      unfold bind, writeConfigFile. simpl. rewrite H3. reflexivity.
    + reflexivity.
    + reflexivity.
    + reflexivity.
Qed.

(** X17. A failure after the configuration is persisted (while writing the
    workspace files) rejects the request with that error but leaves the
    agent registered and both directories in place: the same request is
    from then on answered [agent "<id>" already exists], and changes
    nothing. *)
Theorem failure_after_persist_blocks_retry `{!PlatformLaws platform}
    params w recipe e w' :
  validateOnboardSimpleParams params = true ->
  Recipes.getRecipe (recipeIdOf params) = Some recipe ->
  agentOf params <> DEFAULT_AGENT_ID ->
  findAgentEntryIndex (listAgentEntries (configFile w)) (agentOf params) < 0 ->
  let workspaceDir := workspaceDirOf (configFile w) (agentOf params) in
  let transcripts := resolveSessionTranscriptsDirForAgent (agentOf params) in
  faults w (OpMkdir workspaceDir) = None ->
  faults w (OpMkdir transcripts) = None ->
  faults w OpWriteConfig = None ->
  onboard_simple params w = (Throw e, w') ->
  configFile w'
  = buildConfig (configFile w) (agentOf params) (botNameOf params) workspaceDir
                (entityIdOf params)
  /\ workspaceDir ∈ dirs w' /\ transcripts ∈ dirs w'
  /\ onboard_simple params w'
     = (Ok (Failure INVALID_REQUEST
              ("agent " +:+ dq +:+ agentOf params +:+ dq +:+ " already exists")), w').
Proof.
  intros Hv Hr Ha Hnew workspaceDir transcripts H1 H2 H3 Hrun.
  rewrite (OnboardFacts.simple_fresh _ _ _ Hv Hr Ha Hnew) in Hrun.
  unfold provision, ensureAgentWorkspace in Hrun.
  fold workspaceDir in Hrun. fold transcripts in Hrun.
  unfold bind at 1 in Hrun. rewrite (mkdir_runs _ _ H1) in Hrun.
  unfold bind at 1 in Hrun. rewrite mkdir_runs in Hrun by exact H2.
  unfold bind at 1 in Hrun. rewrite writeConfigFile_runs in Hrun by exact H3.
  unfold bind at 1 in Hrun.
  match type of Hrun with
  | context [writeWorkspaceFiles ?d ?b ?u ?r ?v] =>
      pose proof (writeWorkspaceFiles_frame d b u r v) as (Hcfg & Hdirs & _);
      destruct (writeWorkspaceFiles d b u r v) as [[[]|e'] w4]
  end; [discriminate Hrun|].
  injection Hrun as -> ->. simpl in Hcfg, Hdirs.
  split; [exact Hcfg|]. split; [rewrite Hdirs; set_solver|].
  split; [rewrite Hdirs; set_solver|].
  apply (OnboardFacts.simple_duplicate _ _ recipe); try assumption.
  rewrite Hcfg. apply OnboardFacts.buildConfig_registers.
Qed.

(** X18. [onboard.recipes] answers a request without properties with one
    summary per recipe of the catalogue, in catalogue order, and rejects any
    other request as [INVALID_REQUEST]; in both cases it changes nothing.
    The ids it offers are exactly the ids the recipe lookup of
    [onboard.simple] accepts. *)
Theorem onboard_recipes_behaviour params w :
  (params = ∅ ->
   exists summaries,
     onboard_recipes params w = (Ok (RecipesOk summaries), w)
     /\ map sumId summaries = Recipes.listRecipeIds
     /\ map sumLabel summaries = map Recipes.label Recipes.listRecipes
     /\ map sumDescription summaries = map Recipes.description Recipes.listRecipes
     /\ map sumEmoji summaries = map Recipes.emoji Recipes.listRecipes
     /\ forall key, In key (map sumId summaries) <-> is_Some (Recipes.getRecipe key))
  /\ (params <> ∅ ->
      onboard_recipes params w
      = (Ok (Failure INVALID_REQUEST
               ("invalid onboard.recipes params: " +:+ formatValidationErrors params)), w)).
Proof.
  unfold onboard_recipes, validateOnboardRecipesParams. split.
  - intros ->. rewrite bool_decide_eq_true_2 by set_solver. simpl.
    eexists. split; [reflexivity|].
    split; [reflexivity|]. split; [reflexivity|]. split; [reflexivity|].
    split; [reflexivity|]. intros key.
    change (In key Recipes.listRecipeIds <-> is_Some (Recipes.getRecipe key)).
    split.
    + intros Hin. destruct (Recipes.getRecipe key) as [r|] eqn:E; [eauto|].
      exfalso. unfold Recipes.listRecipeIds in Hin.
      apply in_map_iff in Hin as (r & <- & Hr).
      apply (proj2 (list_elem_of_In _ _)), RecipeFacts.getRecipe_complete in Hr.
      congruence.
    + intros [r Hr]. apply RecipeFacts.getRecipe_sound in Hr as [Hin <-].
      apply in_map. now apply (proj1 (list_elem_of_In _ _)).
  - intros Hne. rewrite bool_decide_eq_false_2; [reflexivity|].
    intros Hsub. apply Hne. apply dom_empty_inv_L. set_solver.
Qed.

Lemma prop_insert_other (params : Rec) k k' v :
  k <> k' -> prop (<[k := v]> params) k' = prop params k'.
Proof. intros Hne. unfold prop. now rewrite lookup_insert_ne. Qed.

(** X19. An entity id that is blank counts as none: adding to a valid
    request without [entityId] an [entityId] that trims to the empty string
    changes neither the response nor anything done on the machine (in
    particular the connection integration is not enabled). *)
Theorem blank_entity_id_is_no_entity_id params blank w :
  validateOnboardSimpleParams params = true ->
  params !! "entityId" = None ->
  trim blank = EmptyString ->
  validateOnboardSimpleParams (<["entityId" := VString blank]> params) = true
  /\ onboard_simple (<["entityId" := VString blank]> params) w = onboard_simple params w.
Proof.
  intros Hvalid Hnone Hblank.
  assert (Hv : validateOnboardSimpleParams (<["entityId" := VString blank]> params)
               = validateOnboardSimpleParams params).
  { unfold validateOnboardSimpleParams.
    rewrite !prop_insert_other by discriminate.
    rewrite lookup_insert_eq, Hnone. simpl. f_equal.
    apply bool_decide_ext. rewrite dom_insert_L. set_solver. }
  split; [now rewrite Hv|].
  unfold onboard_simple. rewrite Hv, Hvalid.
  cbv beta iota zeta delta [negb].
  rewrite (prop_insert_other params "entityId" "botName") by discriminate.
  rewrite (prop_insert_other params "entityId" "userName") by discriminate.
  rewrite (prop_insert_other params "entityId" "recipeId") by discriminate.
  assert (He : prop (<["entityId" := VString blank]> params) "entityId" = VString blank).
  { unfold prop. now rewrite lookup_insert_eq. }
  assert (Hn : prop params "entityId" = VUndefined).
  { unfold prop. now rewrite Hnone. }
  rewrite He, Hn. cbv beta iota. rewrite Hblank. reflexivity.
Qed.

End Handler.

Lemma simple_success_state_witness :
  exists result w',
    onboard_simple (H := Sample.platform)
      (Sample.request "Ada" "Helper" " daily-assistant ") Sample.machine
    = (Ok (SimpleOk result), w')
    /\ result = {| resAgentId := "helper";
                   resWorkspace := "~/.openclaw/workspace/helper";
                   resRecipeId := "daily-assistant";
                   resModel := "minimax/MiniMax-M2.5" |}
    /\ "~/.openclaw/agents/helper" ∈ dirs w'.
Proof.
  eexists _, _. split; [vm_compute; reflexivity|].
  destruct (simple_success_state (platform := Sample.platform)
              (Sample.request "Ada" "Helper" " daily-assistant ") Sample.machine
              _ _ ltac:(vm_compute; reflexivity)) as (recipe & _ & Hres & _ & Hdirs & _).
  split; [exact Hres|].
  apply Hdirs. right; right; right; left.
  apply (bool_decide_unpack _). vm_compute. exact I.
Defined.

Lemma simple_writes_four_files_witness :
  length (effects (snd (onboard_simple (H := Sample.platform)
                          (Sample.request "Ada" "Helper" "daily-assistant")
                          Sample.machine))) = 7%nat.
Proof.
  destruct (simple_writes_four_files (platform := Sample.platform)
              (Sample.request "Ada" "Helper" "daily-assistant") Sample.machine
              {| resAgentId := "helper";
                 resWorkspace := "~/.openclaw/workspace/helper";
                 resRecipeId := "daily-assistant";
                 resModel := SIMPLE_ONBOARD_MODEL |}
              (snd (onboard_simple (H := Sample.platform)
                      (Sample.request "Ada" "Helper" "daily-assistant") Sample.machine)))
    as (recipe & cfg' & _ & Heff); [vm_compute; reflexivity|].
  rewrite Heff. reflexivity.
Defined.

Lemma failure_before_persist_can_be_retried_witness :
  exists w',
    onboard_simple (H := Sample.platform)
      (Sample.request "Ada" "Helper" "daily-assistant") machineFailingConfig
    = (Throw (ErrorObj "EACCES: permission denied"), w')
    /\ configFile w' = configFile machineFailingConfig
    /\ exists result w'',
         onboard_simple (H := Sample.platform)
           (Sample.request "Ada" "Helper" "daily-assistant") (heal w')
         = (Ok (SimpleOk result), w'').
Proof.
  destruct (failure_before_persist_can_be_retried (platform := Sample.platform)
              (Sample.request "Ada" "Helper" "daily-assistant") machineFailingConfig
              Recipes.daily_assistant (ErrorObj "EACCES: permission denied"))
    as (w' & Hrun & Hcfg & _ & Hretry);
    [reflexivity|reflexivity|vm_compute; discriminate|reflexivity| |].
  - right; right. repeat split.
  - exists w'. auto.
Defined.

Lemma failure_after_persist_blocks_retry_witness :
  fst (onboard_simple (H := Sample.platform)
         (Sample.request "Ada" "Helper" "daily-assistant")
         (machineFailingFile "~/.openclaw/workspace/helper/SOUL.md"))
  = Throw (ErrorObj "ENOSPC: no space left on device")
  /\ onboard_simple (H := Sample.platform)
       (Sample.request "Ada" "Helper" "daily-assistant")
       (snd (onboard_simple (H := Sample.platform)
               (Sample.request "Ada" "Helper" "daily-assistant")
               (machineFailingFile "~/.openclaw/workspace/helper/SOUL.md")))
     = (Ok (Failure INVALID_REQUEST
              ("agent " +:+ dq +:+ "helper" +:+ dq +:+ " already exists")),
        snd (onboard_simple (H := Sample.platform)
               (Sample.request "Ada" "Helper" "daily-assistant")
               (machineFailingFile "~/.openclaw/workspace/helper/SOUL.md"))).
Proof.
  split; [vm_compute; reflexivity|].
  destruct (@failure_after_persist_blocks_retry Sample.platform OnboardFacts.sample_laws
              (Sample.request "Ada" "Helper" "daily-assistant")
              (machineFailingFile "~/.openclaw/workspace/helper/SOUL.md")
              Recipes.daily_assistant
              (ErrorObj "ENOSPC: no space left on device")
              (snd (onboard_simple (H := Sample.platform)
                      (Sample.request "Ada" "Helper" "daily-assistant")
                      (machineFailingFile "~/.openclaw/workspace/helper/SOUL.md"))))
    as (_ & _ & _ & Hretry);
    [reflexivity|reflexivity|vm_compute; discriminate|reflexivity
    |reflexivity|reflexivity|reflexivity|vm_compute; reflexivity|].
  exact Hretry.
Defined.

Lemma onboard_recipes_behaviour_witness :
  exists summaries,
    onboard_recipes (H := Sample.platform) ∅ Sample.machine
    = (Ok (RecipesOk summaries), Sample.machine)
    /\ map sumId summaries
       = ["daily-assistant"; "creative-partner"; "research-analyst"; "learning-coach"].
Proof.
  destruct (proj1 (onboard_recipes_behaviour (platform := Sample.platform)
                     ∅ Sample.machine) eq_refl)
    as (summaries & Hrun & Hids & _).
  exists summaries. split; [exact Hrun|exact Hids].
Defined.

Lemma blank_entity_id_is_no_entity_id_witness :
  onboard_simple (H := Sample.platform)
    (<["entityId" := VString "   "]> (Sample.request "Ada" "Helper" "daily-assistant"))
    Sample.machine
  = onboard_simple (H := Sample.platform)
      (Sample.request "Ada" "Helper" "daily-assistant") Sample.machine.
Proof.
  apply (proj2 (blank_entity_id_is_no_entity_id (platform := Sample.platform)
                  (Sample.request "Ada" "Helper" "daily-assistant") "   "
                  Sample.machine eq_refl eq_refl eq_refl)).
Defined.

End OnboardMoreFacts.

(* ===================================================================== *)
(** * Further theorems: the dashboard figures *)
(* ===================================================================== *)

Module DashboardFacts.

Import Js Notions Dashboard.

Lemma active_fold (l : list (list ChannelAccount)) (n : nat) :
  fold_left (fun count accounts =>
               if existsb isRunning accounts then S count else count) l n
  = (n + length (filter (fun accounts => existsb isRunning accounts = true) l))%nat.
Proof.
  revert n. induction l as [|a l IH]; intros n; simpl; [lia|].
  rewrite IH, filter_cons. destruct (existsb isRunning a) eqn:E.
  - rewrite decide_True by reflexivity. simpl. lia.
  - rewrite decide_False by discriminate. lia.
Qed.

Lemma total_fold (l : list (list ChannelAccount)) (n : nat) :
  fold_left (fun count accounts => (count + length accounts)%nat) l n
  = (n + length (List.concat l))%nat.
Proof.
  revert n. induction l as [|a l IH]; intros n; simpl; [lia|].
  rewrite IH, length_app. lia.
Qed.

Lemma running_is_counted (l : list (list ChannelAccount)) :
  (length (filter (fun accounts => existsb isRunning accounts = true) l)
   <= length (List.concat l))%nat.
Proof.
  induction l as [|a l IH]; simpl; [lia|].
  rewrite filter_cons, length_app. destruct (existsb isRunning a) eqn:E.
  - rewrite decide_True by reflexivity. simpl.
    destruct a as [|x a]; [discriminate|]. simpl. lia.
  - rewrite decide_False by discriminate. lia.
Qed.

Lemma none_running (l : list (list ChannelAccount)) :
  length (filter (fun accounts => existsb isRunning accounts = true) l) = 0%nat
  <-> forall accounts a, accounts ∈ l -> a ∈ accounts -> isRunning a = false.
Proof.
  induction l as [|x l IH]; simpl.
  - split; [intros _ accounts a Hin; now apply elem_of_nil in Hin|reflexivity].
  - rewrite filter_cons. destruct (existsb isRunning x) eqn:E.
    + rewrite decide_True by reflexivity. simpl. split; [lia|].
      intros H. exfalso. apply existsb_exists in E as (a & Hin & Ha).
      rewrite (H x a) in Ha; [discriminate|apply elem_of_cons; now left|].
      now apply list_elem_of_In.
    + rewrite decide_False by discriminate. rewrite IH. split.
      * intros H accounts a Hacc Ha. apply elem_of_cons in Hacc as [->|Hacc].
        -- destruct (isRunning a) eqn:Er; [|reflexivity].
           assert (existsb isRunning x = true); [|congruence].
           apply existsb_exists. exists a. split; [now apply list_elem_of_In|exact Er].
        -- now apply (H accounts).
      * intros H accounts a Hacc. apply H. apply elem_of_cons. now right.
Qed.

Lemma accountLists_elem snapshot accounts :
  accounts ∈ accountLists snapshot
  <-> exists channel, channelAccounts snapshot !! channel = Some accounts.
Proof.
  unfold accountLists. rewrite list_elem_of_fmap. split.
  - intros ([k a] & -> & Hin). exists k. now apply elem_of_map_to_list.
  - intros (k & Hk). exists (k, accounts). split; [reflexivity|].
    now apply elem_of_map_to_list.
Qed.

(** X20. The two counters of the stat cards: without a snapshot both are
    zero; with one, the number of active channels never exceeds the number
    of channels nor the total number of accounts, and it is zero exactly
    when no account of any channel is running. *)
Theorem channel_counters snapshot :
  (countActiveChannels snapshot <= countTotalChannelAccounts snapshot)%nat
  /\ match snapshot with
     | None =>
         countActiveChannels snapshot = 0%nat
         /\ countTotalChannelAccounts snapshot = 0%nat
     | Some s =>
         (countActiveChannels snapshot <= size (channelAccounts s))%nat
         /\ (countActiveChannels snapshot = 0%nat
             <-> forall channel accounts a,
                   channelAccounts s !! channel = Some accounts ->
                   a ∈ accounts -> isRunning a = false)
     end.
Proof.
  destruct snapshot as [s|]; simpl; [|split; [lia|split; reflexivity]].
  rewrite active_fold, total_fold. simpl.
  split; [apply running_is_counted|]. split.
  - etransitivity; [apply length_filter|].
    unfold accountLists. now rewrite length_fmap, length_map_to_list.
  - rewrite none_running. split.
    + intros H channel accounts a Hc. apply H. apply accountLists_elem. eauto.
    + intros H accounts a Hin. apply accountLists_elem in Hin as [channel Hc]. eauto.
Qed.

(** X21. The channel panel on a snapshot whose maps are plain objects.
    Looking a channel up also finds what every object inherits: the panel
    fails with a [TypeError] exactly when [channelOrder] lists a name that
    is not a channel of [channelAccounts] and is inherited as anything but
    a function of [length] 0 ([constructor], [hasOwnProperty], [__proto__]
    and the like); a [channelOrder] without inherited names never fails.
    When the panel is shown its rows follow [channelOrder]: one row for
    each listed channel that has at least one account, in that order, and
    none for the others.  A row shows the label of its channel (the channel
    id when the labels have nothing under it, own or inherited), at least
    one account, and no more running accounts than accounts.  The panel
    says "no channels configured" exactly when no listed channel has an
    account. *)
Theorem channel_rows snapshot :
  let hasAccounts := fun channel =>
    default [] (channelAccounts snapshot !! channel) <> [] in
  let breaks := fun channel =>
    channelAccounts snapshot !! channel = None
    /\ exists m, Object_prototype channel = Some m /\ m <> InheritedFunction 0 in
  (renderChannelStatus (Some snapshot) = ThrowsTypeError
   <-> exists channel, channel ∈ channelOrder snapshot /\ breaks channel)
  /\ ((forall channel, channel ∈ channelOrder snapshot -> Object_prototype channel = None) ->
      renderChannelStatus (Some snapshot) <> ThrowsTypeError)
  /\ (forall entries,
        channelEntries snapshot (channelOrder snapshot) = Shown entries ->
        map entryChannel entries = filter hasAccounts (channelOrder snapshot)
        /\ (forall row, row ∈ entries ->
              (1 <= entryTotal row)%nat
              /\ (entryRunning row <= entryTotal row)%nat
              /\ entryTotal row
                 = length (default [] (channelAccounts snapshot !! entryChannel row))
              /\ entryLabel row
                 = match channelLabels snapshot !! entryChannel row with
                   | Some text => LabelText text
                   | None =>
                       match Object_prototype (entryChannel row) with
                       | Some m => LabelMember m
                       | None => LabelText (entryChannel row)
                       end
                   end)
        /\ (renderChannelStatus (Some snapshot) = Shown NoChannelsConfigured
            <-> forall channel, channel ∈ channelOrder snapshot -> ~ hasAccounts channel)
        /\ (entries <> [] ->
            renderChannelStatus (Some snapshot) = Shown (ChannelRows entries))).
Proof.
  intros hasAccounts breaks.
  assert (Hthrow : forall order,
            channelEntries snapshot order = ThrowsTypeError
            <-> exists channel, channel ∈ order /\ breaks channel).
  { induction order as [|c order IH].
    - simpl. split; [discriminate|]. intros (channel & Hin & _).
      now apply elem_of_nil in Hin.
    - assert (Hrest : (exists channel, channel ∈ order /\ breaks channel) ->
                      exists channel, channel ∈ c :: order /\ breaks channel).
      { intros (channel & Hin & Hb). exists channel.
        split; [apply elem_of_cons; now right|exact Hb]. }
      assert (Hhead : ~ breaks c ->
                (exists channel, channel ∈ c :: order /\ breaks channel) ->
                exists channel, channel ∈ order /\ breaks channel).
      { intros Hc (channel & Hin & Hb). apply elem_of_cons in Hin as [->|Hin];
          [contradiction|eauto]. }
      simpl. unfold member.
      destruct (channelAccounts snapshot !! c) as [accounts|] eqn:Eown.
      + assert (Hc : ~ breaks c) by (intros [Hn _]; congruence).
        destruct accounts as [|a accounts].
        * rewrite IH. split; [exact Hrest|exact (Hhead Hc)].
        * destruct (channelEntries snapshot order) as [entries|] eqn:Erest.
          -- split; [discriminate|]. intros H. apply (Hhead Hc), IH in H. discriminate.
          -- split; [|reflexivity]. intros _. apply Hrest, IH. reflexivity.
      + destruct (Object_prototype c) as [[[|n]|]|] eqn:Eproto.
        * assert (Hc : ~ breaks c).
          { intros (_ & m & Hm & Hne). rewrite Eproto in Hm. congruence. }
          rewrite IH. split; [exact Hrest|exact (Hhead Hc)].
        * split; [|reflexivity]. intros _. exists c.
          split; [apply elem_of_cons; now left|]. split; [exact Eown|].
          exists (InheritedFunction (S n)). split; [exact Eproto|discriminate].
        * split; [|reflexivity]. intros _. exists c.
          split; [apply elem_of_cons; now left|]. split; [exact Eown|].
          exists InheritedObject. split; [exact Eproto|discriminate].
        * assert (Hc : ~ breaks c).
          { intros (_ & m & Hm & _). rewrite Eproto in Hm. discriminate. }
          rewrite IH. split; [exact Hrest|exact (Hhead Hc)]. }
  assert (Hmap : forall order entries,
            channelEntries snapshot order = Shown entries ->
            map entryChannel entries = filter hasAccounts order).
  { induction order as [|c order IH]; intros entries; simpl.
    - now intros [= <-].
    - rewrite filter_cons. unfold member.
      destruct (decide (hasAccounts c)) as [Hh|Hh]; unfold hasAccounts in Hh;
        destruct (channelAccounts snapshot !! c) as [[|a accounts]|] eqn:Eown;
        simpl in Hh; try congruence.
      + destruct (channelEntries snapshot order) as [rest|]; [|discriminate].
        intros [= <-]. simpl. now rewrite (IH rest eq_refl).
      + apply IH.
      + exfalso. apply Hh. discriminate.
      + destruct (Object_prototype c) as [[[|n]|]|]; try discriminate; apply IH. }
  assert (Hrows : forall order entries,
            channelEntries snapshot order = Shown entries ->
            forall row, row ∈ entries ->
            (1 <= entryTotal row)%nat
            /\ (entryRunning row <= entryTotal row)%nat
            /\ entryTotal row
               = length (default [] (channelAccounts snapshot !! entryChannel row))
            /\ entryLabel row
               = match channelLabels snapshot !! entryChannel row with
                 | Some text => LabelText text
                 | None =>
                     match Object_prototype (entryChannel row) with
                     | Some m => LabelMember m
                     | None => LabelText (entryChannel row)
                     end
                 end).
  { induction order as [|c order IH]; intros entries; simpl.
    - intros [= <-] row Hin. now apply elem_of_nil in Hin.
    - unfold member at 1.
      destruct (channelAccounts snapshot !! c) as [[|a accounts]|] eqn:Eown.
      + apply IH.
      + destruct (channelEntries snapshot order) as [rest|]; [|discriminate].
        intros [= <-] row Hin.
        apply elem_of_cons in Hin as [->|Hin]; [|now apply (IH rest)].
        simpl. rewrite Eown. split; [simpl; lia|].
        split; [apply (length_filter _ (a :: accounts))|]. split; [reflexivity|].
        unfold member. destruct (channelLabels snapshot !! c); [reflexivity|].
        destruct (Object_prototype c); reflexivity.
      + destruct (Object_prototype c) as [[[|n]|]|]; try discriminate; apply IH. }
  split; [|split].
  - rewrite <- Hthrow. unfold renderChannelStatus.
    destruct (channelEntries snapshot (channelOrder snapshot)) as [[|row rows]|];
      split; congruence.
  - intros Hplain Hfail.
    assert (Hb : exists channel, channel ∈ channelOrder snapshot /\ breaks channel).
    { apply Hthrow. unfold renderChannelStatus in Hfail.
      destruct (channelEntries snapshot (channelOrder snapshot)) as [[|row rows]|];
        [discriminate..|reflexivity]. }
    destruct Hb as (channel & Hin & _ & m & Hm & _).
    rewrite (Hplain _ Hin) in Hm. discriminate.
  - intros entries Hentries.
    split; [now apply Hmap|]. split; [now apply (Hrows (channelOrder snapshot))|].
    specialize (Hmap _ _ Hentries).
    unfold renderChannelStatus. rewrite Hentries.
    destruct entries as [|row rows].
    + split; [|intros H; now contradiction H].
      * split; [|reflexivity]. intros _ channel Hin Hhas.
        assert (Hf : channel ∈ filter hasAccounts (channelOrder snapshot))
          by (apply list_elem_of_filter; tauto).
        rewrite <- Hmap in Hf. now apply elem_of_nil in Hf.
    + split; [|reflexivity].
      split; [discriminate|]. intros H. exfalso.
      assert (Hf : entryChannel row ∈ filter hasAccounts (channelOrder snapshot))
        by (rewrite <- Hmap; apply elem_of_cons; now left).
      apply list_elem_of_filter in Hf as [Hhas Hin]. now apply (H _ Hin).
Qed.

Lemma split_colon_nonempty s : split_colon s <> [].
Proof.
  destruct s as [|c r]; simpl; [discriminate|].
  destruct (Ascii.eqb c ":"); [discriminate|].
  destruct (split_colon r); discriminate.
Qed.

Lemma split_colon_concat s : String.concat ":" (split_colon s) = s.
Proof.
  induction s as [|c r IH]; [reflexivity|]. simpl.
  destruct (Ascii.eqb c ":") eqn:E.
  - apply Ascii.eqb_eq in E as ->.
    destruct (split_colon r) as [|h t] eqn:Hs; [now apply split_colon_nonempty in Hs|].
    simpl in *. now rewrite IH.
  - destruct (split_colon r) as [|h t] eqn:Hs; [now apply split_colon_nonempty in Hs|].
    simpl in *. destruct t; simpl in *; now rewrite <- IH.
Qed.

Lemma split_colon_segments s p :
  p ∈ split_colon s -> ~ In ":"%char (chars p).
Proof.
  revert p. induction s as [|c r IH]; intros p; simpl.
  - rewrite elem_of_cons, elem_of_nil. intros [->|[]]. simpl. tauto.
  - destruct (Ascii.eqb c ":") eqn:E.
    + rewrite elem_of_cons. intros [->|Hin]; [simpl; tauto|now apply IH].
    + destruct (split_colon r) as [|h t] eqn:Hs;
        [now apply split_colon_nonempty in Hs|].
      rewrite elem_of_cons. intros [->|Hin].
      * simpl. intros [Hc|Hin].
        -- subst c. discriminate E.
        -- apply (IH h); [apply elem_of_cons; now left|exact Hin].
      * apply IH. apply elem_of_cons. now right.
Qed.

Lemma split_colon_last s :
  exists before segment,
    last (split_colon s) = Some segment /\ s = before +:+ segment.
Proof.
  induction s as [|c r (before & segment & Hlast & Hr)].
  - exists EmptyString, EmptyString. split; reflexivity.
  - simpl. destruct (Ascii.eqb c ":") eqn:E.
    + exists (String c before), segment. rewrite last_cons, Hlast.
      split; [reflexivity|]. rewrite Hr at 1. reflexivity.
    + pose proof (split_colon_concat r) as Hcat.
      destruct (split_colon r) as [|h t] eqn:Hs;
        [now apply split_colon_nonempty in Hs|].
      destruct t as [|h' t].
      * simpl in Hcat. subst h. exists EmptyString, (String c r). split; reflexivity.
      * exists (String c before), segment. split.
        -- rewrite last_cons. rewrite last_cons in Hlast.
           destruct (last (h' :: t)) eqn:El; [exact Hlast|].
           rewrite last_cons in El. destruct (last t); discriminate.
        -- rewrite Hr at 1. reflexivity.
Qed.

(** X22. The channel label of a session row is its surface when it has a
    non-empty one, otherwise the third colon-separated segment of its key,
    or the first when there are fewer than three; the dash is never
    reached, and a label taken from the key contains no colon. *)
Theorem session_channel_label row :
  (truthy_opt (surface row) = true -> Some (sessionChannelLabel row) = surface row)
  /\ (truthy_opt (surface row) = false ->
      sessionChannelLabel row ∈ split_colon (key row)
      /\ ~ In ":"%char (chars (sessionChannelLabel row))
      /\ Some (sessionChannelLabel row)
         = match split_colon (key row) !! 2%nat with
           | Some p => Some p
           | None => split_colon (key row) !! 0%nat
           end).
Proof.
  unfold sessionChannelLabel. split; intros Hs; rewrite Hs.
  - destruct (surface row); [reflexivity|discriminate].
  - assert (Hin : match split_colon (key row) !! 2%nat with
                  | Some p => p
                  | None => match split_colon (key row) !! 0%nat with
                            | Some p => p
                            | None => emDash
                            end
                  end ∈ split_colon (key row)).
    { destruct (split_colon (key row) !! 2%nat) as [p|] eqn:E2;
        [eapply list_elem_of_lookup_2, E2|].
      destruct (split_colon (key row)) as [|h t] eqn:E;
        [now apply split_colon_nonempty in E|].
      simpl. apply elem_of_cons. now left. }
    split; [exact Hin|]. split; [now apply (split_colon_segments (key row))|].
    destruct (split_colon (key row) !! 2%nat); [reflexivity|].
    destruct (split_colon (key row)) as [|h t] eqn:E;
      [now apply split_colon_nonempty in E|reflexivity].
Qed.

(** X23. The display name of a session row is the first non-empty one of
    label, display name and subject; when all three are empty or absent it
    is the last colon-separated segment of the key: a suffix of the key
    without any colon (the empty string when the key ends in a colon).  The
    whole key is never used as a fallback. *)
Theorem session_display_name row :
  (truthy_opt (label row) = true -> Some (sessionDisplayName row) = label row)
  /\ (truthy_opt (label row) = false -> truthy_opt (displayName row) = true ->
      Some (sessionDisplayName row) = displayName row)
  /\ (truthy_opt (label row) = false -> truthy_opt (displayName row) = false ->
      truthy_opt (subject row) = true ->
      Some (sessionDisplayName row) = subject row)
  /\ (truthy_opt (label row) = false -> truthy_opt (displayName row) = false ->
      truthy_opt (subject row) = false ->
      last (split_colon (key row)) = Some (sessionDisplayName row)
      /\ ~ In ":"%char (chars (sessionDisplayName row))
      /\ exists before, key row = before +:+ sessionDisplayName row).
Proof.
  unfold sessionDisplayName. split; [|split; [|split]].
  - intros H. rewrite H. destruct (label row); [reflexivity|discriminate].
  - intros H1 H2. rewrite H1, H2. destruct (displayName row); [reflexivity|discriminate].
  - intros H1 H2 H3. rewrite H1, H2, H3.
    destruct (subject row); [reflexivity|discriminate].
  - intros H1 H2 H3. rewrite H1, H2, H3.
    destruct (split_colon_last (key row)) as (before & segment & Hlast & Hkey).
    pose proof Hlast as Hl. rewrite last_lookup in Hl.
    replace (length (split_colon (key row)) - 1)%nat
      with (pred (length (split_colon (key row)))) by lia.
    rewrite Hl. split; [exact Hlast|]. split.
    + apply (split_colon_segments (key row)). now apply last_Some_elem_of.
    + now exists before.
Qed.

Lemma session_channel_label_witness :
  sessionChannelLabel (bareRow "agent:main:telegram:42") = "telegram"
  /\ sessionChannelLabel (bareRow "main") = "main".
Proof.
  split.
  - destruct (proj2 (session_channel_label (bareRow "agent:main:telegram:42")) eq_refl)
      as (_ & _ & H).
    exact (f_equal (default EmptyString) H).
  - destruct (proj2 (session_channel_label (bareRow "main")) eq_refl) as (_ & _ & H).
    exact (f_equal (default EmptyString) H).
Defined.

Lemma session_display_name_witness :
  last (split_colon "agent:main:telegram:")
  = Some (sessionDisplayName (bareRow "agent:main:telegram:"))
  /\ sessionDisplayName (bareRow "agent:main:telegram:") = EmptyString.
Proof.
  split; [|reflexivity].
  apply (proj2 (proj2 (proj2 (session_display_name (bareRow "agent:main:telegram:"))))
               eq_refl eq_refl eq_refl).
Defined.

End DashboardFacts.
